(** * Page-structured indexes: B-tree and Linear Hashing

    A shallow embedding of [base.py], [btree.py] and [linear_hash.py].

    Python objects that the source mutates in place are modelled by explicit
    state passing: a method returns the new state of [self] next to its
    result.  A Python exception is [None] in the [option] type. *)

From Stdlib Require Import ZArith QArith List Lia Bool Permutation Sorted.
From Stdlib Require Import Floats.
From Equations Require Import Equations.
Import ListNotations.
Set Warnings "-register-all".
Open Scope Z_scope.

(** ** Python lists *)

(** [list.insert(i, x)] for [0 <= i]: past the end it appends. *)
Definition py_insert {A : Type} (i : nat) (x : A) (l : list A) : list A :=
  firstn i l ++ x :: skipn i l.

(** [l[i] = x] for [0 <= i < len(l)]; out of range it raises [IndexError]. *)
Fixpoint py_setitem {A : Type} (l : list A) (i : nat) (x : A) : option (list A) :=
  match l, i with
  | [], _ => None
  | _ :: tl, O => Some (x :: tl)
  | y :: tl, S i' => option_map (cons y) (py_setitem tl i' x)
  end.

(** A Python [int] index into a sequence of length [len]: a negative index
    counts from the end, and an index out of range raises [IndexError]. *)
Definition py_index (len : nat) (i : Z) : option nat :=
  if 0 <=? i then (if i <? Z.of_nat len then Some (Z.to_nat i) else None)
  else if - Z.of_nat len <=? i then Some (Z.to_nat (Z.of_nat len + i))
  else None.

(** [l[i]]. *)
Definition py_getitem {A : Type} (l : list A) (i : Z) : option A :=
  match py_index (length l) i with
  | Some n => nth_error l n
  | None => None
  end.

(** [sum(...)] over integers. *)
Definition py_sum (l : list Z) : Z := fold_right Z.add 0 l.

(** ** Records *)

(** A record is a non-empty sequence of integers; [record[0]] is its key.
    The pages store it as [tuple(record)]. *)
Record record : Type := mkRecord { rkey : Z; rvals : list Z }.

(** The caller hands a record over as a Python [list] (the CSV loader) or as
    a [tuple] (the prompt of [Index.menu]); [get_size] tells them apart. *)
Inductive pyseq : Type := PyList | PyTuple.

(** The last step of the midpoint computation of the binary search. *)
Lemma mid_bounds (lo hi : nat) : (lo < hi)%nat -> (lo <= (lo + hi) / 2 < hi)%nat.
Proof.
  intros H. split.
  - apply Nat.div_le_lower_bound; lia.
  - apply Nat.Div0.div_lt_upper_bound; lia.
Qed.

(** The loop shared by [TreePage.binary_search] and
    [NonLeafPage.binary_search]:
<<
    while begin < end:
        h = (begin + end) // 2
        if key < L[h]: end = h
        else:          begin = h + 1
    return begin
>>
    An element of [L] is [Some k] for the integer [k]; [None] stands for an
    element that is not an integer, on which [key < L[h]] raises [TypeError]
    (and for [L[h]] out of range). *)
Equations? bsearch_loop (L : list (option Z)) (key : Z) (lo hi : nat) : option nat
  by wf (hi - lo)%nat lt :=
  bsearch_loop L key lo hi with lt_dec lo hi := {
    | right _ => Some lo
    | left _ with nth ((lo + hi) / 2)%nat L None := {
        | None => None
        | Some kh with Z_lt_dec key kh := {
            | left _ => bsearch_loop L key lo ((lo + hi) / 2)%nat
            | right _ => bsearch_loop L key ((lo + hi) / 2 + 1)%nat hi } } }.
Proof.
  all: change (fst (Nat.divmod (lo + hi) 1 0 1)) with ((lo + hi) / 2)%nat;
    pose proof (mid_bounds lo hi); lia.
Qed.

(** ** The Python runtime's object sizes

    [x.__sizeof__()] is fixed by the interpreter, not by the repository: it is
    a parameter of the development. *)
Section Index.

Variable int_sizeof : Z -> Z.        (* int.__sizeof__ *)
Variable tuple_sizeof : record -> Z. (* tuple.__sizeof__ of a stored record *)
Variable page_sizeof : Z.            (* object.__sizeof__ of a page instance *)

(** The page size [_size], handed by an index to every page it creates. *)
Variable size : Z.

(** [get_size(record)] of [base.py] on the argument of [insert]. *)
Definition get_size_record (kind : pyseq) (r : record) : Z :=
  match kind with
  | PyList => py_sum (map int_sizeof (rkey r :: rvals r))
  | PyTuple => tuple_sizeof r
  end.

(** [get_size(data)] on a list of stored tuples. *)
Definition get_size_tuples (data : list record) : Z := py_sum (map tuple_sizeof data).

(** ** B-tree pages *)

(** A payload slot of an internal page holds a separator key (an [int]) or
    a child page; the source tells them apart by the parity of the position
    only. *)
Inductive slot : Type :=
| Key (k : Z)
| LeafPage (data : list record)
| NonLeafPage (data : list slot).

Definition slot_sizeof (s : slot) : Z :=
  match s with
  | Key k => int_sizeof k
  | LeafPage _ | NonLeafPage _ => page_sizeof
  end.

(** [Page.used_space]; only ever read on a page. *)
Definition used_space (p : slot) : Z :=
  match p with
  | Key _ => 0
  | LeafPage data => get_size_tuples data
  | NonLeafPage data => py_sum (map slot_sizeof data)
  end.

Definition slot_int (s : slot) : option Z :=
  match s with Key k => Some k | _ => None end.

(** [LeafPage.get_key_list]. *)
Definition LeafPage_get_key_list (data : list record) : list Z := map rkey data.

(** [NonLeafPage.get_key_list]: the slots at the odd positions. *)
Fixpoint NonLeafPage_get_key_list (data : list slot) : list slot :=
  match data with
  | _ :: k :: rest => k :: NonLeafPage_get_key_list rest
  | _ => []
  end.

(** [TreePage.binary_search], as [LeafPage] inherits it. *)
Definition TreePage_binary_search (data : list record) (key : Z) : option nat :=
  let L := map Some (LeafPage_get_key_list data) in
  bsearch_loop L key 0 (length L).

(** [NonLeafPage.binary_search]: the same loop, [return begin * 2]. *)
Definition NonLeafPage_binary_search (data : list slot) (key : Z) : option nat :=
  let key_list := map slot_int (NonLeafPage_get_key_list data) in
  option_map (fun b => (b * 2)%nat) (bsearch_loop key_list key 0 (length key_list)).

(** [LeafPage.insert]: returns [True], the payload becomes the result. *)
Definition LeafPage_insert (data : list record) (r : record) : option (list record) :=
  match TreePage_binary_search data (rkey r) with
  | Some position => Some (py_insert position r data)
  | None => None
  end.

(** [LeafPage.remove]: drops the first record with the key. *)
Fixpoint LeafPage_remove (data : list record) (key : Z) : list record * bool :=
  match data with
  | [] => ([], false)
  | r :: tl =>
      if rkey r =? key then (tl, true)
      else let (tl', b) := LeafPage_remove tl key in (r :: tl', b)
  end.

(** [LeafPage.search]. *)
Definition LeafPage_search (data : list record) (key : Z) : list record :=
  filter (fun r => rkey r =? key) data.

(** [LeafPage.split]: (what the page retains, the payload of the new page). *)
Definition LeafPage_split (data : list record) : list record * list record :=
  let mid := (length data / 2)%nat in
  (firstn mid data, skipn mid data).

(** [NonLeafPage.split]: (what the page retains, the payload of the new page). *)
Definition NonLeafPage_split (data : list slot) : list slot * list slot :=
  let mid := (length data / 2)%nat in
  let mid := if (mid mod 2 =? 1)%nat then (mid - 1)%nat else mid in
  (firstn mid data, skipn mid data).

(** [child.split()] by the class of [child]; an [int] has no [split]. *)
Definition TreePage_split (p : slot) : option (slot * slot) :=
  match p with
  | Key _ => None
  | LeafPage data => let (a, b) := LeafPage_split data in Some (LeafPage a, LeafPage b)
  | NonLeafPage data => let (a, b) := NonLeafPage_split data in Some (NonLeafPage a, NonLeafPage b)
  end.

(** The separator promoted next to a new sibling: [new.get_key(0)] for a
    leaf, [new.get_key_list()[0]] for an internal page (an [IndexError]
    when it has no key).  [get_key(0)] of an empty leaf is Python's [None];
    every caller splits a leaf right after an insert into it, so that case
    is out of reach and is reported as an error here. *)
Definition separator_key (new_sibling : slot) : option slot :=
  match new_sibling with
  | Key _ => None
  | LeafPage [] => None
  | LeafPage (r :: _) => Some (Key (rkey r))
  | NonLeafPage data => nth_error (NonLeafPage_get_key_list data) 0
  end.

(** [NonLeafPage._split_child]. *)
Definition NonLeafPage_split_child (data : list slot) (child_pos : nat) : option (list slot) :=
  match nth_error data child_pos with
  | None => None
  | Some child =>
      match TreePage_split child with
      | None => None
      | Some (child', new_child) =>
          match separator_key new_child, py_setitem data child_pos child' with
          | Some new_key, Some data' =>
              Some (py_insert (child_pos + 2) new_child (py_insert (child_pos + 1) new_key data'))
          | _, _ => None
          end
      end
  end.

(** Run a method on the page at one position of a payload and store the
    page's new state there. *)
Definition on_child (f : slot -> option slot) : list slot -> nat -> option (list slot) :=
  fix go (l : list slot) (i : nat) {struct l} : option (list slot) :=
    match l, i with
    | [], _ => None
    | c :: tl, O => option_map (fun c' => c' :: tl) (f c)
    | c :: tl, S i' => option_map (cons c) (go tl i')
    end.

(** [LeafPage.insert] and [NonLeafPage.insert], by the class of the page. *)
Fixpoint TreePage_insert (p : slot) (r : record) {struct p} : option slot :=
  match p with
  | Key _ => None
  | LeafPage data => option_map LeafPage (LeafPage_insert data r)
  | NonLeafPage data =>
      match NonLeafPage_binary_search data (rkey r) with
      | None => None
      | Some child_pos =>
          if (child_pos <? length data)%nat then
            match on_child (fun child => TreePage_insert child r) data child_pos with
            | None => None
            | Some data1 =>
                match nth_error data1 child_pos with
                | None => None
                | Some child =>
                    if used_space child >? size
                    then option_map NonLeafPage (NonLeafPage_split_child data1 child_pos)
                    else Some (NonLeafPage data1)
                end
            end
          else Some p
      end
  end.

(** Like [on_child], for a method that also returns a value. *)
Definition on_child_with {R : Type} (f : slot -> option (slot * R))
  : list slot -> nat -> option (list slot * R) :=
  fix go (l : list slot) (i : nat) {struct l} : option (list slot * R) :=
    match l, i with
    | [], _ => None
    | c :: tl, O => option_map (fun cr => (fst cr :: tl, snd cr)) (f c)
    | c :: tl, S i' => option_map (fun lr => (c :: fst lr, snd lr)) (go tl i')
    end.

(** [LeafPage.remove] and [NonLeafPage.remove], by the class of the page. *)
Fixpoint TreePage_remove (p : slot) (key : Z) {struct p} : option (slot * bool) :=
  match p with
  | Key _ => None
  | LeafPage data => let (data', b) := LeafPage_remove data key in Some (LeafPage data', b)
  | NonLeafPage data =>
      match NonLeafPage_binary_search data key with
      | None => None
      | Some child_pos =>
          if (child_pos <? length data)%nat then
            option_map (fun dr => (NonLeafPage (fst dr), snd dr))
              (on_child_with (fun child => TreePage_remove child key) data child_pos)
          else Some (p, false)
      end
  end.

(** What a method reads from the page at one position of a payload. *)
Definition at_child {R : Type} (f : slot -> option R) : list slot -> nat -> option R :=
  fix go (l : list slot) (i : nat) {struct l} : option R :=
    match l, i with
    | [], _ => None
    | c :: _, O => f c
    | _ :: tl, S i' => go tl i'
    end.

(** [LeafPage.search] and [NonLeafPage.search], by the class of the page. *)
Fixpoint TreePage_search (p : slot) (key : Z) {struct p} : option (list record) :=
  match p with
  | Key _ => None
  | LeafPage data => Some (LeafPage_search data key)
  | NonLeafPage data =>
      match NonLeafPage_binary_search data key with
      | None => None
      | Some child_pos =>
          if (child_pos <? length data)%nat then
            at_child (fun child => TreePage_search child key) data child_pos
          else Some []
      end
  end.

(** ** The B-tree driver

    The state of a [BTreeIndex] is its root page; a fresh index has an empty
    leaf as its root. *)
Definition BTreeIndex_init : slot := LeafPage [].

(** [BTreeIndex.insert]; it returns [True]. *)
Definition BTreeIndex_insert (root : slot) (r : record) : option slot :=
  match TreePage_insert root r with
  | None => None
  | Some root1 =>
      if used_space root1 >? size then
        match TreePage_split root1 with
        | None => None
        | Some (old_root, new_sibling) =>
            match separator_key new_sibling with
            | None => None
            | Some sep => Some (NonLeafPage [old_root; sep; new_sibling])
            end
        end
      else Some root1
  end.

(** The test of the collapse branch of [BTreeIndex.remove]:
    [isinstance(self._root, NonLeafPage) and len(self._root.data) == 1]. *)
Definition root_collapses (root : slot) : bool :=
  match root with
  | NonLeafPage data => (length data =? 1)%nat
  | _ => false
  end.

(** [BTreeIndex.remove]. *)
Definition BTreeIndex_remove (root : slot) (key : Z) : option (slot * bool) :=
  match TreePage_remove root key with
  | None => None
  | Some (root1, result) =>
      if root_collapses root1 then
        match root1 with
        | NonLeafPage (child :: _) => Some (child, result)
        | _ => None
        end
      else Some (root1, result)
  end.

(** [BTreeIndex.search]. *)
Definition BTreeIndex_search (root : slot) (key : Z) : option (list record) :=
  TreePage_search root key.

(** [BTreeIndex._get_height]: 1 for a leaf, else one more than the largest
    height of a child, the children being the slots at the even positions. *)
Fixpoint BTreeIndex_get_height (node : slot) {struct node} : option nat :=
  match node with
  | Key _ => None
  | LeafPage _ => Some 1%nat
  | NonLeafPage data =>
      option_map S
        ((fix children (l : list slot) : option nat :=
            match l with
            | [] => Some 0%nat
            | child :: rest =>
                match BTreeIndex_get_height child with
                | None => None
                | Some h =>
                    match (match rest with [] => Some 0%nat | _ :: rest' => children rest' end) with
                    | None => None
                    | Some max_height => Some (Nat.max h max_height)
                    end
                end
            end) data)
  end.

(** The records stored below a page, left to right. *)
Fixpoint records_of (p : slot) {struct p} : list record :=
  match p with
  | Key _ => []
  | LeafPage data => data
  | NonLeafPage data => flat_map records_of data
  end.

(** ** Hash buckets *)

(** A bucket: the payload of the head page and its overflow page, if any. *)
Inductive HashPage : Type :=
| mkHashPage (data : list record) (overflow : option HashPage).

(** [HashPage(size)]. *)
Definition HashPage_new : HashPage := mkHashPage [] None.

(** [HashPage.search]: the first match of the head page, else the overflow's. *)
Fixpoint HashPage_search (p : HashPage) (key : Z) : list record :=
  match p with
  | mkHashPage data overflow =>
      match find (fun r => rkey r =? key) data with
      | Some r => [r]
      | None =>
          match overflow with
          | Some o => HashPage_search o key
          | None => []
          end
      end
  end.

(** The truth value of a Python list. *)
Definition py_truthy {A : Type} (l : list A) : bool :=
  match l with [] => false | _ => true end.

(** [HashPage.insert].  A record that does not fit an empty page makes the
    source allocate overflow pages without end; the [RecursionError] that
    stops it is [None]. *)
Fixpoint HashPage_insert (p : HashPage) (kind : pyseq) (r : record)
  : option (HashPage * bool) :=
  match p with
  | mkHashPage data overflow =>
      if py_truthy (HashPage_search p (rkey r)) then Some (p, false)
      else if get_size_tuples data + get_size_record kind r <=? size
      then Some (mkHashPage (data ++ [r]) overflow, true)
      else
        match overflow with
        | Some o =>
            match HashPage_insert o kind r with
            | Some (o', b) => Some (mkHashPage data (Some o'), b)
            | None => None
            end
        | None =>
            (* [self._overflow = HashPage(self._size)], then the same method
               on the fresh page: nothing to find, nothing used *)
            if get_size_tuples [] + get_size_record kind r <=? size
            then Some (mkHashPage data (Some (mkHashPage [r] None)), true)
            else None
        end
  end.

(** [HashPage.remove]: the scan of the head page is the loop of
    [LeafPage.remove], then the overflow page, if any. *)
Fixpoint HashPage_remove (p : HashPage) (key : Z) : HashPage * bool :=
  match p with
  | mkHashPage data overflow =>
      match LeafPage_remove data key with
      | (data', true) => (mkHashPage data' overflow, true)
      | (_, false) =>
          match overflow with
          | Some o => let (o', b) := HashPage_remove o key in (mkHashPage data (Some o'), b)
          | None => (p, false)
          end
      end
  end.

(** [HashPage.get_all_records]. *)
Fixpoint HashPage_get_all_records (p : HashPage) : list record :=
  match p with
  | mkHashPage data overflow =>
      data ++ match overflow with
              | Some o => HashPage_get_all_records o
              | None => []
              end
  end.

(** ** Python floats

    A [float] is an IEEE 754 binary64 number, as Rocq's primitive floats
    are. *)

Definition float_of_int (z : Z) : float :=
  if z <? 0 then PrimFloat.opp (PrimFloat.of_uint63 (Uint63.of_Z (- z)))
  else PrimFloat.of_uint63 (Uint63.of_Z z).

(** [a / b] on two [int]s: [ZeroDivisionError] when [b == 0].  Python
    rounds the exact quotient once; for operands up to [2^53] that is the
    quotient of their exact conversions.  Larger operands are outside the
    model ([None]). *)
Definition int_truediv (a b : Z) : option float :=
  if b =? 0 then None
  else if (Z.abs a <=? 2 ^ 53) && (Z.abs b <=? 2 ^ 53)
  then Some (PrimFloat.div (float_of_int a) (float_of_int b))
  else None.

(** [x / y] on two [float]s: [ZeroDivisionError] when [y == 0.0]. *)
Definition float_truediv (x y : float) : option float :=
  if PrimFloat.eqb y PrimFloat.zero then None else Some (PrimFloat.div x y).

(** ** The Linear Hashing engine *)

Variable initial_buckets : Z.  (* [_initial_buckets] *)
Variable utilization : float.  (* [_utilization] *)

Record LinearHashIndex : Type := mkLinearHashIndex {
  _level : nat;
  _next_split : Z;
  _num_buckets : Z;
  _buckets : list HashPage;
  _num_records : Z;
  _num_splits : Z
}.

(** [LinearHashIndex.__init__]. *)
Definition LinearHashIndex_init : LinearHashIndex :=
  {| _level := 0;
     _next_split := 0;
     _num_buckets := initial_buckets;
     _buckets := repeat HashPage_new (Z.to_nat initial_buckets);
     _num_records := 0;
     _num_splits := 0 |}.

(** [LinearHashIndex._hash]: [key % (2 ** level * initial_buckets)], a
    [ZeroDivisionError] when the modulus is 0. *)
Definition _hash (key : Z) (level : nat) : option Z :=
  let m := 2 ^ Z.of_nat level * initial_buckets in
  if m =? 0 then None else Some (key mod m).

(** [LinearHashIndex._get_bucket_index]. *)
Definition _get_bucket_index (s : LinearHashIndex) (key : Z) : option Z :=
  match _hash key (_level s) with
  | None => None
  | Some bucket_idx =>
      if bucket_idx <? _next_split s then _hash key (_level s + 1) else Some bucket_idx
  end.

(** [max_records_per_bucket] of [_need_split]:
    [self._size / get_size([0, 0, 0])].  It reads nothing of the state. *)
Definition max_records_per_bucket : option float :=
  int_truediv size (py_sum (map int_sizeof [0; 0; 0])).

(** [load_factor] of [_need_split]: [avg_occupancy / max_records_per_bucket]
    with [avg_occupancy = self._num_records / self._num_buckets]. *)
Definition load_factor (s : LinearHashIndex) : option float :=
  match int_truediv (_num_records s) (_num_buckets s) with
  | None => None
  | Some avg_occupancy =>
      match max_records_per_bucket with
      | None => None
      | Some per_bucket => float_truediv avg_occupancy per_bucket
      end
  end.

(** [LinearHashIndex._need_split]: [load_factor >= self._utilization]. *)
Definition _need_split (s : LinearHashIndex) : option bool :=
  option_map (fun lf => PrimFloat.leb utilization lf) (load_factor s).

(** The redistribution loop of [_split] over the drained records; the state
    is the pair of the old and the new bucket. *)
Fixpoint redistribute (old_bucket_idx : Z) (level : nat) (records : list record)
  (st : HashPage * HashPage) : option (HashPage * HashPage) :=
  match records with
  | [] => Some st
  | record :: rest =>
      match _hash (rkey record) (level + 1) with
      | None => None
      | Some bucket_idx =>
          if bucket_idx =? old_bucket_idx then
            match HashPage_insert (fst st) PyTuple record with
            | Some (old', _) => redistribute old_bucket_idx level rest (old', snd st)
            | None => None
            end
          else
            match HashPage_insert (snd st) PyTuple record with
            | Some (new', _) => redistribute old_bucket_idx level rest (fst st, new')
            | None => None
            end
      end
  end.

(** [LinearHashIndex._split]. *)
Definition _split (s : LinearHashIndex) : option LinearHashIndex :=
  let old_bucket_idx := _next_split s in
  match py_index (length (_buckets s)) old_bucket_idx with
  | None => None
  | Some old_pos =>
      match nth_error (_buckets s) old_pos with
      | None => None
      | Some old_bucket =>
          let records := HashPage_get_all_records old_bucket in
          match redistribute old_bucket_idx (_level s) records (HashPage_new, HashPage_new) with
          | None => None
          | Some (old', new') =>
              match py_setitem (_buckets s) old_pos old' with
              | None => None
              | Some buckets' =>
                  let next_split := _next_split s + 1 in
                  let round_done := next_split >=? 2 ^ Z.of_nat (_level s) * initial_buckets in
                  Some {| _level := if round_done then (_level s + 1)%nat else _level s;
                          _next_split := if round_done then 0 else next_split;
                          _num_buckets := _num_buckets s + 1;
                          _buckets := buckets' ++ [new'];
                          _num_records := _num_records s;
                          _num_splits := _num_splits s + 1 |}
              end
          end
      end
  end.

(** [LinearHashIndex.insert]. *)
Definition LinearHashIndex_insert (s : LinearHashIndex) (kind : pyseq) (r : record)
  : option (LinearHashIndex * bool) :=
  match _get_bucket_index s (rkey r) with
  | None => None
  | Some bucket_idx =>
      match py_index (length (_buckets s)) bucket_idx with
      | None => None
      | Some pos =>
          match nth_error (_buckets s) pos with
          | None => None
          | Some bucket =>
              match HashPage_insert bucket kind r with
              | None => None
              | Some (_, false) => Some (s, false)
              | Some (bucket', true) =>
                  match py_setitem (_buckets s) pos bucket' with
                  | None => None
                  | Some buckets' =>
                      let s1 := {| _level := _level s;
                                   _next_split := _next_split s;
                                   _num_buckets := _num_buckets s;
                                   _buckets := buckets';
                                   _num_records := _num_records s + 1;
                                   _num_splits := _num_splits s |} in
                      match _need_split s1 with
                      | None => None
                      | Some true => option_map (fun s2 => (s2, true)) (_split s1)
                      | Some false => Some (s1, true)
                      end
                  end
              end
          end
      end
  end.

(** [LinearHashIndex.remove]. *)
Definition LinearHashIndex_remove (s : LinearHashIndex) (key : Z)
  : option (LinearHashIndex * bool) :=
  match _get_bucket_index s key with
  | None => None
  | Some bucket_idx =>
      match py_index (length (_buckets s)) bucket_idx with
      | None => None
      | Some pos =>
          match nth_error (_buckets s) pos with
          | None => None
          | Some bucket =>
              match HashPage_remove bucket key with
              | (bucket', true) =>
                  match py_setitem (_buckets s) pos bucket' with
                  | None => None
                  | Some buckets' =>
                      Some ({| _level := _level s;
                               _next_split := _next_split s;
                               _num_buckets := _num_buckets s;
                               _buckets := buckets';
                               _num_records := _num_records s - 1;
                               _num_splits := _num_splits s |}, true)
                  end
              | (_, false) => Some (s, false)
              end
          end
      end
  end.

(** [LinearHashIndex.search]. *)
Definition LinearHashIndex_search (s : LinearHashIndex) (key : Z) : option (list record) :=
  match _get_bucket_index s key with
  | None => None
  | Some bucket_idx =>
      match py_getitem (_buckets s) bucket_idx with
      | None => None
      | Some bucket => Some (HashPage_search bucket key)
      end
  end.

(** ** More of the B-tree pages *)

(** [LeafPage.get_key]: the key at a position, Python's [None] (here
    [None]) outside [0 <= position < len]. *)
Definition LeafPage_get_key (data : list record) (position : Z) : option Z :=
  if (0 <=? position) && (position <? Z.of_nat (length data))
  then option_map rkey (nth_error data (Z.to_nat position))
  else None.

(** [NonLeafPage.get_key]: the slot at [position * 2 + 1] when that is
    below [len]; the outer [None] is the [IndexError] of a position too far
    below 0, the inner one Python's [None]. *)
Definition NonLeafPage_get_key (data : list slot) (position : Z) : option (option slot) :=
  let key_pos := position * 2 + 1 in
  if key_pos <? Z.of_nat (length data)
  then option_map Some (py_getitem data key_pos)
  else Some None.

(** [NonLeafPage.get_left] and [NonLeafPage.get_right]. *)
Definition NonLeafPage_get_left (data : list slot) : option slot := nth_error data 0.

Definition NonLeafPage_get_right (data : list slot) : option slot :=
  if (0 <? length data)%nat then py_getitem data (-1) else None.

(** [len(page)], which is [Page.__len__]; an [int] has no [len]. *)
Definition page_len (p : slot) : option nat :=
  match p with
  | Key _ => None
  | LeafPage data => Some (length data)
  | NonLeafPage data => Some (length data)
  end.

(** [NonLeafPage._borrow_sibling]: the position of the sibling to borrow
    from, Python's [None] (the inner [None]) when there is none. *)
Definition NonLeafPage_borrow_sibling (data : list slot) (child_pos : nat)
  : option (option nat) :=
  let left_sibling := if (2 <=? child_pos)%nat then Some (child_pos - 2)%nat else None in
  let right_sibling :=
    if (child_pos + 2 <? length data)%nat then Some (child_pos + 2)%nat else None in
  match left_sibling, right_sibling with
  | Some l, Some r =>
      match nth_error data l, nth_error data r with
      | Some pl, Some pr =>
          match page_len pl, page_len pr with
          | Some nl, Some nr => if (nr <? nl)%nat then Some (Some l) else Some (Some r)
          | _, _ => None
          end
      | _, _ => None
      end
  | Some l, None => Some (Some l)
  | None, Some r => Some (Some r)
  | None, None => Some None
  end.

(** [NonLeafPage._join_child]: it looks for a sibling and returns the child
    as it is. *)
Definition NonLeafPage_join_child (data : list slot) (pos : nat) (child : slot)
  : option slot :=
  match NonLeafPage_borrow_sibling data pos with
  | Some _ => Some child
  | None => None
  end.

(** [BTreeIndex._range_search_helper]: what it appends to [results]. *)
Fixpoint BTreeIndex_range_search_helper (node : slot) (min_key max_key : Z) {struct node}
  : option (list record) :=
  match node with
  | Key _ => None
  | LeafPage data =>
      Some (filter (fun r => (min_key <=? rkey r) && (rkey r <=? max_key)) data)
  | NonLeafPage data =>
      (fix children (l : list slot) : option (list record) :=
         match l with
         | [] => Some []
         | child :: rest =>
             match BTreeIndex_range_search_helper child min_key max_key with
             | None => None
             | Some found =>
                 match (match rest with [] => Some [] | _ :: rest' => children rest' end) with
                 | None => None
                 | Some more => Some (found ++ more)
                 end
             end
         end) data
  end.

(** [BTreeIndex.range_search]. *)
Definition BTreeIndex_range_search (root : slot) (min_key max_key : Z)
  : option (list record) :=
  BTreeIndex_range_search_helper root min_key max_key.

(** [BTreeIndex._count_nodes]. *)
Fixpoint BTreeIndex_count_nodes (node : slot) {struct node} : option nat :=
  match node with
  | Key _ => None
  | LeafPage _ => Some 1%nat
  | NonLeafPage data =>
      (fix children (l : list slot) (count : nat) : option nat :=
         match l with
         | [] => Some count
         | child :: rest =>
             match BTreeIndex_count_nodes child with
             | None => None
             | Some n =>
                 match rest with
                 | [] => Some (count + n)%nat
                 | _ :: rest' => children rest' (count + n)%nat
                 end
             end
         end) data 1%nat
  end.

(** [BTreeIndex._count_leaf_nodes]. *)
Fixpoint BTreeIndex_count_leaf_nodes (node : slot) {struct node} : option nat :=
  match node with
  | Key _ => None
  | LeafPage _ => Some 1%nat
  | NonLeafPage data =>
      (fix children (l : list slot) (count : nat) : option nat :=
         match l with
         | [] => Some count
         | child :: rest =>
             match BTreeIndex_count_leaf_nodes child with
             | None => None
             | Some n =>
                 match rest with
                 | [] => Some (count + n)%nat
                 | _ :: rest' => children rest' (count + n)%nat
                 end
             end
         end) data 0%nat
  end.

(** [BTreeIndex._count_records]. *)
Fixpoint BTreeIndex_count_records (node : slot) {struct node} : option nat :=
  match node with
  | Key _ => None
  | LeafPage data => Some (length data)
  | NonLeafPage data =>
      (fix children (l : list slot) (count : nat) : option nat :=
         match l with
         | [] => Some count
         | child :: rest =>
             match BTreeIndex_count_records child with
             | None => None
             | Some n =>
                 match rest with
                 | [] => Some (count + n)%nat
                 | _ :: rest' => children rest' (count + n)%nat
                 end
             end
         end) data 0%nat
  end.

(** The dictionary of [BTreeIndex.get_statistics]. *)
Record btree_statistics : Type := {
  stat_height : nat;
  stat_num_nodes : nat;
  stat_num_leaf_nodes : nat;
  stat_num_records : nat
}.

(** [BTreeIndex.get_statistics]. *)
Definition BTreeIndex_get_statistics (root : slot) : option btree_statistics :=
  match BTreeIndex_get_height root, BTreeIndex_count_nodes root,
        BTreeIndex_count_leaf_nodes root, BTreeIndex_count_records root with
  | Some h, Some n, Some l, Some r =>
      Some {| stat_height := h; stat_num_nodes := n;
              stat_num_leaf_nodes := l; stat_num_records := r |}
  | _, _, _, _ => None
  end.

(** ** More of the hash buckets *)

(** [HashPage.has_overflow]. *)
Definition HashPage_has_overflow (p : HashPage) : bool :=
  match p with
  | mkHashPage _ (Some _) => true
  | mkHashPage _ None => false
  end.

(** [HashPage.count_overflow_pages]. *)
Fixpoint HashPage_count_overflow_pages (p : HashPage) : nat :=
  match p with
  | mkHashPage _ None => 0
  | mkHashPage _ (Some o) => 1 + HashPage_count_overflow_pages o
  end.

(** [HashPage.clear]. *)
Definition HashPage_clear (p : HashPage) : HashPage := mkHashPage [] None.

(** A number of Python: [get_statistics] reports the mean occupancy as a
    [float], or as the [int] 0 when there is no bucket. *)
Inductive pynumber : Type :=
| PyFloat (f : float)
| PyInt (z : Z).

(** The dictionary of [LinearHashIndex.get_statistics]. *)
Record hash_statistics : Type := {
  stat_num_buckets : Z;
  stat_hash_num_records : Z;
  stat_level : nat;
  stat_next_split : Z;
  stat_num_splits : Z;
  stat_overflow_pages : nat;
  stat_buckets_with_overflow : nat;
  stat_avg_records_per_bucket : pynumber
}.

(** [LinearHashIndex.get_statistics]. *)
Definition LinearHashIndex_get_statistics (s : LinearHashIndex) : option hash_statistics :=
  let total_overflow :=
    fold_right Nat.add 0%nat (map HashPage_count_overflow_pages (_buckets s)) in
  let buckets_with_overflow :=
    fold_right Nat.add 0%nat
      (map (fun _ => 1%nat) (filter HashPage_has_overflow (_buckets s))) in
  match (if 0 <? _num_buckets s
         then option_map PyFloat (int_truediv (_num_records s) (_num_buckets s))
         else Some (PyInt 0)) with
  | None => None
  | Some avg =>
      Some {| stat_num_buckets := _num_buckets s;
              stat_hash_num_records := _num_records s;
              stat_level := _level s;
              stat_next_split := _next_split s;
              stat_num_splits := _num_splits s;
              stat_overflow_pages := total_overflow;
              stat_buckets_with_overflow := buckets_with_overflow;
              stat_avg_records_per_bucket := avg |}
  end.

(** ** Scripts of operations on the hash engine *)

Inductive hash_op : Type :=
| HashInsert (kind : pyseq) (r : record)
| HashRemove (key : Z)
| HashSearch (key : Z).

Definition LinearHashIndex_step (s : LinearHashIndex) (op : hash_op) : option LinearHashIndex :=
  match op with
  | HashInsert kind r => option_map fst (LinearHashIndex_insert s kind r)
  | HashRemove key => option_map fst (LinearHashIndex_remove s key)
  | HashSearch key => option_map (fun _ => s) (LinearHashIndex_search s key)
  end.

Fixpoint LinearHashIndex_run (s : LinearHashIndex) (ops : list hash_op)
  : option LinearHashIndex :=
  match ops with
  | [] => Some s
  | op :: rest =>
      match LinearHashIndex_step s op with
      | Some s' => LinearHashIndex_run s' rest
      | None => None
      end
  end.

(** Every record the engine stores, bucket after bucket. *)
Definition stored_records (s : LinearHashIndex) : list record :=
  flat_map HashPage_get_all_records (_buckets s).

(** ** Scripts of operations on the B-tree

    What [load_file] and the prompt do with an index: one operation after
    the other, an exception ending the run. *)

Inductive tree_op : Type :=
| TreeInsert (r : record)
| TreeRemove (key : Z)
| TreeSearch (key : Z).

Definition BTreeIndex_step (root : slot) (op : tree_op) : option slot :=
  match op with
  | TreeInsert r => BTreeIndex_insert root r
  | TreeRemove key => option_map fst (BTreeIndex_remove root key)
  | TreeSearch key => option_map (fun _ => root) (BTreeIndex_search root key)
  end.

Fixpoint BTreeIndex_run (root : slot) (ops : list tree_op) : option slot :=
  match ops with
  | [] => Some root
  | op :: rest =>
      match BTreeIndex_step root op with
      | Some root' => BTreeIndex_run root' rest
      | None => None
      end
  end.

(** ** Shapes of B-tree pages *)

(** A payload that starts with a page and alternates pages, which satisfy
    [P], and integer keys. *)
Inductive alternating (P : slot -> Prop) : list slot -> Prop :=
| alternating_nil : alternating P []
| alternating_last c : P c -> alternating P [c]
| alternating_cons c k rest :
    P c -> alternating P rest -> alternating P (c :: Key k :: rest).

(** The pages the operations build: every internal payload alternates, and
    none consists of a lone child. *)
Inductive page_ok : slot -> Prop :=
| page_ok_leaf data : page_ok (LeafPage data)
| page_ok_nonleaf data :
    length data <> 1%nat -> alternating page_ok data -> page_ok (NonLeafPage data).

(** The children of an internal payload: the slots at the even positions. *)
Fixpoint children_of (data : list slot) : list slot :=
  match data with
  | [] => []
  | child :: rest => child :: match rest with [] => [] | _ :: rest' => children_of rest' end
  end.

(** The pages of a tree: the page at its top and the pages of its children. *)
Inductive subpage : slot -> slot -> Prop :=
| subpage_top p : subpage p p
| subpage_below q child data :
    In child (children_of data) -> subpage q child -> subpage q (NonLeafPage data).

(** The largest of a list of heights, 0 for none; undefined when any is. *)
Fixpoint max_height (hs : list (option nat)) : option nat :=
  match hs with
  | [] => Some 0%nat
  | None :: _ => None
  | Some h :: rest => option_map (Nat.max h) (max_height rest)
  end.

(** A page without the records of its leaves: the internal payloads alone. *)
Fixpoint skeleton (p : slot) {struct p} : slot :=
  match p with
  | Key k => Key k
  | LeafPage _ => LeafPage []
  | NonLeafPage data => NonLeafPage (map skeleton data)
  end.

(** A page that [split] can be called on after an insert: it is not empty. *)
Definition splittable (p : slot) : Prop :=
  match p with
  | Key _ => False
  | LeafPage data => data <> []
  | NonLeafPage data => data <> []
  end.

(** How an insert changes the page it is called on: a leaf ends up with a
    record, an internal payload does not get shorter. *)
Definition grows (p p' : slot) : Prop :=
  match p, p' with
  | LeafPage _, LeafPage data' => data' <> []
  | NonLeafPage data, NonLeafPage data' => (length data <= length data')%nat
  | _, _ => False
  end.

(** What holds of the root all along: it is well shaped, and an internal
    root has at least two children. *)
Definition root_ok (root : slot) : Prop :=
  page_ok root /\
  match root with
  | NonLeafPage data => (3 <= length data)%nat
  | _ => True
  end.

(** ** Invariant of the hash engine *)

Set Implicit Arguments.

(** The composite addressing rule at level [d] with split pointer [sp]. *)
Definition bucket_of (d : nat) (sp key : Z) : Z :=
  let i := key mod (2 ^ Z.of_nat d * initial_buckets) in
  if i <? sp then key mod (2 ^ Z.of_nat (d + 1) * initial_buckets) else i.

(** The pointer after a split: the next bucket, or the start of the next
    level. *)
Definition next_pointer (d : nat) (sp : Z) : nat * Z :=
  if sp + 1 >=? 2 ^ Z.of_nat d * initial_buckets then ((d + 1)%nat, 0) else (d, sp + 1).

(** What every state of the engine satisfies: the split pointer is inside
    the round, there are [2^d * N0 + sp] buckets, every record sits in the
    bucket its key is addressed to, and no chain holds a key twice. *)
Record hash_inv (d : nat) (sp : Z) (buckets : list HashPage) : Prop := {
  inv_pointer : 0 <= sp < 2 ^ Z.of_nat d * initial_buckets;
  inv_length : Z.of_nat (length buckets) = 2 ^ Z.of_nat d * initial_buckets + sp;
  inv_address : forall pos bucket r,
      nth_error buckets pos = Some bucket ->
      In r (HashPage_get_all_records bucket) ->
      bucket_of d sp (rkey r) = Z.of_nat pos;
  inv_distinct : forall bucket,
      In bucket buckets -> NoDup (map rkey (HashPage_get_all_records bucket))
}.

(** ** What the operations do to a B-tree *)

(** The payloads of the leaves below a page, left to right. *)
Fixpoint leaves_of (p : slot) {struct p} : list (list record) :=
  match p with
  | Key _ => []
  | LeafPage data => [data]
  | NonLeafPage data => flat_map leaves_of data
  end.

(** The number of internal pages of a tree. *)
Fixpoint internal_pages (p : slot) {struct p} : nat :=
  match p with
  | Key _ => 0
  | LeafPage _ => 0
  | NonLeafPage data => S (list_sum (map internal_pages data))
  end.

(** The sum of a list of counts; undefined when any is. *)
Fixpoint sum_counts (cs : list (option nat)) : option nat :=
  match cs with
  | [] => Some 0%nat
  | None :: _ => None
  | Some c :: rest => option_map (Nat.add c) (sum_counts rest)
  end.

(** The steps of [insert] on a well-shaped page: the record goes into a
    leaf; or the position of the child is past the payload and nothing
    happens; or the insert goes on in a child, which is split when it ends
    up larger than a page. *)
Inductive inserted (r : record) : slot -> slot -> Prop :=
| inserted_leaf data data' :
    LeafPage_insert data r = Some data' ->
    inserted r (LeafPage data) (LeafPage data')
| inserted_nowhere data :
    NonLeafPage_binary_search data (rkey r) = Some (length data) ->
    inserted r (NonLeafPage data) (NonLeafPage data)
| inserted_child pre c c' post :
    Nat.even (length pre) = true ->
    NonLeafPage_binary_search (pre ++ c :: post) (rkey r) = Some (length pre) ->
    inserted r c c' ->
    used_space c' <= size ->
    inserted r (NonLeafPage (pre ++ c :: post)) (NonLeafPage (pre ++ c' :: post))
| inserted_split pre c c' a b k post :
    Nat.even (length pre) = true ->
    NonLeafPage_binary_search (pre ++ c :: post) (rkey r) = Some (length pre) ->
    inserted r c c' ->
    used_space c' > size ->
    TreePage_split c' = Some (a, b) ->
    separator_key b = Some (Key k) ->
    inserted r (NonLeafPage (pre ++ c :: post))
               (NonLeafPage (pre ++ a :: Key k :: b :: post)).

(** The steps of [remove] on a well-shaped page. *)
Inductive removed (key : Z) : slot -> slot -> bool -> Prop :=
| removed_leaf data data' b :
    LeafPage_remove data key = (data', b) ->
    removed key (LeafPage data) (LeafPage data') b
| removed_nowhere data :
    NonLeafPage_binary_search data key = Some (length data) ->
    removed key (NonLeafPage data) (NonLeafPage data) false
| removed_child pre c c' post b :
    Nat.even (length pre) = true ->
    NonLeafPage_binary_search (pre ++ c :: post) key = Some (length pre) ->
    removed key c c' b ->
    removed key (NonLeafPage (pre ++ c :: post)) (NonLeafPage (pre ++ c' :: post)) b.

(** Every leaf below a page has non-decreasing keys. *)
Definition sorted_leaves (p : slot) : Prop :=
  Forall (fun data => Sorted Z.le (LeafPage_get_key_list data)) (leaves_of p).


(** The counters of the engine agree with what it stores. *)
Definition counters_ok (s : LinearHashIndex) : Prop :=
  _num_records s = Z.of_nat (length (stored_records s)) /\
  _num_buckets s = Z.of_nat (length (_buckets s)) /\
  _num_buckets s = initial_buckets + _num_splits s /\
  0 <= _num_splits s.

(** ** Ordered trees

    The order a B-tree is meant to keep: the keys of a leaf are
    non-decreasing, an internal payload is
    [child0, key0, child1, ..., childN] with [N >= 1], and the keys below
    [child i] are at least [key (i-1)] and less than [key i].  The bounds
    [lo] and [hi] are those a page inherits from its ancestors; [None] is no
    bound. *)

Definition above (lo : option Z) (k : Z) : Prop :=
  match lo with None => True | Some l => l <= k end.

Definition below (hi : option Z) (k : Z) : Prop :=
  match hi with None => True | Some h => k < h end.

Inductive ordered : option Z -> option Z -> slot -> Prop :=
| ordered_leaf lo hi data :
    Sorted Z.le (LeafPage_get_key_list data) ->
    (forall r, In r data -> above lo (rkey r) /\ below hi (rkey r)) ->
    ordered lo hi (LeafPage data)
| ordered_nonleaf lo hi data :
    length data <> 1%nat ->
    ordered_payload lo hi data ->
    ordered lo hi (NonLeafPage data)
with ordered_payload : option Z -> option Z -> list slot -> Prop :=
| ordered_last lo hi c :
    ordered lo hi c -> ordered_payload lo hi [c]
| ordered_cons lo hi c k rest :
    above lo k -> below hi k ->
    ordered lo (Some k) c ->
    ordered_payload (Some k) hi rest ->
    ordered_payload lo hi (c :: Key k :: rest).

(** A tree of height 1 or 2: a leaf, or an internal page over leaves. *)
Definition is_leaf (p : slot) : Prop :=
  match p with LeafPage _ => True | _ => False end.

Definition small_tree (p : slot) : Prop :=
  match p with
  | Key _ => False
  | LeafPage _ => True
  | NonLeafPage data => Forall is_leaf (children_of data)
  end.

(** What a dictionary holds after a script of operations, started with the
    records [acc]: an insert adds the record, a remove drops the records
    with the key. *)
Fixpoint model_run (acc : list record) (ops : list tree_op) : list record :=
  match ops with
  | [] => acc
  | TreeInsert r :: rest => model_run (r :: acc) rest
  | TreeRemove key :: rest => model_run (filter (fun x => negb (rkey x =? key)) acc) rest
  | TreeSearch _ :: rest => model_run acc rest
  end.

(** The script never inserts a key that the dictionary holds at that
    moment. *)
Fixpoint distinct_keys (acc : list record) (ops : list tree_op) : bool :=
  match ops with
  | [] => true
  | TreeInsert r :: rest =>
      negb (existsb (fun x => rkey x =? rkey r) acc) && distinct_keys (r :: acc) rest
  | TreeRemove key :: rest => distinct_keys (filter (fun x => negb (rkey x =? key)) acc) rest
  | TreeSearch _ :: rest => distinct_keys acc rest
  end.

(** What a dictionary with unique keys holds after a script of operations on
    the hash engine, started with the records [acc]: an insert of a key that
    is present is ignored, a remove drops the records with the key. *)
Fixpoint hash_model_run (acc : list record) (ops : list hash_op) : list record :=
  match ops with
  | [] => acc
  | HashInsert _ r :: rest =>
      hash_model_run (if existsb (fun x => rkey x =? rkey r) acc then acc else r :: acc) rest
  | HashRemove key :: rest =>
      hash_model_run (filter (fun x => negb (rkey x =? key)) acc) rest
  | HashSearch _ :: rest => hash_model_run acc rest
  end.

(** * Properties *)

(** ** Binary search *)

Lemma nth_map_Some (ks : list Z) (i : nat) :
  (i < length ks)%nat -> nth i (map Some ks) None = Some (nth i ks 0).
Proof.
  intros H. rewrite (nth_indep _ None (Some 0)) by (rewrite length_map; exact H).
  apply (map_nth Some).
Qed.

(** On a list of integers the loop ends, between its bounds. *)
Lemma bsearch_loop_total (L : list (option Z)) (key : Z) (lo hi : nat) :
  forall ks, L = map Some ks -> (lo <= hi <= length ks)%nat ->
  exists p, bsearch_loop L key lo hi = Some p /\ (lo <= p <= hi)%nat.
Proof.
  funelim (bsearch_loop L key lo hi); intros ks HL Hb;
    try (pose proof (mid_bounds lo hi l) as Hm; set (h := ((lo + hi) / 2)%nat) in * );
    try subst L.
  - exists lo. split; [reflexivity | lia].
  - rewrite nth_map_Some in Heq by lia. discriminate.
  - destruct (H ks eq_refl) as (p & Hp & Hr); [lia|].
    exists p. split; [assumption | lia].
  - destruct (H ks eq_refl) as (p & Hp & Hr); [lia|].
    exists p. split; [assumption | lia].
Qed.

(** On a non-decreasing list the loop keeps: everything left of [lo] is at
    most [key], everything from [hi] on is greater. *)
Lemma bsearch_loop_spec (L : list (option Z)) (key : Z) (lo hi : nat) :
  forall ks, L = map Some ks ->
  (forall i j, (i <= j < length ks)%nat -> nth i ks 0 <= nth j ks 0) ->
  (lo <= hi <= length ks)%nat ->
  (forall i, (i < lo)%nat -> nth i ks 0 <= key) ->
  (forall i, (hi <= i < length ks)%nat -> key < nth i ks 0) ->
  exists p, bsearch_loop L key lo hi = Some p /\ (lo <= p <= hi)%nat /\
    (forall i, (i < p)%nat -> nth i ks 0 <= key) /\
    (forall i, (p <= i < length ks)%nat -> key < nth i ks 0).
Proof.
  funelim (bsearch_loop L key lo hi); intros ks HL Hs Hb Hlo Hhi;
    try (pose proof (mid_bounds lo hi l) as Hm; set (h := ((lo + hi) / 2)%nat) in * );
    try subst L.
  - exists lo. repeat split; try lia; auto. intros i Hi. apply Hhi. lia.
  - rewrite nth_map_Some in Heq by lia. discriminate.
  - rewrite nth_map_Some in Heq0 by lia. injection Heq0 as Hk.
    destruct (H ks eq_refl Hs) as (p & Hp & Hr & Ha & Hbb); try lia; auto.
    + intros i Hi. destruct (Nat.eq_dec i h) as [->|Hne]; [lia|].
      assert (nth h ks 0 <= nth i ks 0) by (apply Hs; lia). lia.
    + exists p. repeat split; auto; lia.
  - rewrite nth_map_Some in Heq0 by lia. injection Heq0 as Hk.
    destruct (H ks eq_refl Hs) as (p & Hp & Hr & Ha & Hbb); try lia; auto.
    + intros i Hi. assert (nth i ks 0 <= nth h ks 0) by (apply Hs; lia). lia.
    + exists p. repeat split; auto; lia.
Qed.

Lemma StronglySorted_nth (ks : list Z) :
  StronglySorted Z.le ks ->
  forall i j, (i <= j < length ks)%nat -> nth i ks 0 <= nth j ks 0.
Proof.
  induction 1 as [|a l Hl IH Ha]; intros i j Hij; simpl in *; [lia|].
  destruct i as [|i], j as [|j]; try lia.
  - rewrite Forall_forall in Ha. apply Ha, nth_In. lia.
  - apply IH. lia.
Qed.

Lemma In_firstn {A : Type} (n : nat) (l : list A) (x : A) : In x (firstn n l) -> In x l.
Proof. intros H. rewrite <- (firstn_skipn n l). apply in_or_app. left. exact H. Qed.

Lemma In_skipn {A : Type} (n : nat) (l : list A) (x : A) : In x (skipn n l) -> In x l.
Proof. intros H. rewrite <- (firstn_skipn n l). apply in_or_app. right. exact H. Qed.

(** A key put where everything before is at most it and everything after is
    greater keeps the list non-decreasing. *)
Lemma StronglySorted_py_insert (key : Z) (ks : list Z) :
  StronglySorted Z.le ks ->
  forall p,
    (forall i, (i < p)%nat -> (i < length ks)%nat -> nth i ks 0 <= key) ->
    (forall i, (p <= i < length ks)%nat -> key < nth i ks 0) ->
    StronglySorted Z.le (py_insert p key ks).
Proof.
  unfold py_insert.
  induction 1 as [|a l Hl IH Ha]; intros p Hlo Hhi.
  - destruct p; simpl; repeat constructor.
  - destruct p as [|p]; simpl.
    + constructor; [constructor; assumption|].
      constructor.
      * specialize (Hhi 0%nat). simpl in Hhi. lia.
      * rewrite Forall_forall in *. intros x Hx.
        destruct (In_nth _ _ 0 Hx) as (n & Hn & <-).
        specialize (Hhi (S n)). simpl in Hhi. lia.
    + constructor.
      * apply IH.
        -- intros i Hi Hl'. apply (Hlo (S i)); simpl; lia.
        -- intros i Hi. apply (Hhi (S i)). simpl. lia.
      * rewrite Forall_forall in *. intros x Hx.
        apply in_app_or in Hx. destruct Hx as [Hx | [<- | Hx]].
        -- apply Ha. eapply In_firstn. eassumption.
        -- specialize (Hlo 0%nat). simpl in Hlo. lia.
        -- apply Ha. eapply In_skipn. eassumption.
Qed.

Lemma map_py_insert {A B : Type} (f : A -> B) (p : nat) (x : A) (l : list A) :
  map f (py_insert p x l) = py_insert p (f x) (map f l).
Proof.
  unfold py_insert. rewrite map_app. simpl. rewrite <- firstn_map, <- skipn_map. reflexivity.
Qed.

(** ** Leaf pages *)

(** C7. On a leaf whose keys are non-decreasing, [LeafPage.insert] puts the
    record at the first position whose key is greater than the record's
    (after every equal key, at the end when there is none), succeeds, and
    leaves the keys non-decreasing. *)
Theorem LeafPage_insert_sorted (data : list record) (r : record) :
  Sorted Z.le (LeafPage_get_key_list data) ->
  exists p,
    TreePage_binary_search data (rkey r) = Some p /\
    (p <= length data)%nat /\
    (forall i, (i < p)%nat -> nth i (LeafPage_get_key_list data) 0 <= rkey r) /\
    (forall i, (p <= i < length data)%nat -> rkey r < nth i (LeafPage_get_key_list data) 0) /\
    LeafPage_insert data r = Some (firstn p data ++ r :: skipn p data) /\
    Sorted Z.le (LeafPage_get_key_list (firstn p data ++ r :: skipn p data)).
Proof.
  intros Hsorted.
  apply Sorted_StronglySorted in Hsorted; [| intros x y z; apply Z.le_trans].
  pose proof (@StronglySorted_nth _ Hsorted) as Hmono.
  unfold LeafPage_insert, TreePage_binary_search.
  set (ks := LeafPage_get_key_list data) in *.
  assert (Hlen : length ks = length data) by apply length_map.
  destruct (@bsearch_loop_spec (map Some ks) (rkey r) 0%nat (length (map Some ks)) ks eq_refl Hmono)
    as (p & Hp & Hr & Hlo & Hhi).
  - rewrite length_map. lia.
  - intros i Hi. lia.
  - intros i Hi. rewrite length_map in Hi. lia.
  - rewrite length_map in Hr. exists p. rewrite Hp.
    repeat split.
    + lia.
    + exact Hlo.
    + intros i Hi. apply Hhi. lia.
    + change (firstn p data ++ r :: skipn p data) with (py_insert p r data).
      unfold LeafPage_get_key_list. rewrite map_py_insert.
      apply StronglySorted_Sorted, StronglySorted_py_insert; auto.
Qed.

(** ** Lists and payloads *)

(** Induction over a payload two slots at a time. *)
Lemma list_ind2 {A : Type} (P : list A -> Prop) :
  P [] -> (forall a, P [a]) -> (forall a b l, P l -> P (a :: b :: l)) ->
  forall l, P l.
Proof.
  intros H0 H1 H2.
  assert (H : forall l, P l /\ forall a, P (a :: l)).
  { induction l as [|b l [IHl IHl']]; split; auto. }
  intros l. apply H.
Qed.

(** Induction over a page and, below it, over every slot of its payload. *)
Lemma slot_ind_nested (P : slot -> Prop) :
  (forall k, P (Key k)) ->
  (forall data, P (LeafPage data)) ->
  (forall data, Forall P data -> P (NonLeafPage data)) ->
  forall s, P s.
Proof.
  intros HK HL HN.
  fix IH 1. intros [k | data | data].
  - apply HK.
  - apply HL.
  - apply HN. induction data as [|c data IHdata]; constructor; [apply IH | exact IHdata].
Qed.

Lemma alternating_app (P : slot -> Prop) (pre rest : list slot) :
  Nat.even (length pre) = true ->
  alternating P (pre ++ rest) <-> alternating P pre /\ alternating P rest.
Proof.
  induction pre as [| a | a b pre IH] using list_ind2; simpl; intros Hev.
  - split; [intros H; split; [constructor | exact H] | intros [_ H]; exact H].
  - discriminate.
  - specialize (IH Hev). split.
    + intros H. inversion H; subst. destruct (proj1 IH) as [Ha Hb]; [assumption|].
      split; [constructor; assumption | assumption].
    + intros [H1 H2]. inversion H1; subst. constructor; [assumption|].
      apply IH. split; assumption.
Qed.

Lemma alternating_impl (P Q : slot -> Prop) (data : list slot) :
  alternating P data -> (forall c, In c data -> P c -> Q c) -> alternating Q data.
Proof.
  induction 1 as [| c Hc | c k rest Hc Hrest IH]; intros HPQ.
  - constructor.
  - constructor. apply HPQ; [left; reflexivity | exact Hc].
  - constructor.
    + apply HPQ; [left; reflexivity | exact Hc].
    + apply IH. intros c' Hin. apply HPQ. right. right. exact Hin.
Qed.

Lemma even_mul2 (b : nat) : Nat.even (b * 2) = true.
Proof. rewrite Nat.mul_comm. apply Nat.even_even. Qed.

(** A payload cut at any position. *)
Lemma split_at {A : Type} (l : list A) (i : nat) :
  (i < length l)%nat ->
  exists pre c post, l = pre ++ c :: post /\ length pre = i.
Proof.
  intros Hi. destruct (nth_error l i) as [c|] eqn:Hc.
  - destruct (nth_error_split l i Hc) as (pre & post & -> & Hlen).
    exists pre, c, post. split; [reflexivity | exact Hlen].
  - apply nth_error_None in Hc. lia.
Qed.

Lemma nth_error_middle {A : Type} (pre : list A) (c : A) (post : list A) :
  nth_error (pre ++ c :: post) (length pre) = Some c.
Proof. rewrite nth_error_app2, Nat.sub_diag by lia. reflexivity. Qed.

Lemma py_setitem_middle {A : Type} (pre : list A) (c x : A) (post : list A) :
  py_setitem (pre ++ c :: post) (length pre) x = Some (pre ++ x :: post).
Proof. induction pre as [|a pre IH]; simpl; [reflexivity | rewrite IH; reflexivity]. Qed.

Lemma py_insert_middle {A : Type} (pre : list A) (x : A) (post : list A) :
  py_insert (length pre) x (pre ++ post) = pre ++ x :: post.
Proof.
  unfold py_insert. rewrite firstn_app, skipn_app, Nat.sub_diag, firstn_all, skipn_all.
  simpl. rewrite app_nil_r. reflexivity.
Qed.

Lemma on_child_middle (f : slot -> option slot) (pre : list slot) (c : slot) (post : list slot) :
  on_child f (pre ++ c :: post) (length pre) = option_map (fun c' => pre ++ c' :: post) (f c).
Proof.
  induction pre as [|a pre IH]; simpl.
  - reflexivity.
  - rewrite IH. destruct (f c); reflexivity.
Qed.

Lemma on_child_with_middle {R : Type} (f : slot -> option (slot * R))
  (pre : list slot) (c : slot) (post : list slot) :
  on_child_with f (pre ++ c :: post) (length pre)
  = option_map (fun cr => (pre ++ fst cr :: post, snd cr)) (f c).
Proof.
  induction pre as [|a pre IH]; simpl.
  - reflexivity.
  - rewrite IH. destruct (f c); reflexivity.
Qed.

Lemma at_child_middle {R : Type} (f : slot -> option R)
  (pre : list slot) (c : slot) (post : list slot) :
  at_child f (pre ++ c :: post) (length pre) = f c.
Proof. induction pre as [|a pre IH]; simpl; [reflexivity | exact IH]. Qed.

(** ** Heights *)

Lemma BTreeIndex_get_height_NonLeafPage (data : list slot) :
  BTreeIndex_get_height (NonLeafPage data)
  = option_map S (max_height (map BTreeIndex_get_height (children_of data))).
Proof.
  simpl. f_equal.
  induction data as [| a | a b data IH] using list_ind2; simpl.
  - reflexivity.
  - destruct (BTreeIndex_get_height a); reflexivity.
  - destruct (BTreeIndex_get_height a); [|reflexivity].
    rewrite IH. destruct (max_height _); reflexivity.
Qed.

Lemma children_of_app (pre rest : list slot) :
  Nat.even (length pre) = true ->
  children_of (pre ++ rest) = children_of pre ++ children_of rest.
Proof.
  induction pre as [| a | a b pre IH] using list_ind2; simpl; intros Hev.
  - reflexivity.
  - discriminate.
  - rewrite (IH Hev). reflexivity.
Qed.

Lemma max_height_app (a b : list (option nat)) :
  max_height (a ++ b)
  = match max_height a, max_height b with
    | Some x, Some y => Some (Nat.max x y)
    | _, _ => None
    end.
Proof.
  induction a as [|[h|] a IH]; simpl.
  - destruct (max_height b); reflexivity.
  - rewrite IH. destruct (max_height a), (max_height b); simpl; try reflexivity.
    f_equal. lia.
  - reflexivity.
Qed.

Lemma children_of_In (data : list slot) (c : slot) : In c (children_of data) -> In c data.
Proof.
  induction data as [| a | a b data IH] using list_ind2; simpl; intros H.
  - exact H.
  - exact H.
  - destruct H as [H | H]; [left; exact H | right; right; apply IH; exact H].
Qed.

Lemma alternating_children (P : slot -> Prop) (data : list slot) :
  alternating P data -> Forall P (children_of data).
Proof.
  induction 1 as [| c Hc | c k rest Hc Hrest IH]; simpl; repeat constructor; assumption.
Qed.

(** The keys of an alternating payload are integers, one for every two slots. *)
Lemma alternating_keys (P : slot -> Prop) (data : list slot) :
  alternating P data ->
  exists ks, map slot_int (NonLeafPage_get_key_list data) = map Some ks /\
             length ks = (length data / 2)%nat.
Proof.
  induction 1 as [| c Hc | c k rest Hc Hrest (ks & Hks & Hlen)].
  - exists []. split; reflexivity.
  - exists []. split; reflexivity.
  - exists (k :: ks). split.
    + simpl. rewrite Hks. reflexivity.
    + cbn [length]. rewrite Hlen.
      change (S (S (length rest))) with (1 * 2 + length rest)%nat.
      rewrite Nat.div_add_l by lia. reflexivity.
Qed.

(** On an alternating payload [NonLeafPage.binary_search] returns an even
    position, at most one past the last key. *)
Lemma NonLeafPage_binary_search_ok (P : slot -> Prop) (data : list slot) (key : Z) :
  alternating P data ->
  exists b, NonLeafPage_binary_search data key = Some (b * 2)%nat /\
            (b <= length data / 2)%nat.
Proof.
  intros Halt. destruct (alternating_keys Halt) as (ks & Hks & Hlen).
  unfold NonLeafPage_binary_search. rewrite Hks.
  destruct (@bsearch_loop_total (map Some ks) key 0%nat (length (map Some ks)) ks eq_refl)
    as (b & Hb & Hr).
  - rewrite length_map. lia.
  - rewrite Hb. exists b. split; [reflexivity|]. rewrite length_map in Hr. lia.
Qed.

Lemma TreePage_binary_search_total (data : list record) (key : Z) :
  exists p, TreePage_binary_search data key = Some p /\ (p <= length data)%nat.
Proof.
  unfold TreePage_binary_search, LeafPage_get_key_list.
  destruct (@bsearch_loop_total (map Some (map rkey data)) key 0%nat
              (length (map Some (map rkey data))) (map rkey data) eq_refl)
    as (p & Hp & Hr).
  - rewrite !length_map. lia.
  - exists p. split; [exact Hp|]. rewrite !length_map in Hr. lia.
Qed.

(** ** Heights of well-shaped pages *)

Lemma page_ok_height (p : slot) :
  page_ok p -> exists h, BTreeIndex_get_height p = Some h.
Proof.
  induction p as [k | data | data IH] using slot_ind_nested; intros Hok.
  - inversion Hok.
  - exists 1%nat. reflexivity.
  - inversion Hok as [| data' Hlen Halt]; subst.
    rewrite BTreeIndex_get_height_NonLeafPage.
    assert (Hch : Forall (fun c => exists h, BTreeIndex_get_height c = Some h) (children_of data)).
    { pose proof (alternating_children Halt) as Hall.
      rewrite Forall_forall in *. intros c Hc.
      apply IH; [apply children_of_In; exact Hc | apply Hall; exact Hc]. }
    induction Hch as [| c cs (h & Hh) _ (m & Hm)]; simpl.
    + exists 1%nat. reflexivity.
    + rewrite Hh. destruct (max_height (map BTreeIndex_get_height cs)) as [m'|]; simpl in *.
      * eexists. reflexivity.
      * discriminate.
Qed.

Lemma height_replace_child (pre : list slot) (c c' : slot) (post : list slot) :
  Nat.even (length pre) = true ->
  BTreeIndex_get_height c' = BTreeIndex_get_height c ->
  BTreeIndex_get_height (NonLeafPage (pre ++ c' :: post))
  = BTreeIndex_get_height (NonLeafPage (pre ++ c :: post)).
Proof.
  intros Hev Hh. rewrite !BTreeIndex_get_height_NonLeafPage, !children_of_app by exact Hev.
  rewrite !map_app, !max_height_app. simpl. rewrite Hh. reflexivity.
Qed.

Lemma height_split_child (pre : list slot) (c a b : slot) (k : Z) (post : list slot)
  (ha hb : nat) :
  Nat.even (length pre) = true ->
  BTreeIndex_get_height a = Some ha ->
  BTreeIndex_get_height b = Some hb ->
  BTreeIndex_get_height c = Some (Nat.max ha hb) ->
  BTreeIndex_get_height (NonLeafPage (pre ++ a :: Key k :: b :: post))
  = BTreeIndex_get_height (NonLeafPage (pre ++ c :: post)).
Proof.
  intros Hev Ha Hb Hc.
  rewrite !BTreeIndex_get_height_NonLeafPage, !children_of_app by exact Hev.
  rewrite !map_app, !max_height_app. cbn [children_of map max_height].
  rewrite Ha, Hb, Hc.
  destruct (max_height (map BTreeIndex_get_height (children_of pre))); [|reflexivity].
  destruct (max_height _); simpl; [|reflexivity].
  do 2 f_equal. lia.
Qed.

(** ** Splits of well-shaped pages *)

(** The cut of [NonLeafPage.split] is at an even position of the lower half. *)
Lemma NonLeafPage_split_mid (data : list slot) :
  exists mid,
    NonLeafPage_split data = (firstn mid data, skipn mid data) /\
    Nat.even mid = true /\ (mid <= length data / 2)%nat.
Proof.
  unfold NonLeafPage_split.
  set (mid0 := (length data / 2)%nat).
  pose proof (Nat.div_mod_eq mid0 2) as Hdm.
  pose proof (Nat.mod_upper_bound mid0 2) as Hub.
  destruct (Nat.eqb_spec (mid0 mod 2) 1) as [H1 | H1].
  - exists (mid0 - 1)%nat. split; [reflexivity|]. split; [|lia].
    replace (mid0 - 1)%nat with (2 * (mid0 / 2))%nat by lia. apply Nat.even_even.
  - exists mid0. split; [reflexivity|]. split; [|lia].
    replace mid0 with (2 * (mid0 / 2))%nat at 1 by lia. apply Nat.even_even.
Qed.

Lemma even_not_1 (n : nat) : Nat.even n = true -> n <> 1%nat.
Proof. intros H ->. discriminate. Qed.

Lemma separator_key_first (new_sibling s : slot) :
  separator_key new_sibling = Some s ->
  match new_sibling with
  | Key _ => False
  | LeafPage data => exists r rest, data = r :: rest /\ s = Key (rkey r)
  | NonLeafPage data => nth_error data 1 = Some s
  end.
Proof.
  destruct new_sibling as [k | [| r rest] | [| c [| k rest]]]; simpl; intros H;
    try discriminate.
  - injection H as <-. exists r, rest. split; reflexivity.
  - exact H.
Qed.

Lemma TreePage_split_ok (p : slot) :
  page_ok p -> splittable p ->
  exists a b k ha hb,
    TreePage_split p = Some (a, b) /\ separator_key b = Some (Key k) /\
    page_ok a /\ page_ok b /\
    BTreeIndex_get_height a = Some ha /\ BTreeIndex_get_height b = Some hb /\
    BTreeIndex_get_height p = Some (Nat.max ha hb).
Proof.
  intros Hok Hsp. destruct p as [k | data | data]; simpl in Hsp; [contradiction | |].
  - (* leaf *)
    unfold TreePage_split, LeafPage_split.
    set (mid := (length data / 2)%nat).
    assert (Hmid : (mid < length data)%nat).
    { subst mid. destruct data; [contradiction|]. apply Nat.div_lt; simpl; lia. }
    destruct (skipn mid data) as [| r rest] eqn:Hskip.
    { apply (f_equal (@length record)) in Hskip. rewrite length_skipn in Hskip.
      simpl in Hskip. lia. }
    exists (LeafPage (firstn mid data)), (LeafPage (r :: rest)), (rkey r), 1%nat, 1%nat.
    repeat split; constructor.
  - (* internal page *)
    inversion Hok as [| data' Hlen Halt]; subst.
    destruct (NonLeafPage_split_mid data) as (mid & Hsplit & Hev & Hle).
    unfold TreePage_split. rewrite Hsplit.
    set (a := firstn mid data). set (b := skipn mid data).
    assert (Hlen2 : (2 <= length data)%nat).
    { destruct data as [| ? [| ? ?]]; simpl in *; try contradiction; lia. }
    pose proof (Nat.div_mod_eq (length data) 2) as Hdm.
    pose proof (Nat.mod_upper_bound (length data) 2) as Hub.
    assert (Hla : length a = mid).
    { subst a. apply firstn_length_le. generalize dependent (length data / 2)%nat. intros; lia. }
    assert (Hmid2 : exists q, mid = (2 * q)%nat).
    { apply Nat.even_spec in Hev. destruct Hev as [q Hq]. exists q. exact Hq. }
    assert (Hlb : (2 <= length b)%nat).
    { subst b. rewrite length_skipn. destruct Hmid2 as [q ->].
      generalize dependent (length data / 2)%nat. intros; lia. }
    assert (Hab : alternating page_ok a /\ alternating page_ok b).
    { apply alternating_app; [rewrite Hla; exact Hev|].
      subst a b. rewrite firstn_skipn. exact Halt. }
    destruct Hab as [Haa Hab].
    assert (Hoka : page_ok (NonLeafPage a)).
    { constructor; [rewrite Hla; apply even_not_1; exact Hev | exact Haa]. }
    assert (Hokb : page_ok (NonLeafPage b)).
    { constructor; [lia | exact Hab]. }
    destruct (page_ok_height Hoka) as [ha Hha].
    destruct (page_ok_height Hokb) as [hb Hhb].
    assert (Hsep : exists k, separator_key (NonLeafPage b) = Some (Key k)).
    { inversion Hab as [Hnil | c Hc Hone | c k rest Hc Hrest Hcons].
      - rewrite <- Hnil in Hlb. simpl in Hlb. lia.
      - rewrite <- Hone in Hlb. simpl in Hlb. lia.
      - exists k. reflexivity. }
    destruct Hsep as [k Hk].
    exists (NonLeafPage a), (NonLeafPage b), k, ha, hb.
    repeat split; try assumption.
    rewrite BTreeIndex_get_height_NonLeafPage in *.
    rewrite <- (firstn_skipn mid data). fold a b.
    rewrite children_of_app, map_app, max_height_app by (rewrite Hla; exact Hev).
    destruct (max_height (map BTreeIndex_get_height (children_of a))); [|discriminate].
    destruct (max_height (map BTreeIndex_get_height (children_of b))); [|discriminate].
    simpl in *. injection Hha as <-. injection Hhb as <-. reflexivity.
Qed.

(** ** Insertion below a well-shaped page *)

Lemma TreePage_insert_NonLeafPage (data : list slot) (r : record) :
  TreePage_insert (NonLeafPage data) r
  = match NonLeafPage_binary_search data (rkey r) with
    | None => None
    | Some child_pos =>
        if (child_pos <? length data)%nat then
          match on_child (fun child => TreePage_insert child r) data child_pos with
          | None => None
          | Some data1 =>
              match nth_error data1 child_pos with
              | None => None
              | Some child =>
                  if used_space child >? size
                  then option_map NonLeafPage (NonLeafPage_split_child data1 child_pos)
                  else Some (NonLeafPage data1)
              end
          end
        else Some (NonLeafPage data)
    end.
Proof. reflexivity. Qed.

Lemma py_insert_after {A : Type} (pre : list A) (c x : A) (post : list A) :
  py_insert (length pre + 1) x (pre ++ c :: post) = pre ++ c :: x :: post.
Proof.
  replace (pre ++ c :: post) with ((pre ++ [c]) ++ post) by (rewrite <- app_assoc; reflexivity).
  replace (length pre + 1)%nat with (length (pre ++ [c])) by (rewrite length_app; reflexivity).
  rewrite py_insert_middle, <- app_assoc. reflexivity.
Qed.

Lemma NonLeafPage_split_child_middle (pre : list slot) (c a b s : slot) (post : list slot) :
  TreePage_split c = Some (a, b) -> separator_key b = Some s ->
  NonLeafPage_split_child (pre ++ c :: post) (length pre)
  = Some (pre ++ a :: s :: b :: post).
Proof.
  intros Hsplit Hsep. unfold NonLeafPage_split_child.
  rewrite nth_error_middle, Hsplit, Hsep, py_setitem_middle, py_insert_after.
  replace (pre ++ a :: s :: post) with ((pre ++ [a]) ++ s :: post)
    by (rewrite <- app_assoc; reflexivity).
  replace (length pre + 2)%nat with (length (pre ++ [a]) + 1)%nat
    by (rewrite length_app; simpl; lia).
  rewrite py_insert_after, <- app_assoc. reflexivity.
Qed.

Lemma used_space_splittable (p p0 : slot) :
  0 <= size -> grows p0 p -> used_space p > size -> splittable p.
Proof.
  intros Hsize Hg Hused. destruct p0, p; simpl in *; try contradiction.
  - exact Hg.
  - intros ->. simpl in Hused. lia.
Qed.

Lemma TreePage_insert_ok (r : record) (p : slot) :
  0 <= size -> page_ok p ->
  exists p', TreePage_insert p r = Some p' /\ page_ok p' /\ grows p p' /\
             BTreeIndex_get_height p' = BTreeIndex_get_height p.
Proof.
  intros Hsize.
  induction p as [k | data | data IH] using slot_ind_nested; intros Hok.
  - inversion Hok.
  - destruct (TreePage_binary_search_total data (rkey r)) as (pos & Hpos & Hle).
    exists (LeafPage (py_insert pos r data)). simpl. unfold LeafPage_insert. rewrite Hpos.
    repeat split; try constructor.
    unfold py_insert. intros H. apply (f_equal (@length record)) in H.
    rewrite length_app in H. simpl in H. lia.
  - inversion Hok as [| data' Hlen Halt]; subst.
    rewrite TreePage_insert_NonLeafPage.
    destruct (NonLeafPage_binary_search_ok (rkey r) Halt) as (b & Hb & Hble). rewrite Hb.
    destruct (Nat.ltb_spec (b * 2) (length data)) as [Hlt | Hge].
    2:{ exists (NonLeafPage data). repeat split; [exact Hok | simpl; lia]. }
    destruct (split_at data Hlt) as (pre & c & post & -> & Hpre).
    assert (Hev : Nat.even (length pre) = true) by (rewrite Hpre; apply even_mul2).
    destruct (proj1 (alternating_app page_ok pre (c :: post) Hev) Halt) as [Hapre Hapost].
    assert (Hokc : page_ok c) by (inversion Hapost; assumption).
    rewrite Forall_forall in IH.
    destruct (IH c (in_elt c pre post) Hokc) as (c' & Hc' & Hokc' & Hgrow & Hh).
    rewrite <- Hpre, on_child_middle, Hc'. simpl. rewrite nth_error_middle.
    destruct (Z.gtb_spec (used_space c') size) as [Hover | Hfits].
    + (* the child overflows: it is split *)
      assert (Hsp : splittable c')
        by (eapply used_space_splittable; [exact Hsize | exact Hgrow | lia]).
      destruct (TreePage_split_ok Hokc' Hsp)
        as (a & b0 & k & ha & hb & Hsplit & Hsep & Hoka & Hokb & Hha & Hhb & Hhc).
      rewrite (@NonLeafPage_split_child_middle pre c' a b0 (Key k) post Hsplit Hsep). simpl.
      exists (NonLeafPage (pre ++ a :: Key k :: b0 :: post)).
      split; [reflexivity|]. split; [|split].
      * constructor.
        -- rewrite length_app. simpl. lia.
        -- apply alternating_app; [exact Hev|]. split; [exact Hapre|].
           constructor; [exact Hoka|].
           inversion Hapost; subst; constructor; assumption.
      * simpl. rewrite !length_app. simpl. lia.
      * rewrite (@height_split_child pre c' a b0 k post ha hb Hev Hha Hhb Hhc).
        apply height_replace_child; assumption.
    + exists (NonLeafPage (pre ++ c' :: post)).
      split; [reflexivity|]. split; [|split].
      * constructor.
        -- rewrite length_app in *. simpl in *. exact Hlen.
        -- apply alternating_app; [exact Hev|]. split; [exact Hapre|].
           inversion Hapost; subst; constructor; assumption.
      * simpl. rewrite !length_app. simpl. lia.
      * apply height_replace_child; assumption.
Qed.

(** ** Removal and search below a well-shaped page *)

Lemma TreePage_remove_NonLeafPage (data : list slot) (key : Z) :
  TreePage_remove (NonLeafPage data) key
  = match NonLeafPage_binary_search data key with
    | None => None
    | Some child_pos =>
        if (child_pos <? length data)%nat then
          option_map (fun dr => (NonLeafPage (fst dr), snd dr))
            (on_child_with (fun child => TreePage_remove child key) data child_pos)
        else Some (NonLeafPage data, false)
    end.
Proof. reflexivity. Qed.

Lemma TreePage_search_NonLeafPage (data : list slot) (key : Z) :
  TreePage_search (NonLeafPage data) key
  = match NonLeafPage_binary_search data key with
    | None => None
    | Some child_pos =>
        if (child_pos <? length data)%nat then
          at_child (fun child => TreePage_search child key) data child_pos
        else Some []
    end.
Proof. reflexivity. Qed.

Lemma skeleton_NonLeafPage (data : list slot) :
  skeleton (NonLeafPage data) = NonLeafPage (map skeleton data).
Proof. reflexivity. Qed.

(** [remove] touches the records of one leaf and nothing else: every
    internal payload keeps its children and its separator keys. *)
Lemma TreePage_remove_ok (key : Z) (p : slot) :
  page_ok p ->
  exists p' b, TreePage_remove p key = Some (p', b) /\ page_ok p' /\
               skeleton p' = skeleton p /\
               BTreeIndex_get_height p' = BTreeIndex_get_height p.
Proof.
  induction p as [k | data | data IH] using slot_ind_nested; intros Hok.
  - inversion Hok.
  - simpl. destruct (LeafPage_remove data key) as [data' b].
    exists (LeafPage data'), b. repeat split; constructor.
  - inversion Hok as [| data' Hlen Halt]; subst.
    rewrite TreePage_remove_NonLeafPage.
    destruct (NonLeafPage_binary_search_ok key Halt) as (b & Hb & Hble). rewrite Hb.
    destruct (Nat.ltb_spec (b * 2) (length data)) as [Hlt | Hge].
    2:{ exists (NonLeafPage data), false. repeat split. exact Hok. }
    destruct (split_at data Hlt) as (pre & c & post & -> & Hpre).
    assert (Hev : Nat.even (length pre) = true) by (rewrite Hpre; apply even_mul2).
    destruct (proj1 (alternating_app page_ok pre (c :: post) Hev) Halt) as [Hapre Hapost].
    assert (Hokc : page_ok c) by (inversion Hapost; assumption).
    rewrite Forall_forall in IH.
    destruct (IH c (in_elt c pre post) Hokc) as (c' & res & Hc' & Hokc' & Hsk & Hh).
    rewrite <- Hpre, on_child_with_middle, Hc'. simpl.
    exists (NonLeafPage (pre ++ c' :: post)), res.
    split; [reflexivity|]. split; [|split].
    + constructor.
      * rewrite length_app in *. simpl in *. exact Hlen.
      * apply alternating_app; [exact Hev|]. split; [exact Hapre|].
        inversion Hapost; subst; constructor; assumption.
    + rewrite !skeleton_NonLeafPage, !map_app. simpl. rewrite Hsk. reflexivity.
    + apply height_replace_child; assumption.
Qed.

Lemma TreePage_search_ok (key : Z) (p : slot) :
  page_ok p -> exists found, TreePage_search p key = Some found.
Proof.
  induction p as [k | data | data IH] using slot_ind_nested; intros Hok.
  - inversion Hok.
  - eexists. reflexivity.
  - inversion Hok as [| data' Hlen Halt]; subst.
    rewrite TreePage_search_NonLeafPage.
    destruct (NonLeafPage_binary_search_ok key Halt) as (b & Hb & Hble). rewrite Hb.
    destruct (Nat.ltb_spec (b * 2) (length data)) as [Hlt | Hge].
    2:{ eexists. reflexivity. }
    destruct (split_at data Hlt) as (pre & c & post & -> & Hpre).
    assert (Hev : Nat.even (length pre) = true) by (rewrite Hpre; apply even_mul2).
    destruct (proj1 (alternating_app page_ok pre (c :: post) Hev) Halt) as [Hapre Hapost].
    assert (Hokc : page_ok c) by (inversion Hapost; assumption).
    rewrite Forall_forall in IH.
    rewrite <- Hpre, at_child_middle. apply IH; [apply in_elt | exact Hokc].
Qed.

(** ** The root of a B-tree *)

Lemma root_ok_init : root_ok BTreeIndex_init.
Proof. split; [constructor | exact I]. Qed.

Lemma BTreeIndex_insert_ok (r : record) (root : slot) :
  0 <= size -> root_ok root ->
  exists root1 root' h,
    TreePage_insert root r = Some root1 /\
    BTreeIndex_insert root r = Some root' /\
    BTreeIndex_get_height root = Some h /\
    root_ok root' /\
    (used_space root1 > size ->
       exists old new sep,
         TreePage_split root1 = Some (old, new) /\
         separator_key new = Some (Key sep) /\
         root' = NonLeafPage [old; Key sep; new] /\
         BTreeIndex_get_height root' = Some (S h)) /\
    (used_space root1 <= size ->
       root' = root1 /\ BTreeIndex_get_height root' = Some h).
Proof.
  intros Hsize [Hok Hroot].
  destruct (TreePage_insert_ok r Hsize Hok) as (root1 & Hins & Hok1 & Hgrow & Hh).
  destruct (page_ok_height Hok) as [h Hheight].
  unfold BTreeIndex_insert. rewrite Hins.
  destruct (Z.gtb_spec (used_space root1) size) as [Hover | Hfits].
  - assert (Hsp : splittable root1)
      by (eapply used_space_splittable; [exact Hsize | exact Hgrow | lia]).
    destruct (TreePage_split_ok Hok1 Hsp)
      as (a & b & k & ha & hb & Hsplit & Hsep & Hoka & Hokb & Hha & Hhb & Hh1).
    rewrite Hsplit, Hsep.
    assert (Hnew : BTreeIndex_get_height (NonLeafPage [a; Key k; b]) = Some (S h)).
    { rewrite BTreeIndex_get_height_NonLeafPage. simpl. rewrite Hha, Hhb. simpl.
      rewrite Hh, Hheight in Hh1. injection Hh1 as ->. do 2 f_equal. lia. }
    exists root1, (NonLeafPage [a; Key k; b]), h.
    split; [reflexivity|]. split; [reflexivity|]. split; [exact Hheight|].
    split; [|split].
    + split; [|simpl; lia].
      constructor; [simpl; lia | repeat constructor; assumption].
    + intros _. exists a, b, k. repeat split; assumption.
    + intros Hle. lia.
  - exists root1, root1, h. rewrite <- Hh in Hheight.
    split; [reflexivity|]. split; [reflexivity|].
    split; [rewrite <- Hheight; symmetry; exact Hh|].
    split; [|split].
    + split; [exact Hok1|].
      destruct root as [| |data], root1 as [| |data1]; simpl in *; try contradiction; try exact I.
      lia.
    + intros Hgt. lia.
    + intros _. split; [reflexivity | exact Hheight].
Qed.

Lemma skeleton_length (data data' : list slot) :
  skeleton (NonLeafPage data') = skeleton (NonLeafPage data) -> length data' = length data.
Proof.
  rewrite !skeleton_NonLeafPage. intros H. injection H as H.
  apply (f_equal (@length slot)) in H. rewrite !length_map in H. exact H.
Qed.

Lemma BTreeIndex_remove_ok (key : Z) (root : slot) :
  root_ok root ->
  exists root1 b,
    TreePage_remove root key = Some (root1, b) /\
    root_collapses root1 = false /\
    BTreeIndex_remove root key = Some (root1, b) /\
    skeleton root1 = skeleton root /\
    root_ok root1 /\
    BTreeIndex_get_height root1 = BTreeIndex_get_height root.
Proof.
  intros [Hok Hroot].
  destruct (TreePage_remove_ok key Hok) as (root1 & b & Hrem & Hok1 & Hsk & Hh).
  assert (Hroot1 : match root1 with
                   | NonLeafPage data => (3 <= length data)%nat
                   | _ => True
                   end).
  { destruct root1 as [| | data1]; try exact I.
    destruct root as [| | data]; try discriminate.
    rewrite (skeleton_length Hsk). exact Hroot. }
  assert (Hcol : root_collapses root1 = false).
  { destruct root1 as [| | data1]; try reflexivity. simpl.
    apply Nat.eqb_neq. lia. }
  exists root1, b. unfold BTreeIndex_remove. rewrite Hrem, Hcol.
  repeat split; assumption.
Qed.

Lemma BTreeIndex_step_ok (op : tree_op) (root : slot) :
  0 <= size -> root_ok root ->
  exists root' h h',
    BTreeIndex_step root op = Some root' /\ root_ok root' /\
    BTreeIndex_get_height root = Some h /\ BTreeIndex_get_height root' = Some h' /\
    (h <= h')%nat.
Proof.
  intros Hsize Hroot. destruct op as [r | key | key]; simpl.
  - destruct (BTreeIndex_insert_ok r Hsize Hroot)
      as (root1 & root' & h & Hins & Hdrv & Hh & Hok' & Hsplit & Hkeep).
    destruct (Z_gt_le_dec (used_space root1) size) as [Hgt | Hle].
    + destruct (Hsplit Hgt) as (old & new & sep & _ & _ & _ & Hh').
      exists root', h, (S h).
      split; [exact Hdrv|]. split; [exact Hok'|]. split; [exact Hh|]. split; [exact Hh'|]. lia.
    + destruct (Hkeep Hle) as [_ Hh'].
      exists root', h, h.
      split; [exact Hdrv|]. split; [exact Hok'|]. split; [exact Hh|]. split; [exact Hh'|]. lia.
  - destruct (BTreeIndex_remove_ok key Hroot) as (root1 & b & _ & _ & Hrem & _ & Hok1 & Hh).
    destruct (page_ok_height (proj1 Hroot)) as [h Hheight].
    exists root1, h, h. rewrite Hrem. simpl. rewrite Hh.
    split; [reflexivity|]. split; [exact Hok1|]. split; [exact Hheight|]. split; [exact Hheight|]. lia.
  - destruct (TreePage_search_ok key (proj1 Hroot)) as [found Hfound].
    destruct (page_ok_height (proj1 Hroot)) as [h Hheight].
    exists root, h, h. unfold BTreeIndex_search. rewrite Hfound. simpl.
    split; [reflexivity|]. split; [exact Hroot|]. split; [exact Hheight|]. split; [exact Hheight|]. lia.
Qed.

(** From a well-shaped root every script runs to its end, and the height
    never goes down on the way. *)
Lemma BTreeIndex_run_ok (ops : list tree_op) :
  0 <= size -> forall root, root_ok root ->
  exists root' h h',
    BTreeIndex_run root ops = Some root' /\ root_ok root' /\
    BTreeIndex_get_height root = Some h /\ BTreeIndex_get_height root' = Some h' /\
    (h <= h')%nat.
Proof.
  intros Hsize. induction ops as [| op ops IH]; intros root Hroot.
  - destruct (page_ok_height (proj1 Hroot)) as [h Hheight].
    exists root, h, h.
    split; [reflexivity|]. split; [exact Hroot|]. split; [exact Hheight|]. split; [exact Hheight|]. lia.
  - destruct (BTreeIndex_step_ok op Hsize Hroot) as (root1 & h & h1 & Hstep & Hok1 & Hh & Hh1 & Hle).
    destruct (IH root1 Hok1) as (root' & h1' & h' & Hrun & Hok' & Hh1' & Hh' & Hle').
    rewrite Hh1 in Hh1'. injection Hh1' as <-.
    exists root', h, h'. simpl. rewrite Hstep.
    split; [exact Hrun|]. split; [exact Hok'|]. split; [exact Hh|]. split; [exact Hh'|]. lia.
Qed.

Lemma BTreeIndex_run_root_ok (ops : list tree_op) (root : slot) :
  0 <= size -> BTreeIndex_run BTreeIndex_init ops = Some root -> root_ok root.
Proof.
  intros Hsize Hrun.
  destruct (BTreeIndex_run_ok ops Hsize root_ok_init) as (root' & h & h' & Hrun' & Hok & _).
  rewrite Hrun in Hrun'. injection Hrun' as <-. exact Hok.
Qed.

(** ** The B-tree driver *)

(** C8. When the root is overfull after an insert, the driver installs a
    new internal root [[old_root, separator, new_sibling]] whose separator
    is the first key of the new sibling, and the height grows by exactly
    one; an insert without a root split, a remove and a search leave the
    height as it was. *)
Theorem BTreeIndex_root_split_height (ops : list tree_op) (root : slot) (r : record) :
  0 <= size ->
  BTreeIndex_run BTreeIndex_init ops = Some root ->
  exists root1 root' h,
    TreePage_insert root r = Some root1 /\
    BTreeIndex_insert root r = Some root' /\
    BTreeIndex_get_height root = Some h /\
    (used_space root1 > size ->
       exists old new sep,
         TreePage_split root1 = Some (old, new) /\
         root' = NonLeafPage [old; Key sep; new] /\
         match new with
         | Key _ => False
         | LeafPage data => exists r0 rest, data = r0 :: rest /\ sep = rkey r0
         | NonLeafPage data => nth_error data 1 = Some (Key sep)
         end /\
         BTreeIndex_get_height root' = Some (S h)) /\
    (used_space root1 <= size ->
       root' = root1 /\ BTreeIndex_get_height root' = Some h) /\
    (forall key, exists root2 b,
       BTreeIndex_remove root key = Some (root2, b) /\
       BTreeIndex_get_height root2 = Some h) /\
    (forall key, exists found, BTreeIndex_search root key = Some found).
Proof.
  intros Hsize Hrun. pose proof (BTreeIndex_run_root_ok ops Hsize Hrun) as Hroot.
  destruct (BTreeIndex_insert_ok r Hsize Hroot)
    as (root1 & root' & h & Hins & Hdrv & Hh & Hok' & Hsplit & Hkeep).
  exists root1, root', h.
  split; [exact Hins|]. split; [exact Hdrv|]. split; [exact Hh|].
  split; [|split; [exact Hkeep|split]].
  - intros Hgt. destruct (Hsplit Hgt) as (old & new & sep & Hsp & Hsep & Hroot' & Hh').
    exists old, new, sep. repeat split; try assumption.
    pose proof (separator_key_first _ Hsep) as Hfirst.
    destruct new as [k | data | data]; [contradiction | | exact Hfirst].
    destruct Hfirst as (r0 & rest & -> & Heq). injection Heq as ->.
    exists r0, rest. split; reflexivity.
  - intros key.
    destruct (BTreeIndex_remove_ok key Hroot) as (root2 & b & _ & _ & Hrem & _ & _ & Hh2).
    exists root2, b. split; [exact Hrem|]. rewrite Hh2. exact Hh.
  - intros key. apply TreePage_search_ok, Hroot.
Qed.

Lemma page_ok_subpage (q p : slot) : subpage q p -> page_ok p -> page_ok q.
Proof.
  induction 1 as [p | q child data Hin Hsub IH]; intros Hok; [exact Hok|].
  apply IH. inversion Hok as [| data' Hlen Halt]; subst.
  pose proof (alternating_children Halt) as Hall.
  rewrite Forall_forall in Hall. apply Hall. exact Hin.
Qed.

(** C10, as the code has it.  In a B-tree grown from a fresh one, [remove]
    changes the records of a leaf and nothing else (every internal payload
    keeps its children and separator keys), and [insert], called on any page
    of the tree, does not shorten the payload of that page: only [split]
    does.  An internal root has at least three payload slots, so the test of
    the collapse branch of [BTreeIndex.remove] is false, and no script of
    operations lowers the height. *)
Theorem BTreeIndex_height_never_decreases (ops : list tree_op) (root : slot) :
  0 <= size ->
  BTreeIndex_run BTreeIndex_init ops = Some root ->
  match root with
  | Key _ => False
  | LeafPage _ => True
  | NonLeafPage data => (3 <= length data)%nat
  end /\
  (forall key, exists root1 b,
     TreePage_remove root key = Some (root1, b) /\
     skeleton root1 = skeleton root /\
     root_collapses root1 = false /\
     BTreeIndex_remove root key = Some (root1, b)) /\
  (forall q r, subpage q root ->
     exists q', TreePage_insert q r = Some q' /\ grows q q') /\
  (forall ops', exists root' h h',
     BTreeIndex_run root ops' = Some root' /\
     BTreeIndex_get_height root = Some h /\
     BTreeIndex_get_height root' = Some h' /\
     (h <= h')%nat).
Proof.
  intros Hsize Hrun. pose proof (BTreeIndex_run_root_ok ops Hsize Hrun) as Hroot.
  split; [|split; [|split]].
  - destruct Hroot as [Hok Hlen]. destruct root; [inversion Hok | exact I | exact Hlen].
  - intros key.
    destruct (BTreeIndex_remove_ok key Hroot) as (root1 & b & Hrem & Hcol & Hdrv & Hsk & _).
    exists root1, b. repeat split; assumption.
  - intros q r Hsub.
    destruct (TreePage_insert_ok r Hsize (page_ok_subpage Hsub (proj1 Hroot)))
      as (q' & Hins & _ & Hgrow & _).
    exists q'. split; assumption.
  - intros ops'.
    destruct (BTreeIndex_run_ok ops' Hsize Hroot) as (root' & h & h' & Hrun' & _ & Hh & Hh' & Hle).
    exists root', h, h'. repeat split; assumption.
Qed.

(** C2, what the code does.  [NonLeafPage.split] cuts the payload at an even
    position: the page keeps an even number of slots, never the odd number
    that the layout [[child, key, ..., child]] has, and its last slot, if
    any, is the key in front of the cut.  Of a payload with one separator
    key the page keeps nothing. *)
Theorem NonLeafPage_split_retained_even (data : list slot) :
  Nat.even (length (fst (NonLeafPage_split data))) = true /\
  fst (NonLeafPage_split data) ++ snd (NonLeafPage_split data) = data /\
  (forall c0 k0 c1 : slot, NonLeafPage_split [c0; k0; c1] = ([], [c0; k0; c1])).
Proof.
  split; [|split].
  - destruct (NonLeafPage_split_mid data) as (mid & -> & Hev & Hle). simpl.
    rewrite firstn_length_le; [exact Hev|].
    pose proof (Nat.div_mod_eq (length data) 2) as Hdm.
    generalize dependent (length data / 2)%nat. intros; lia.
  - destruct (NonLeafPage_split_mid data) as (mid & -> & _ & _). apply firstn_skipn.
  - intros c0 k0 c1. reflexivity.
Qed.

(** ** Hash addressing *)

(** Doubling the modulus keeps a remainder or adds the old modulus to it. *)
Lemma mod_double (k m : Z) :
  0 < m -> k mod (2 * m) = k mod m \/ k mod (2 * m) = k mod m + m.
Proof.
  intros Hm.
  pose proof (Z.mod_pos_bound k (2 * m) ltac:(lia)) as Hb.
  pose proof (Z.div_mod k (2 * m) ltac:(lia)) as Hk.
  set (a := k mod (2 * m)) in *. set (q := k / (2 * m)) in *.
  assert (Hkm : k mod m = a mod m).
  { rewrite Hk. replace (2 * m * q + a) with (a + (2 * q) * m) by ring.
    apply Z.mod_add. lia. }
  rewrite Hkm. destruct (Z_lt_ge_dec a m) as [Hlt | Hge].
  - left. rewrite Z.mod_small by lia. reflexivity.
  - right. replace a with ((a - m) + 1 * m) at 2 by ring.
    rewrite Z.mod_add by lia. rewrite Z.mod_small by lia. ring.
Qed.

Lemma pow2_level_pos (d : nat) : 0 < initial_buckets -> 0 < 2 ^ Z.of_nat d * initial_buckets.
Proof. intros H. apply Z.mul_pos_pos; [apply Z.pow_pos_nonneg; lia | exact H]. Qed.

Lemma pow2_level_succ (d : nat) :
  2 ^ Z.of_nat (d + 1) * initial_buckets = 2 * (2 ^ Z.of_nat d * initial_buckets).
Proof.
  rewrite Nat2Z.inj_add. change (Z.of_nat 1) with 1.
  rewrite Z.pow_add_r by lia. change (2 ^ 1) with 2. ring.
Qed.

Lemma _hash_eq (key : Z) (d : nat) :
  0 < initial_buckets -> _hash key d = Some (key mod (2 ^ Z.of_nat d * initial_buckets)).
Proof.
  intros H. unfold _hash. pose proof (pow2_level_pos d H) as Hpos.
  destruct (Z.eqb_spec (2 ^ Z.of_nat d * initial_buckets) 0); [lia | reflexivity].
Qed.

(** C9. For every integer key and every level [d], [h_d(key)] is
    [key mod (2^d * N0)] and lies in [[0, 2^d * N0)]; and [h_(d+1)(key)] is
    [h_d(key)] or [h_d(key) + 2^d * N0]: a record drained from bucket [old]
    rehashes to [old] or to the new bucket [old + 2^d * N0]. *)
Theorem hash_range_and_rehash (key : Z) (d : nat) :
  0 < initial_buckets ->
  exists old,
    _hash key d = Some old /\
    old = key mod (2 ^ Z.of_nat d * initial_buckets) /\
    0 <= old < 2 ^ Z.of_nat d * initial_buckets /\
    (_hash key (d + 1) = Some old \/
     _hash key (d + 1) = Some (old + 2 ^ Z.of_nat d * initial_buckets)).
Proof.
  intros H. pose proof (pow2_level_pos d H) as Hpos.
  exists (key mod (2 ^ Z.of_nat d * initial_buckets)).
  split; [apply _hash_eq; exact H|]. split; [reflexivity|].
  split; [apply Z.mod_pos_bound; exact Hpos|].
  rewrite (_hash_eq key (d + 1) H), pow2_level_succ.
  destruct (mod_double key Hpos) as [-> | ->]; [left | right]; reflexivity.
Qed.

(** ** Bucket chains *)

(** Induction along an overflow chain. *)
Lemma HashPage_chain_ind (P : HashPage -> Prop) :
  (forall data, P (mkHashPage data None)) ->
  (forall data o, P o -> P (mkHashPage data (Some o))) ->
  forall p, P p.
Proof.
  intros Hlast Hnext. fix IH 1. intros [data [o |]].
  - apply Hnext, IH.
  - apply Hlast.
Qed.

Lemma NoDup_map_eq {A B : Type} (f : A -> B) (l : list A) (a b : A) :
  NoDup (map f l) -> In a l -> In b l -> f a = f b -> a = b.
Proof.
  induction l as [| x l IH]; simpl; intros Hnd Ha Hb Hf; [contradiction|].
  inversion Hnd as [| y ys Hnotin Hnd']; subst.
  destruct Ha as [-> | Ha], Hb as [-> | Hb].
  - reflexivity.
  - exfalso. apply Hnotin. rewrite Hf. apply in_map. exact Hb.
  - exfalso. apply Hnotin. rewrite <- Hf. apply in_map. exact Ha.
  - apply IH; assumption.
Qed.

Lemma HashPage_search_In (p : HashPage) (key : Z) (r : record) :
  In r (HashPage_search p key) -> In r (HashPage_get_all_records p) /\ rkey r = key.
Proof.
  induction p as [data | data o IH] using HashPage_chain_ind; simpl;
    destruct (find (fun r0 => rkey r0 =? key) data) as [r0 |] eqn:Hfind; simpl; intros H;
    try contradiction.
  - destruct H as [<- | []]. apply find_some in Hfind. destruct Hfind as [Hin Hk].
    split; [apply in_or_app; left; exact Hin | apply Z.eqb_eq; exact Hk].
  - destruct H as [<- | []]. apply find_some in Hfind. destruct Hfind as [Hin Hk].
    split; [apply in_or_app; left; exact Hin | apply Z.eqb_eq; exact Hk].
  - destruct (IH H) as [Hin Hk]. split; [apply in_or_app; right; exact Hin | exact Hk].
Qed.

Lemma HashPage_search_nil (p : HashPage) (key : Z) :
  HashPage_search p key = [] -> ~ In key (map rkey (HashPage_get_all_records p)).
Proof.
  induction p as [data | data o IH] using HashPage_chain_ind; simpl;
    destruct (find (fun r0 => rkey r0 =? key) data) as [r0 |] eqn:Hfind; intros H;
    try discriminate; rewrite map_app, in_app_iff; intros [Hin | Hin].
  - apply in_map_iff in Hin. destruct Hin as (r & Hk & Hin).
    pose proof (find_none _ _ Hfind r Hin) as Hne. simpl in Hne. lia.
  - exact Hin.
  - apply in_map_iff in Hin. destruct Hin as (r & Hk & Hin).
    pose proof (find_none _ _ Hfind r Hin) as Hne. simpl in Hne. lia.
  - exact (IH H Hin).
Qed.

Lemma HashPage_search_In_nonempty (p : HashPage) (r : record) :
  In r (HashPage_get_all_records p) -> HashPage_search p (rkey r) <> [].
Proof.
  intros Hin Hnil. apply (HashPage_search_nil p _ Hnil). apply in_map. exact Hin.
Qed.

(** A key that no record of the chain has finds nothing. *)
Lemma HashPage_search_fresh (p : HashPage) (key : Z) :
  ~ In key (map rkey (HashPage_get_all_records p)) -> HashPage_search p key = [].
Proof.
  intros Hfresh. destruct (HashPage_search p key) as [| r0 l] eqn:Hs; [reflexivity|].
  exfalso. assert (Hin0 : In r0 (HashPage_search p key)) by (rewrite Hs; left; reflexivity).
  apply HashPage_search_In in Hin0. destruct Hin0 as [Hin0 Hk].
  apply Hfresh. rewrite <- Hk. apply in_map. exact Hin0.
Qed.

(** In a chain with distinct keys, a stored record is what its key finds. *)
Lemma HashPage_search_found (p : HashPage) (r : record) :
  NoDup (map rkey (HashPage_get_all_records p)) ->
  In r (HashPage_get_all_records p) ->
  HashPage_search p (rkey r) = [r].
Proof.
  intros Hnd Hin.
  assert (Hsub : forall r', In r' (HashPage_search p (rkey r)) -> r' = r).
  { intros r' Hr'. apply HashPage_search_In in Hr'. destruct Hr' as [Hin' Hk].
    eapply NoDup_map_eq; eassumption. }
  pose proof (HashPage_search_In_nonempty p r Hin) as Hne.
  assert (Hshape : forall q key, (length (HashPage_search q key) <= 1)%nat).
  { intros q key. induction q as [data | data o IH] using HashPage_chain_ind; simpl;
      destruct (find _ data); simpl; lia. }
  specialize (Hshape p (rkey r)).
  destruct (HashPage_search p (rkey r)) as [| r1 [| r2 l]]; simpl in *.
  - contradiction.
  - rewrite (Hsub r1); [reflexivity | left; reflexivity].
  - lia.
Qed.

Lemma HashPage_insert_eq (data : list record) (overflow : option HashPage)
  (kind : pyseq) (r : record) :
  HashPage_insert (mkHashPage data overflow) kind r
  = if py_truthy (HashPage_search (mkHashPage data overflow) (rkey r))
    then Some (mkHashPage data overflow, false)
    else if get_size_tuples data + get_size_record kind r <=? size
    then Some (mkHashPage (data ++ [r]) overflow, true)
    else
      match overflow with
      | Some o =>
          match HashPage_insert o kind r with
          | Some (o', b) => Some (mkHashPage data (Some o'), b)
          | None => None
          end
      | None =>
          if get_size_tuples [] + get_size_record kind r <=? size
          then Some (mkHashPage data (Some (mkHashPage [r] None)), true)
          else None
      end.
Proof. reflexivity. Qed.

Lemma py_truthy_false {A : Type} (l : list A) : py_truthy l = false <-> l = [].
Proof. destruct l; simpl; split; intros H; try reflexivity; discriminate. Qed.

(** A rejected insert leaves the chain as it was, and the key was there. *)
Lemma HashPage_insert_false (p p' : HashPage) (kind : pyseq) (r : record) :
  HashPage_insert p kind r = Some (p', false) ->
  p' = p /\ HashPage_search p (rkey r) <> [].
Proof.
  revert p'. induction p as [data | data o IH] using HashPage_chain_ind; intros p';
    rewrite HashPage_insert_eq;
    destruct (py_truthy (HashPage_search _ (rkey r))) eqn:Hs.
  - intros H. injection H as <-. split; [reflexivity|].
    intros Hnil. rewrite Hnil in Hs. discriminate.
  - destruct (_ <=? size); [discriminate|]. destruct (_ <=? size); discriminate.
  - intros H. injection H as <-. split; [reflexivity|].
    intros Hnil. rewrite Hnil in Hs. discriminate.
  - destruct (_ <=? size); [discriminate|].
    destruct (HashPage_insert o kind r) as [[o' b] |] eqn:Ho; [|discriminate].
    intros H. injection H as <- ->.
    destruct (IH o' eq_refl) as [-> Hne]. exfalso.
    apply py_truthy_false in Hs. simpl in Hs.
    destruct (find _ data); [discriminate | contradiction].
Qed.

(** An accepted insert adds the record, whose key was not in the chain. *)
Lemma HashPage_insert_true (p p' : HashPage) (kind : pyseq) (r : record) :
  HashPage_insert p kind r = Some (p', true) ->
  HashPage_search p (rkey r) = [] /\
  Permutation (HashPage_get_all_records p') (r :: HashPage_get_all_records p).
Proof.
  revert p'. induction p as [data | data o IH] using HashPage_chain_ind; intros p';
    rewrite HashPage_insert_eq;
    destruct (py_truthy (HashPage_search _ (rkey r))) eqn:Hs; try discriminate;
    apply py_truthy_false in Hs; (split; [exact Hs|]).
  - destruct (_ <=? size).
    + injection H as <-. simpl. rewrite !app_nil_r. symmetry. apply Permutation_cons_append.
    + destruct (_ <=? size); [|discriminate]. injection H as <-. simpl.
      rewrite !app_nil_r. symmetry. apply Permutation_cons_append.
  - destruct (_ <=? size).
    + injection H as <-. simpl. rewrite <- app_assoc. simpl. symmetry. apply Permutation_middle.
    + destruct (HashPage_insert o kind r) as [[o' b] |] eqn:Ho; [|discriminate].
      injection H as <- ->. destruct (IH o' eq_refl) as [_ Hperm]. simpl.
      rewrite Hperm. symmetry. apply Permutation_middle.
Qed.

(** A record that fits an empty page and whose key is new is accepted. *)
Lemma HashPage_insert_total (p : HashPage) (kind : pyseq) (r : record) :
  get_size_record kind r <= size ->
  HashPage_search p (rkey r) = [] ->
  exists p', HashPage_insert p kind r = Some (p', true).
Proof.
  intros Hfit. induction p as [data | data o IH] using HashPage_chain_ind; intros Hs;
    rewrite HashPage_insert_eq, Hs; simpl py_truthy; cbv iota.
  - destruct (_ <=? size); [eexists; reflexivity|].
    change (get_size_tuples []) with 0.
    destruct (Z.leb_spec (0 + get_size_record kind r) size); [eexists; reflexivity | lia].
  - destruct (_ <=? size); [eexists; reflexivity|].
    destruct IH as [o' Ho'].
    + simpl in Hs. destruct (find _ data); [discriminate | exact Hs].
    + rewrite Ho'. eexists; reflexivity.
Qed.

(** [remove] drops one record or nothing. *)
Lemma LeafPage_remove_spec (data : list record) (key : Z) :
  (LeafPage_remove data key = (data, false)) \/
  (exists l1 x l2, data = l1 ++ x :: l2 /\ LeafPage_remove data key = (l1 ++ l2, true)).
Proof.
  induction data as [| r data IH]; simpl.
  - left. reflexivity.
  - destruct (rkey r =? key).
    + right. exists [], r, data. split; reflexivity.
    + destruct IH as [-> | (l1 & x & l2 & -> & ->)].
      * left. reflexivity.
      * right. exists (r :: l1), x, l2. split; reflexivity.
Qed.

Lemma HashPage_remove_spec (p : HashPage) (key : Z) :
  (HashPage_remove p key = (p, false)) \/
  (exists p' l1 x l2,
     HashPage_remove p key = (p', true) /\
     HashPage_get_all_records p = l1 ++ x :: l2 /\
     HashPage_get_all_records p' = l1 ++ l2).
Proof.
  induction p as [data | data o IH] using HashPage_chain_ind; simpl;
    destruct (LeafPage_remove_spec data key) as [-> | (l1 & x & l2 & -> & ->)].
  - left. reflexivity.
  - right. exists (mkHashPage (l1 ++ l2) None), l1, x, l2. simpl.
    rewrite !app_nil_r. repeat split.
  - destruct IH as [-> | (o' & l1 & x & l2 & -> & Hall & Hall')].
    + left. reflexivity.
    + right. exists (mkHashPage data (Some o')), (data ++ l1), x, l2. simpl.
      rewrite Hall, Hall', !app_assoc. repeat split.
  - right. exists (mkHashPage (l1 ++ l2) (Some o)), l1, x, (l2 ++ HashPage_get_all_records o).
    simpl. rewrite <- !app_assoc. repeat split.
Qed.

(** ** The redistribution of a split *)

Lemma redistribute_spec (old_bucket_idx : Z) (level : nat) (records : list record) :
  forall st st',
    redistribute old_bucket_idx level records st = Some st' ->
    NoDup (map rkey records) ->
    (forall r, In r records ->
       ~ In (rkey r) (map rkey (HashPage_get_all_records (fst st))) /\
       ~ In (rkey r) (map rkey (HashPage_get_all_records (snd st)))) ->
    Permutation (HashPage_get_all_records (fst st') ++ HashPage_get_all_records (snd st'))
                (records ++ HashPage_get_all_records (fst st) ++ HashPage_get_all_records (snd st)) /\
    (forall r, In r (HashPage_get_all_records (fst st')) ->
       In r (HashPage_get_all_records (fst st)) \/
       (In r records /\ _hash (rkey r) (level + 1) = Some old_bucket_idx)) /\
    (forall r, In r (HashPage_get_all_records (snd st')) ->
       In r (HashPage_get_all_records (snd st)) \/
       (In r records /\ exists i, _hash (rkey r) (level + 1) = Some i /\ i <> old_bucket_idx)).
Proof.
  induction records as [| r records IH]; intros [o n] st' Hred Hnd Hfresh; simpl in *.
  - injection Hred as <-. simpl. split; [reflexivity|]. split; intros r Hr; left; exact Hr.
  - inversion Hnd as [| k ks Hnotin Hnd']; subst.
    destruct (Hfresh r (or_introl eq_refl)) as [Hfo Hfn].
    destruct (_hash (rkey r) (level + 1)) as [idx |] eqn:Hidx; [|discriminate].
    destruct (Z.eqb_spec idx old_bucket_idx) as [-> | Hne].
    + destruct (HashPage_insert o PyTuple r) as [[o' b] |] eqn:Hins; [|discriminate].
      destruct b.
      2:{ apply HashPage_insert_false in Hins. destruct Hins as [_ Hfound].
          exfalso. apply Hfound, HashPage_search_fresh. exact Hfo. }
      apply HashPage_insert_true in Hins. destruct Hins as [_ Hperm].
      destruct (IH (o', n) st' Hred Hnd') as (HP & Hold & Hnew).
      { intros r' Hr'. simpl. split.
        - rewrite Hperm. simpl. intros [Heq | Hin].
          + apply Hnotin. rewrite Heq. apply in_map. exact Hr'.
          + exact (proj1 (Hfresh r' (or_intror Hr')) Hin).
        - exact (proj2 (Hfresh r' (or_intror Hr'))). }
      simpl in *. split; [|split].
      * rewrite HP, Hperm. simpl. symmetry. apply Permutation_middle.
      * intros r' Hr'. destruct (Hold r' Hr') as [Hin | [Hin Hh]].
        -- apply (Permutation_in _ Hperm) in Hin. destruct Hin as [<- | Hin].
           ++ right. split; [left; reflexivity | exact Hidx].
           ++ left. exact Hin.
        -- right. split; [right; exact Hin | exact Hh].
      * intros r' Hr'. destruct (Hnew r' Hr') as [Hin | [Hin Hh]].
        -- left. exact Hin.
        -- right. split; [right; exact Hin | exact Hh].
    + destruct (HashPage_insert n PyTuple r) as [[n' b] |] eqn:Hins; [|discriminate].
      destruct b.
      2:{ apply HashPage_insert_false in Hins. destruct Hins as [_ Hfound].
          exfalso. apply Hfound, HashPage_search_fresh. exact Hfn. }
      apply HashPage_insert_true in Hins. destruct Hins as [_ Hperm].
      destruct (IH (o, n') st' Hred Hnd') as (HP & Hold & Hnew).
      { intros r' Hr'. simpl. split.
        - exact (proj1 (Hfresh r' (or_intror Hr'))).
        - rewrite Hperm. simpl. intros [Heq | Hin].
          + apply Hnotin. rewrite Heq. apply in_map. exact Hr'.
          + exact (proj2 (Hfresh r' (or_intror Hr')) Hin). }
      simpl in *. split; [|split].
      * rewrite HP, Hperm. simpl.
        rewrite (Permutation_app_comm (HashPage_get_all_records o) (r :: _)). simpl.
        rewrite (Permutation_app_comm (HashPage_get_all_records n)).
        symmetry. apply Permutation_middle.
      * intros r' Hr'. destruct (Hold r' Hr') as [Hin | [Hin Hh]].
        -- left. exact Hin.
        -- right. split; [right; exact Hin | exact Hh].
      * intros r' Hr'. destruct (Hnew r' Hr') as [Hin | [Hin Hh]].
        -- apply (Permutation_in _ Hperm) in Hin. destruct Hin as [<- | Hin].
           ++ right. split; [left; reflexivity|]. exists idx. split; [exact Hidx | exact Hne].
           ++ left. exact Hin.
        -- right. split; [right; exact Hin | exact Hh].
Qed.

(** Records with distinct keys that each fit an empty page are all taken. *)
Lemma redistribute_total (old_bucket_idx : Z) (level : nat) (records : list record) :
  initial_buckets <> 0 ->
  forall st,
    NoDup (map rkey records) ->
    (forall r, In r records -> tuple_sizeof r <= size) ->
    (forall r, In r records ->
       ~ In (rkey r) (map rkey (HashPage_get_all_records (fst st))) /\
       ~ In (rkey r) (map rkey (HashPage_get_all_records (snd st)))) ->
    exists st', redistribute old_bucket_idx level records st = Some st'.
Proof.
  intros HN0.
  induction records as [| r records IH]; intros [o n] Hnd Hfit Hfresh; simpl in *.
  - eexists. reflexivity.
  - inversion Hnd as [| k ks Hnotin Hnd']; subst.
    destruct (Hfresh r (or_introl eq_refl)) as [Hfo Hfn].
    assert (Hidx : exists idx, _hash (rkey r) (level + 1) = Some idx).
    { unfold _hash. destruct (Z.eqb_spec (2 ^ Z.of_nat (level + 1) * initial_buckets) 0) as [H0 | _].
      - apply Z.mul_eq_0 in H0. destruct H0 as [H0 | H0]; [|contradiction].
        pose proof (Z.pow_pos_nonneg 2 (Z.of_nat (level + 1))). lia.
      - eexists. reflexivity. }
    destruct Hidx as [idx ->].
    pose proof (HashPage_search_fresh o _ Hfo) as Hso.
    pose proof (HashPage_search_fresh n _ Hfn) as Hsn.
    assert (Hfitr : get_size_record PyTuple r <= size) by (apply Hfit; left; reflexivity).
    destruct (idx =? old_bucket_idx).
    + destruct (HashPage_insert_total o PyTuple r Hfitr Hso) as [o' Ho'].
      rewrite Ho'. apply HashPage_insert_true in Ho'. destruct Ho' as [_ Hperm].
      apply IH; [exact Hnd' | intros; apply Hfit; right; assumption |].
      intros r' Hr'. simpl. split.
      * rewrite Hperm. simpl. intros [Heq | Hin].
        -- apply Hnotin. rewrite Heq. apply in_map. exact Hr'.
        -- exact (proj1 (Hfresh r' (or_intror Hr')) Hin).
      * exact (proj2 (Hfresh r' (or_intror Hr'))).
    + destruct (HashPage_insert_total n PyTuple r Hfitr Hsn) as [n' Hn'].
      rewrite Hn'. apply HashPage_insert_true in Hn'. destruct Hn' as [_ Hperm].
      apply IH; [exact Hnd' | intros; apply Hfit; right; assumption |].
      intros r' Hr'. simpl. split.
      * exact (proj1 (Hfresh r' (or_intror Hr'))).
      * rewrite Hperm. simpl. intros [Heq | Hin].
        -- apply Hnotin. rewrite Heq. apply in_map. exact Hr'.
        -- exact (proj2 (Hfresh r' (or_intror Hr')) Hin).
Qed.

(** ** Splits of the hash engine *)

Lemma py_index_Some (len : nat) (i : Z) (n : nat) :
  py_index len i = Some n -> (n < len)%nat /\ (0 <= i -> Z.of_nat n = i).
Proof.
  unfold py_index. destruct (Z.leb_spec 0 i).
  - destruct (Z.ltb_spec i (Z.of_nat len)); [|discriminate].
    intros H'. injection H' as <-. split; lia.
  - destruct (Z.leb_spec (- Z.of_nat len) i); [|discriminate].
    intros H'. injection H' as <-. split; lia.
Qed.

Lemma py_index_nonneg (len : nat) (i : Z) :
  0 <= i < Z.of_nat len -> py_index len i = Some (Z.to_nat i).
Proof.
  intros H. unfold py_index.
  destruct (Z.leb_spec 0 i); [|lia]. destruct (Z.ltb_spec i (Z.of_nat len)); [reflexivity | lia].
Qed.

Lemma nth_error_split_at {A : Type} (l : list A) (n : nat) (x : A) :
  nth_error l n = Some x -> exists pre post, l = pre ++ x :: post /\ length pre = n.
Proof. apply nth_error_split. Qed.

(** What [_split] does to the buckets and the counters. *)
Lemma _split_spec (s s' : LinearHashIndex) :
  _split s = Some s' ->
  exists pre old post old' new',
    _buckets s = pre ++ old :: post /\
    py_index (length (_buckets s)) (_next_split s) = Some (length pre) /\
    redistribute (_next_split s) (_level s) (HashPage_get_all_records old)
      (HashPage_new, HashPage_new) = Some (old', new') /\
    _buckets s' = (pre ++ old' :: post) ++ [new'] /\
    _num_buckets s' = _num_buckets s + 1 /\
    _num_records s' = _num_records s /\
    _num_splits s' = _num_splits s + 1 /\
    (if _next_split s + 1 >=? 2 ^ Z.of_nat (_level s) * initial_buckets
     then _level s' = (_level s + 1)%nat /\ _next_split s' = 0
     else _level s' = _level s /\ _next_split s' = _next_split s + 1).
Proof.
  unfold _split.
  destruct (py_index (length (_buckets s)) (_next_split s)) as [old_pos |] eqn:Hidx; [|discriminate].
  destruct (nth_error (_buckets s) old_pos) as [old |] eqn:Hold; [|discriminate].
  destruct (redistribute _ _ _ _) as [[old' new'] |] eqn:Hred; [|discriminate].
  destruct (nth_error_split_at _ _ Hold) as (pre & post & Hb & Hlen).
  rewrite Hb, <- Hlen, py_setitem_middle. intros H. injection H as <-.
  exists pre, old, post, old', new'. simpl.
  rewrite Hb in Hidx. rewrite <- Hlen in Hidx.
  repeat split; try assumption; try reflexivity.
  destruct (_next_split s + 1 >=? _); split; reflexivity.
Qed.

Lemma stored_records_middle (pre : list HashPage) (b : HashPage) (post : list HashPage) :
  flat_map HashPage_get_all_records (pre ++ b :: post)
  = flat_map HashPage_get_all_records pre ++ HashPage_get_all_records b
    ++ flat_map HashPage_get_all_records post.
Proof. rewrite flat_map_app. reflexivity. Qed.

(** A split of a chain with distinct keys keeps every stored record. *)
Lemma _split_Permutation (s s' : LinearHashIndex) (old_pos : nat) (old_bucket : HashPage) :
  py_index (length (_buckets s)) (_next_split s) = Some old_pos ->
  nth_error (_buckets s) old_pos = Some old_bucket ->
  NoDup (map rkey (HashPage_get_all_records old_bucket)) ->
  _split s = Some s' ->
  Permutation (stored_records s) (stored_records s').
Proof.
  intros Hidx Hold Hnd Hsplit.
  destruct (_split_spec s Hsplit)
    as (pre & old & post & old' & new' & Hb & Hidx' & Hred & Hb' & _).
  rewrite Hidx in Hidx'. injection Hidx' as ->.
  rewrite Hb, nth_error_middle in Hold. injection Hold as ->.
  destruct (redistribute_spec _ _ _ _ Hred Hnd) as (HP & _ & _).
  { intros r _. simpl. split; intros []. }
  simpl in HP. rewrite app_nil_r in HP.
  unfold stored_records. rewrite Hb, Hb', flat_map_app, !stored_records_middle.
  simpl. rewrite app_nil_r, <- !app_assoc.
  apply Permutation_app_head.
  rewrite <- HP, <- app_assoc.
  apply Permutation_app_head, Permutation_app_comm.
Qed.

(** The split goes through when the drained records fit an empty page. *)
Lemma _split_total (s : LinearHashIndex) (old_pos : nat) (old_bucket : HashPage) :
  initial_buckets <> 0 ->
  py_index (length (_buckets s)) (_next_split s) = Some old_pos ->
  nth_error (_buckets s) old_pos = Some old_bucket ->
  NoDup (map rkey (HashPage_get_all_records old_bucket)) ->
  (forall r, In r (HashPage_get_all_records old_bucket) -> tuple_sizeof r <= size) ->
  exists s', _split s = Some s'.
Proof.
  intros HN0 Hidx Hold Hnd Hfit. unfold _split. rewrite Hidx, Hold.
  destruct (@redistribute_total (_next_split s) (_level s) _ HN0
              (HashPage_new, HashPage_new) Hnd Hfit) as [[old' new'] ->].
  { intros r _. simpl. split; intros []. }
  destruct (nth_error_split_at _ _ Hold) as (pre & post & Hb & Hlen).
  rewrite Hb, <- Hlen, py_setitem_middle. eexists. reflexivity.
Qed.

(** ** Splits keep the records *)

Lemma records_of_NonLeafPage (data : list slot) :
  records_of (NonLeafPage data) = flat_map records_of data.
Proof. reflexivity. Qed.

(** C5. A split keeps the multiset of the stored records: the records of a
    leaf are those it retains plus those of the new leaf; the records below
    an internal page are those below what it retains plus those below the
    new page; and a split of the hash engine, whose chains hold a key at
    most once, keeps the records stored across all buckets (and goes through
    when the drained records fit an empty page). *)
Theorem split_preserves_records :
  (forall data : list record,
     Permutation data (fst (LeafPage_split data) ++ snd (LeafPage_split data))) /\
  (forall data : list slot,
     Permutation (records_of (NonLeafPage data))
       (records_of (NonLeafPage (fst (NonLeafPage_split data)))
        ++ records_of (NonLeafPage (snd (NonLeafPage_split data))))) /\
  (forall (s : LinearHashIndex) (old_pos : nat) (old_bucket : HashPage),
     py_index (length (_buckets s)) (_next_split s) = Some old_pos ->
     nth_error (_buckets s) old_pos = Some old_bucket ->
     NoDup (map rkey (HashPage_get_all_records old_bucket)) ->
     (forall s', _split s = Some s' -> Permutation (stored_records s) (stored_records s')) /\
     (initial_buckets <> 0 ->
      (forall r, In r (HashPage_get_all_records old_bucket) -> tuple_sizeof r <= size) ->
      exists s', _split s = Some s')).
Proof.
  split; [|split].
  - intros data. unfold LeafPage_split. simpl. rewrite firstn_skipn. reflexivity.
  - intros data. destruct (NonLeafPage_split_mid data) as (mid & -> & _ & _). simpl.
    rewrite <- flat_map_app, firstn_skipn. reflexivity.
  - intros s old_pos old_bucket Hidx Hold Hnd. split.
    + intros s' Hsplit. eapply _split_Permutation; eassumption.
    + intros HN0 Hfit. eapply _split_total; eassumption.
Qed.

(** ** Duplicate keys *)

(** C6. Inserting a record whose key is stored in the chain of the bucket
    it is addressed to returns false and leaves the whole engine state as it
    was: buckets, [num_records], [num_splits], level and split pointer. *)
Theorem LinearHashIndex_insert_duplicate (s : LinearHashIndex) (kind : pyseq) (r : record)
  (bucket_idx : Z) (bucket : HashPage) :
  _get_bucket_index s (rkey r) = Some bucket_idx ->
  py_getitem (_buckets s) bucket_idx = Some bucket ->
  In (rkey r) (map rkey (HashPage_get_all_records bucket)) ->
  LinearHashIndex_insert s kind r = Some (s, false).
Proof.
  intros Hidx Hget Hin. unfold LinearHashIndex_insert. rewrite Hidx.
  unfold py_getitem in Hget.
  destruct (py_index (length (_buckets s)) bucket_idx) as [pos |]; [|discriminate].
  rewrite Hget.
  assert (Hfound : py_truthy (HashPage_search bucket (rkey r)) = true).
  { destruct (HashPage_search bucket (rkey r)) eqn:Hs; [|reflexivity].
    exfalso. exact (HashPage_search_nil bucket _ Hs Hin). }
  destruct bucket as [data overflow]. rewrite HashPage_insert_eq, Hfound. reflexivity.
Qed.

(** ** The split rule *)

Lemma nth_error_other {A : Type} (pre : list A) (x y : A) (post : list A) (i : nat) :
  i <> length pre ->
  nth_error (pre ++ x :: post) i = nth_error (pre ++ y :: post) i.
Proof.
  intros Hne. destruct (Nat.lt_ge_cases i (length pre)) as [Hlt | Hge].
  - rewrite !nth_error_app1 by exact Hlt. reflexivity.
  - rewrite !nth_error_app2 by exact Hge.
    destruct (i - length pre)%nat as [| n] eqn:Hd; [lia | reflexivity].
Qed.

(** C3, as the code has it.  An insert that the addressed bucket rejects
    changes nothing.  An insert that it accepts stores and counts the
    record, then compares the load factor
    [(num_records / num_buckets) / max_records_per_bucket], computed in
    binary64 from the new count, with [utilization]: when it is at least
    [utilization], [_split] runs once, on the bucket at the split pointer,
    appending one bucket and leaving every other bucket alone; otherwise
    nothing is split.  [max_records_per_bucket] is [size / get_size([0, 0,
    0])], the same for every state.  A remove or a search never splits. *)
Theorem LinearHashIndex_insert_split_rule (s s' : LinearHashIndex) (kind : pyseq)
  (r : record) (inserted : bool) :
  LinearHashIndex_insert s kind r = Some (s', inserted) ->
  (if inserted then
     exists pos bucket bucket' buckets1 avg per_bucket lf,
       nth_error (_buckets s) pos = Some bucket /\
       HashPage_insert bucket kind r = Some (bucket', true) /\
       py_setitem (_buckets s) pos bucket' = Some buckets1 /\
       int_truediv (_num_records s + 1) (_num_buckets s) = Some avg /\
       max_records_per_bucket = Some per_bucket /\
       float_truediv avg per_bucket = Some lf /\
       let s1 := {| _level := _level s;
                    _next_split := _next_split s;
                    _num_buckets := _num_buckets s;
                    _buckets := buckets1;
                    _num_records := _num_records s + 1;
                    _num_splits := _num_splits s |} in
       if PrimFloat.leb utilization lf
       then _split s1 = Some s' /\
            _num_splits s' = _num_splits s + 1 /\
            length (_buckets s') = S (length (_buckets s)) /\
            (forall i, py_index (length (_buckets s)) (_next_split s) <> Some i ->
                       (i < length (_buckets s))%nat ->
                       nth_error (_buckets s') i = nth_error buckets1 i)
       else s' = s1
   else s' = s) /\
  (forall key s2 removed,
     LinearHashIndex_remove s key = Some (s2, removed) ->
     _num_splits s2 = _num_splits s /\ length (_buckets s2) = length (_buckets s) /\
     _level s2 = _level s /\ _next_split s2 = _next_split s).
Proof.
  intros Hins. split.
  - unfold LinearHashIndex_insert in Hins.
    destruct (_get_bucket_index s (rkey r)) as [bucket_idx |]; [|discriminate].
    destruct (py_index (length (_buckets s)) bucket_idx) as [pos |]; [|discriminate].
    destruct (nth_error (_buckets s) pos) as [bucket |] eqn:Hbucket; [|discriminate].
    destruct (HashPage_insert bucket kind r) as [[bucket' [|]] |] eqn:Hpage; [| |discriminate].
    2:{ injection Hins as <- <-. reflexivity. }
    destruct (py_setitem (_buckets s) pos bucket') as [buckets1 |] eqn:Hset; [|discriminate].
    unfold _need_split, load_factor in Hins. cbn [_num_records _num_buckets] in Hins.
    destruct (int_truediv (_num_records s + 1) (_num_buckets s)) as [avg |] eqn:Havg;
      [|discriminate].
    destruct max_records_per_bucket as [per_bucket |] eqn:Hper; [|discriminate].
    destruct (float_truediv avg per_bucket) as [lf |] eqn:Hlf; [|discriminate].
    cbn [option_map] in Hins.
    destruct (nth_error_split_at _ _ Hbucket) as (pre & post & Hb & Hlen).
    assert (Hb1 : buckets1 = pre ++ bucket' :: post).
    { rewrite Hb, <- Hlen, py_setitem_middle in Hset. injection Hset as <-. reflexivity. }
    destruct (PrimFloat.leb utilization lf) eqn:Hneed.
    + destruct (_split _) as [s2 |] eqn:Hsplit; [|discriminate].
      cbn [option_map] in Hins. injection Hins as <- <-.
      exists pos, bucket, bucket', buckets1, avg, per_bucket, lf.
      repeat (split; [assumption || reflexivity|]).
      cbv zeta. rewrite Hneed. split; [exact Hsplit|].
      destruct (_split_spec _ Hsplit)
        as (pre0 & old & post0 & old' & new' & Hb0 & Hidx0 & _ & Hb' & _ & _ & Hns & _).
      cbn [_buckets _next_split _num_splits] in *.
      assert (Hl1 : length buckets1 = length (_buckets s)).
      { rewrite Hb1, Hb, !length_app. reflexivity. }
      split; [exact Hns|]. split.
      * rewrite Hb', length_app, <- Hl1, Hb0, !length_app. simpl. lia.
      * intros i Hi Hlt. rewrite Hl1 in Hidx0. rewrite Hb', Hb0.
        assert (Hne : i <> length pre0) by (intros ->; apply Hi; exact Hidx0).
        rewrite nth_error_app1.
        -- apply nth_error_other. exact Hne.
        -- rewrite <- Hl1, Hb0 in Hlt. rewrite !length_app in *. exact Hlt.
    + injection Hins as <- <-.
      exists pos, bucket, bucket', buckets1, avg, per_bucket, lf.
      repeat (split; [assumption || reflexivity|]).
      cbv zeta. rewrite Hneed. reflexivity.
  - intros key s2 removed Hrem. unfold LinearHashIndex_remove in Hrem.
    destruct (_get_bucket_index s key) as [bucket_idx |]; [|discriminate].
    destruct (py_index (length (_buckets s)) bucket_idx) as [pos |]; [|discriminate].
    destruct (nth_error (_buckets s) pos) as [bucket |] eqn:Hbucket; [|discriminate].
    destruct (HashPage_remove bucket key) as [bucket' [|]].
    + destruct (py_setitem (_buckets s) pos bucket') as [buckets1 |] eqn:Hset; [|discriminate].
      injection Hrem as <- <-. simpl.
      destruct (nth_error_split_at _ _ Hbucket) as (pre & post & Hb & Hlen).
      rewrite Hb, <- Hlen, py_setitem_middle in Hset. injection Hset as <-.
      rewrite Hb, !length_app. repeat split.
    + injection Hrem as <- <-. repeat split.
Qed.

(** ** Addressing consistency *)

Lemma _get_bucket_index_eq (s : LinearHashIndex) (key : Z) :
  0 < initial_buckets ->
  _get_bucket_index s key = Some (bucket_of (_level s) (_next_split s) key).
Proof.
  intros H. unfold _get_bucket_index, bucket_of. rewrite !_hash_eq by exact H.
  destruct (_ <? _next_split s); reflexivity.
Qed.

Lemma hash_inv_init :
  0 < initial_buckets ->
  hash_inv (_level LinearHashIndex_init) (_next_split LinearHashIndex_init)
           (_buckets LinearHashIndex_init).
Proof.
  intros H. simpl. constructor.
  - change (2 ^ Z.of_nat 0) with 1. lia.
  - rewrite repeat_length. change (2 ^ Z.of_nat 0) with 1. lia.
  - intros pos bucket r Hnth Hin. apply nth_error_In, repeat_spec in Hnth. subst bucket.
    destruct Hin.
  - intros bucket Hin. apply repeat_spec in Hin. subst bucket. constructor.
Qed.

(** Replacing the records of one chain by records addressed to it. *)
Lemma hash_inv_replace (d : nat) (sp : Z) (pre : list HashPage) (b b' : HashPage)
  (post : list HashPage) :
  hash_inv d sp (pre ++ b :: post) ->
  (forall r, In r (HashPage_get_all_records b') ->
             bucket_of d sp (rkey r) = Z.of_nat (length pre)) ->
  NoDup (map rkey (HashPage_get_all_records b')) ->
  hash_inv d sp (pre ++ b' :: post).
Proof.
  intros [Hp Hl Ha Hd] Haddr Hnd. constructor.
  - exact Hp.
  - rewrite length_app in *. exact Hl.
  - intros pos bucket r Hnth Hin.
    destruct (Nat.eq_dec pos (length pre)) as [-> | Hne].
    + rewrite nth_error_middle in Hnth. injection Hnth as <-. apply Haddr. exact Hin.
    + rewrite (nth_error_other pre b' b post Hne) in Hnth. eapply Ha; eassumption.
  - intros bucket Hin. apply in_app_or in Hin. destruct Hin as [Hin | [<- | Hin]].
    + apply Hd. apply in_or_app. left. exact Hin.
    + exact Hnd.
    + apply Hd. apply in_or_app. right. right. exact Hin.
Qed.

(** Moving the pointer re-addresses the keys of the split bucket, with
    [h_(d+1)], and no other key. *)
Lemma bucket_of_next (d : nat) (sp key : Z) :
  0 < initial_buckets ->
  0 <= sp < 2 ^ Z.of_nat d * initial_buckets ->
  bucket_of (fst (next_pointer d sp)) (snd (next_pointer d sp)) key
  = if key mod (2 ^ Z.of_nat d * initial_buckets) =? sp
    then key mod (2 ^ Z.of_nat (d + 1) * initial_buckets)
    else bucket_of d sp key.
Proof.
  intros HN0 Hsp. unfold next_pointer.
  pose proof (pow2_level_pos d HN0) as Hpos.
  pose proof (pow2_level_pos (d + 1) HN0) as Hpos'.
  pose proof (Z.mod_pos_bound key _ Hpos) as Hi.
  pose proof (Z.mod_pos_bound key _ Hpos') as Hi'.
  destruct (Z.geb_spec (sp + 1) (2 ^ Z.of_nat d * initial_buckets)) as [Hend | Hmid];
    cbn [fst snd]; unfold bucket_of; cbv zeta.
  - destruct (Z.ltb_spec (key mod (2 ^ Z.of_nat (d + 1) * initial_buckets)) 0); [lia|].
    destruct (Z.eqb_spec (key mod (2 ^ Z.of_nat d * initial_buckets)) sp); [reflexivity|].
    destruct (Z.ltb_spec (key mod (2 ^ Z.of_nat d * initial_buckets)) sp); [reflexivity | lia].
  - destruct (Z.eqb_spec (key mod (2 ^ Z.of_nat d * initial_buckets)) sp) as [Heq | Hne].
    + rewrite Heq. destruct (Z.ltb_spec sp (sp + 1)); [reflexivity | lia].
    + destruct (Z.ltb_spec (key mod (2 ^ Z.of_nat d * initial_buckets)) (sp + 1)),
               (Z.ltb_spec (key mod (2 ^ Z.of_nat d * initial_buckets)) sp);
        try reflexivity; lia.
Qed.

(** A key addressed to the bucket at the split pointer hashes to it. *)
Lemma bucket_of_pointer (d : nat) (sp key : Z) :
  0 < initial_buckets ->
  0 <= sp < 2 ^ Z.of_nat d * initial_buckets ->
  bucket_of d sp key = sp <-> key mod (2 ^ Z.of_nat d * initial_buckets) = sp.
Proof.
  intros HN0 Hsp. unfold bucket_of.
  pose proof (pow2_level_pos d HN0) as Hpos.
  pose proof (Z.mod_pos_bound key _ Hpos) as Hi.
  rewrite pow2_level_succ.
  destruct (mod_double key Hpos) as [Hd | Hd]; rewrite Hd;
    destruct (Z.ltb_spec (key mod (2 ^ Z.of_nat d * initial_buckets)) sp); lia.
Qed.

(** The engine after a split satisfies what it satisfied before. *)
Lemma hash_inv_split (d : nat) (sp : Z) (pre : list HashPage) (old : HashPage)
  (post : list HashPage) (old' new' : HashPage) :
  0 < initial_buckets ->
  hash_inv d sp (pre ++ old :: post) ->
  Z.of_nat (length pre) = sp ->
  redistribute sp d (HashPage_get_all_records old) (HashPage_new, HashPage_new)
    = Some (old', new') ->
  hash_inv (fst (next_pointer d sp)) (snd (next_pointer d sp))
           ((pre ++ old' :: post) ++ [new']).
Proof.
  intros HN0 [Hp Hl Ha Hd] Hpre Hred.
  pose proof (pow2_level_pos d HN0) as Hpos.
  assert (Hndold : NoDup (map rkey (HashPage_get_all_records old))).
  { apply Hd. apply in_or_app. right. left. reflexivity. }
  destruct (redistribute_spec _ _ _ _ Hred Hndold) as (HP & Hold & Hnew).
  { intros r _. simpl. split; intros []. }
  simpl in HP, Hold, Hnew. rewrite app_nil_r in HP.
  assert (Holdhash : forall r, In r (HashPage_get_all_records old) ->
                               rkey r mod (2 ^ Z.of_nat d * initial_buckets) = sp).
  { intros r Hr. apply bucket_of_pointer; [exact HN0 | exact Hp|].
    rewrite <- Hpre at 2. apply (Ha (length pre) old r); [apply nth_error_middle | exact Hr]. }
  assert (Hnd' : NoDup (map rkey (HashPage_get_all_records old' ++ HashPage_get_all_records new'))).
  { eapply Permutation_NoDup; [|exact Hndold]. apply Permutation_map. symmetry. exact HP. }
  rewrite map_app in Hnd'.
  constructor.
  - unfold next_pointer. destruct (Z.geb_spec (sp + 1) (2 ^ Z.of_nat d * initial_buckets)); simpl.
    + rewrite pow2_level_succ. lia.
    + lia.
  - rewrite !length_app in *. simpl in *. unfold next_pointer.
    destruct (Z.geb_spec (sp + 1) (2 ^ Z.of_nat d * initial_buckets)); simpl.
    + rewrite pow2_level_succ. lia.
    + lia.
  - intros pos bucket r Hnth Hin. rewrite (@bucket_of_next d sp (rkey r) HN0 Hp).
    destruct (Nat.lt_ge_cases pos (length (pre ++ old' :: post))) as [Hlt | Hge].
    + rewrite nth_error_app1 in Hnth by exact Hlt.
      destruct (Nat.eq_dec pos (length pre)) as [-> | Hne].
      * rewrite nth_error_middle in Hnth. injection Hnth as <-.
        destruct (Hold r Hin) as [[] | [Hin' Hh]].
        rewrite (Holdhash r Hin'), Z.eqb_refl.
        rewrite (@_hash_eq (rkey r) (d + 1) HN0) in Hh. injection Hh as ->. lia.
      * rewrite (nth_error_other pre old' old post Hne) in Hnth.
        pose proof (Ha pos bucket r Hnth Hin) as Hpos'.
        destruct (Z.eqb_spec (rkey r mod (2 ^ Z.of_nat d * initial_buckets)) sp) as [Heq | _];
          [|exact Hpos'].
        apply (@bucket_of_pointer d sp (rkey r) HN0 Hp) in Heq. lia.
    + rewrite nth_error_app2 in Hnth by exact Hge.
      destruct (pos - length (pre ++ old' :: post))%nat as [| n] eqn:Hdiff.
      2:{ destruct n; discriminate. }
      simpl in Hnth. injection Hnth as <-.
      destruct (Hnew r Hin) as [[] | [Hin' (i & Hh & Hne)]].
      rewrite (Holdhash r Hin'), Z.eqb_refl.
      rewrite (@_hash_eq (rkey r) (d + 1) HN0) in Hh. injection Hh as Hi.
      rewrite pow2_level_succ in *.
      destruct (mod_double (rkey r) Hpos) as [Hdbl | Hdbl];
        rewrite (Holdhash r Hin') in Hdbl.
      * lia.
      * rewrite Hdbl. rewrite !length_app in *. simpl in *. lia.
  - intros bucket Hin. apply in_app_or in Hin. destruct Hin as [Hin | [<- | []]].
    + apply in_app_or in Hin. destruct Hin as [Hin | [<- | Hin]].
      * apply Hd. apply in_or_app. left. exact Hin.
      * eapply NoDup_app_remove_r. exact Hnd'.
      * apply Hd. apply in_or_app. right. right. exact Hin.
    + eapply NoDup_app_remove_l. exact Hnd'.
Qed.

Lemma bucket_of_nonneg (d : nat) (sp key : Z) :
  0 < initial_buckets -> 0 <= bucket_of d sp key.
Proof.
  intros HN0. unfold bucket_of.
  pose proof (Z.mod_pos_bound key _ (pow2_level_pos d HN0)).
  pose proof (Z.mod_pos_bound key _ (pow2_level_pos (d + 1) HN0)).
  destruct (_ <? sp); lia.
Qed.

Lemma LinearHashIndex_insert_inv (s s' : LinearHashIndex) (kind : pyseq) (r : record)
  (inserted : bool) :
  0 < initial_buckets ->
  hash_inv (_level s) (_next_split s) (_buckets s) ->
  LinearHashIndex_insert s kind r = Some (s', inserted) ->
  hash_inv (_level s') (_next_split s') (_buckets s').
Proof.
  intros HN0 Hinv Hins. unfold LinearHashIndex_insert in Hins.
  rewrite (_get_bucket_index_eq s (rkey r) HN0) in Hins.
  destruct (py_index (length (_buckets s)) _) as [pos |] eqn:Hidx; [|discriminate].
  destruct (nth_error (_buckets s) pos) as [bucket |] eqn:Hbucket; [|discriminate].
  destruct (HashPage_insert bucket kind r) as [[bucket' [|]] |] eqn:Hpage; [| |discriminate].
  2:{ injection Hins as <- <-. exact Hinv. }
  destruct (nth_error_split_at _ _ Hbucket) as (pre & post & Hb & Hlen).
  rewrite Hb, <- Hlen, py_setitem_middle in Hins.
  apply HashPage_insert_true in Hpage. destruct Hpage as [Hnew Hperm].
  apply py_index_Some in Hidx. destruct Hidx as [_ Hpos].
  specialize (Hpos (bucket_of_nonneg _ _ (rkey r) HN0)).
  assert (Hinv1 : hash_inv (_level s) (_next_split s) (pre ++ bucket' :: post)).
  { rewrite Hb in Hinv. apply (@hash_inv_replace _ _ pre bucket bucket' post Hinv).
    - intros r' Hr'. apply (Permutation_in _ Hperm) in Hr'. destruct Hr' as [<- | Hr'].
      + rewrite Hlen. symmetry. exact Hpos.
      + eapply (inv_address Hinv); [apply nth_error_middle | exact Hr'].
    - eapply Permutation_NoDup; [apply Permutation_map; symmetry; exact Hperm|].
      simpl. constructor.
      + apply HashPage_search_nil. exact Hnew.
      + apply (inv_distinct Hinv). apply in_or_app. right. left. reflexivity. }
  destruct (_need_split _) as [[|] |]; [| |discriminate].
  - destruct (_split _) as [s2 |] eqn:Hsplit; [|discriminate].
    cbn [option_map] in Hins. injection Hins as <- <-.
    destruct (_split_spec _ Hsplit)
      as (pre0 & old & post0 & old' & new' & Hb0 & Hidx0 & Hred & Hb' & _ & _ & _ & Hnext).
    cbn [_buckets _next_split _level] in *.
    rewrite Hb0 in Hinv1.
    apply py_index_Some in Hidx0. destruct Hidx0 as [_ Hpre0].
    specialize (Hpre0 (proj1 (inv_pointer Hinv1))).
    pose proof (@hash_inv_split _ _ pre0 old post0 old' new' HN0 Hinv1 Hpre0 Hred) as Hinv2.
    unfold next_pointer in Hinv2. rewrite Hb'.
    destruct (_next_split s + 1 >=? _); destruct Hnext as [-> ->]; exact Hinv2.
  - injection Hins as <- <-. exact Hinv1.
Qed.

Lemma LinearHashIndex_remove_inv (s s' : LinearHashIndex) (key : Z) (removed : bool) :
  0 < initial_buckets ->
  hash_inv (_level s) (_next_split s) (_buckets s) ->
  LinearHashIndex_remove s key = Some (s', removed) ->
  hash_inv (_level s') (_next_split s') (_buckets s').
Proof.
  intros HN0 Hinv Hrem. unfold LinearHashIndex_remove in Hrem.
  destruct (_get_bucket_index s key) as [bucket_idx |]; [|discriminate].
  destruct (py_index (length (_buckets s)) bucket_idx) as [pos |]; [|discriminate].
  destruct (nth_error (_buckets s) pos) as [bucket |] eqn:Hbucket; [|discriminate].
  destruct (HashPage_remove_spec bucket key)
    as [Hpage | (bucket' & l1 & x & l2 & Hpage & Hall & Hall')]; rewrite Hpage in Hrem.
  { injection Hrem as <- <-. exact Hinv. }
  destruct (nth_error_split_at _ _ Hbucket) as (pre & post & Hb & Hlen).
  rewrite Hb, <- Hlen, py_setitem_middle in Hrem. injection Hrem as <- <-. simpl.
  rewrite Hb in Hinv. apply (@hash_inv_replace _ _ pre bucket bucket' post Hinv).
  - intros r Hr. eapply (inv_address Hinv); [apply nth_error_middle|].
    rewrite Hall. rewrite Hall' in Hr. apply in_app_or in Hr. apply in_or_app.
    destruct Hr as [Hr | Hr]; [left | right; right]; exact Hr.
  - assert (Hnd : NoDup (map rkey (HashPage_get_all_records bucket)))
      by (apply (inv_distinct Hinv); apply in_or_app; right; left; reflexivity).
    rewrite Hall, map_app in Hnd. simpl in Hnd. rewrite Hall', map_app.
    eapply NoDup_remove_1. exact Hnd.
Qed.

Lemma LinearHashIndex_run_inv (ops : list hash_op) :
  0 < initial_buckets ->
  forall s s',
    hash_inv (_level s) (_next_split s) (_buckets s) ->
    LinearHashIndex_run s ops = Some s' ->
    hash_inv (_level s') (_next_split s') (_buckets s').
Proof.
  intros HN0. induction ops as [| op ops IH]; intros s s' Hinv Hrun; simpl in Hrun.
  - injection Hrun as <-. exact Hinv.
  - destruct (LinearHashIndex_step s op) as [s1 |] eqn:Hstep; [|discriminate].
    apply (IH s1 s'); [|exact Hrun].
    destruct op as [kind r | key | key]; simpl in Hstep.
    + destruct (LinearHashIndex_insert s kind r) as [[s2 b] |] eqn:Hins; [|discriminate].
      injection Hstep as <-. eapply LinearHashIndex_insert_inv; eassumption.
    + destruct (LinearHashIndex_remove s key) as [[s2 b] |] eqn:Hrem; [|discriminate].
      injection Hstep as <-. eapply LinearHashIndex_remove_inv; eassumption.
    + destruct (LinearHashIndex_search s key); [|discriminate].
      injection Hstep as <-. exact Hinv.
Qed.

(** C4. After any script of inserts, removes and searches on a fresh
    engine, splits included, every stored record sits in the bucket chain at
    the index [_get_bucket_index] computes for its key from the current
    level and split pointer, and a search of that key returns it; no chain
    holds a key twice. *)
Theorem LinearHashIndex_addressing_consistent (ops : list hash_op) (s : LinearHashIndex)
  (pos : nat) (bucket : HashPage) (r : record) :
  0 < initial_buckets ->
  LinearHashIndex_run LinearHashIndex_init ops = Some s ->
  nth_error (_buckets s) pos = Some bucket ->
  In r (HashPage_get_all_records bucket) ->
  _get_bucket_index s (rkey r) = Some (Z.of_nat pos) /\
  LinearHashIndex_search s (rkey r) = Some [r] /\
  NoDup (map rkey (HashPage_get_all_records bucket)).
Proof.
  intros HN0 Hrun Hnth Hin.
  pose proof (LinearHashIndex_run_inv ops HN0 _ (hash_inv_init HN0) Hrun) as Hinv.
  assert (Hnd : NoDup (map rkey (HashPage_get_all_records bucket))).
  { apply (inv_distinct Hinv). eapply nth_error_In. exact Hnth. }
  assert (Hidx : _get_bucket_index s (rkey r) = Some (Z.of_nat pos)).
  { rewrite (_get_bucket_index_eq s (rkey r) HN0). f_equal.
    eapply (inv_address Hinv); eassumption. }
  split; [exact Hidx|]. split; [|exact Hnd].
  unfold LinearHashIndex_search, py_getitem. rewrite Hidx.
  rewrite py_index_nonneg, Nat2Z.id, Hnth.
  - f_equal. apply HashPage_search_found; [exact Hnd | exact Hin].
  - split; [lia|]. apply Nat2Z.inj_lt. apply nth_error_Some. rewrite Hnth. discriminate.
Qed.

(** ** Removal from a leaf, and search afterwards *)

Lemma LeafPage_search_none (data : list record) (key : Z) :
  ~ In key (map rkey data) -> LeafPage_search data key = [].
Proof.
  induction data as [| r tl IH]; simpl; intros Hnot; [reflexivity|].
  destruct (Z.eqb_spec (rkey r) key) as [Heq | Hne].
  - exfalso. apply Hnot. left. exact Heq.
  - apply IH. intros H. apply Hnot. right. exact H.
Qed.

Lemma LeafPage_search_app (l1 l2 : list record) (key : Z) :
  LeafPage_search (l1 ++ l2) key = LeafPage_search l1 key ++ LeafPage_search l2 key.
Proof. apply filter_app. Qed.

(** [LeafPage.remove] deletes the first record that has the key. *)
Lemma LeafPage_remove_first (data : list record) (key : Z) :
  (~ In key (map rkey data) /\ LeafPage_remove data key = (data, false)) \/
  (exists l1 x l2, data = l1 ++ x :: l2 /\ rkey x = key /\ ~ In key (map rkey l1) /\
     LeafPage_remove data key = (l1 ++ l2, true)).
Proof.
  induction data as [| r tl IH]; simpl.
  - left. split; [intros [] | reflexivity].
  - destruct (Z.eqb_spec (rkey r) key) as [Heq | Hne].
    + right. exists [], r, tl.
      split; [reflexivity|]. split; [exact Heq|]. split; [intros [] | reflexivity].
    + destruct IH as [[Hnot Hrem] | (l1 & x & l2 & -> & Hx & Hl1 & Hrem)]; rewrite Hrem.
      * left. split; [| reflexivity]. intros [H | H]; contradiction.
      * right. exists (r :: l1), x, l2.
        split; [reflexivity|]. split; [exact Hx|]. split; [| reflexivity].
        simpl. intros [H | H]; contradiction.
Qed.

Lemma LeafPage_remove_middle (l1 : list record) (x : record) (l2 : list record) :
  ~ In (rkey x) (map rkey l1) ->
  LeafPage_remove (l1 ++ x :: l2) (rkey x) = (l1 ++ l2, true).
Proof.
  induction l1 as [| r tl IH]; simpl; intros Hnot.
  - rewrite Z.eqb_refl. reflexivity.
  - destruct (Z.eqb_spec (rkey r) (rkey x)) as [Heq | Hne].
    + exfalso. apply Hnot. left. exact Heq.
    + rewrite IH; [reflexivity|]. intros H. apply Hnot. right. exact H.
Qed.

(** X1. [LeafPage.remove] returns [True] exactly when the leaf holds the
    key; it then deletes one record, the first one with that key, so that a
    search for the key afterwards returns the earlier result without its
    first record.  A search for any other key is unaffected, and a remove
    that returns [False] leaves the leaf as it was. *)
Theorem LeafPage_remove_then_search (data : list record) (key : Z) :
  (snd (LeafPage_remove data key) = true <-> In key (LeafPage_get_key_list data)) /\
  (snd (LeafPage_remove data key) = false -> fst (LeafPage_remove data key) = data) /\
  (snd (LeafPage_remove data key) = true ->
     exists l1 x l2, data = l1 ++ x :: l2 /\ rkey x = key /\
                     ~ In key (LeafPage_get_key_list l1) /\
                     fst (LeafPage_remove data key) = l1 ++ l2) /\
  LeafPage_search (fst (LeafPage_remove data key)) key = tl (LeafPage_search data key) /\
  (forall key', key' <> key ->
     LeafPage_search (fst (LeafPage_remove data key)) key' = LeafPage_search data key').
Proof.
  unfold LeafPage_get_key_list.
  destruct (LeafPage_remove_first data key)
    as [[Hnot Hrem] | (l1 & x & l2 & Hdata & Hx & Hl1 & Hrem)]; rewrite Hrem; simpl.
  - split; [split; [discriminate | contradiction]|].
    split; [reflexivity|]. split; [discriminate|].
    split; [| reflexivity].
    rewrite (@LeafPage_search_none data key Hnot). reflexivity.
  - split.
    { split; [intros _ | reflexivity].
      rewrite Hdata, map_app. apply in_or_app. right. left. exact Hx. }
    split; [discriminate|].
    split.
    { intros _. exists l1, x, l2. repeat split; assumption. }
    rewrite Hdata, !LeafPage_search_app, (@LeafPage_search_none l1 key Hl1). simpl.
    split.
    + rewrite Hx, Z.eqb_refl. reflexivity.
    + intros key' Hne. rewrite !LeafPage_search_app. simpl.
      destruct (Z.eqb_spec (rkey x) key') as [Heq | _]; [congruence | reflexivity].
Qed.

(** ** Insertion into a leaf, and search afterwards *)

Lemma nth_key (data : list record) (i : nat) (d : record) :
  (i < length data)%nat -> nth i (map rkey data) 0 = rkey (nth i data d).
Proof.
  intros Hi. rewrite (nth_indep _ 0 (rkey d)) by (rewrite length_map; exact Hi).
  apply map_nth.
Qed.

(** Where [LeafPage.insert] puts a record in a leaf with non-decreasing
    keys. *)
Lemma LeafPage_insert_spec (data : list record) (r : record) :
  Sorted Z.le (LeafPage_get_key_list data) ->
  exists p,
    LeafPage_insert data r = Some (py_insert p r data) /\
    (p <= length data)%nat /\
    (forall x, In x (firstn p data) -> rkey x <= rkey r) /\
    (forall x, In x (skipn p data) -> rkey r < rkey x) /\
    Sorted Z.le (LeafPage_get_key_list (py_insert p r data)).
Proof.
  intros Hsorted.
  apply Sorted_StronglySorted in Hsorted; [| intros x y z; apply Z.le_trans].
  pose proof (@StronglySorted_nth _ Hsorted) as Hmono.
  unfold LeafPage_insert, TreePage_binary_search.
  set (ks := LeafPage_get_key_list data) in *.
  assert (Hlen : length ks = length data) by apply length_map.
  destruct (@bsearch_loop_spec (map Some ks) (rkey r) 0%nat (length (map Some ks)) ks eq_refl Hmono)
    as (p & Hp & Hr & Hlo & Hhi).
  - rewrite length_map. lia.
  - intros i Hi. lia.
  - intros i Hi. rewrite length_map in Hi. lia.
  - rewrite length_map in Hr. exists p. rewrite Hp.
    split; [reflexivity|]. split; [lia|]. split; [|split].
    + intros x Hx. destruct (In_nth _ _ r Hx) as (i & Hi & <-).
      rewrite length_firstn in Hi. rewrite nth_firstn.
      destruct (Nat.ltb_spec i p) as [Hip | Hip]; [| lia].
      rewrite <- (@nth_key data i r) by lia. apply Hlo. exact Hip.
    + intros x Hx. destruct (In_nth _ _ r Hx) as (i & Hi & <-).
      rewrite length_skipn in Hi. rewrite nth_skipn.
      rewrite <- (@nth_key data (p + i) r) by lia. apply Hhi. lia.
    + unfold LeafPage_get_key_list. rewrite map_py_insert.
      apply StronglySorted_Sorted, StronglySorted_py_insert; auto.
Qed.

Lemma LeafPage_search_all_greater (data : list record) (key : Z) :
  (forall x, In x data -> key < rkey x) -> LeafPage_search data key = [].
Proof.
  intros H. apply LeafPage_search_none. intros Hin.
  apply in_map_iff in Hin. destruct Hin as (x & Hx & Hin). apply H in Hin. lia.
Qed.

(** X2. In a leaf with non-decreasing keys, a search for the key of a record
    just inserted returns what it returned before followed by the new record
    (equal keys come back in insertion order), and a search for any other key
    is unaffected.  When the key was not in the leaf, removing it again gives
    the leaf back. *)
Theorem LeafPage_insert_then_search (data : list record) (r : record) :
  Sorted Z.le (LeafPage_get_key_list data) ->
  exists data',
    LeafPage_insert data r = Some data' /\
    LeafPage_search data' (rkey r) = LeafPage_search data (rkey r) ++ [r] /\
    (forall key, key <> rkey r -> LeafPage_search data' key = LeafPage_search data key) /\
    (~ In (rkey r) (LeafPage_get_key_list data) ->
       LeafPage_remove data' (rkey r) = (data, true)).
Proof.
  intros Hsorted.
  destruct (@LeafPage_insert_spec data r Hsorted) as (p & Hins & Hp & Hlo & Hhi & _).
  exists (py_insert p r data). split; [exact Hins|].
  unfold py_insert.
  assert (Hdata : data = firstn p data ++ skipn p data) by (symmetry; apply firstn_skipn).
  set (f := firstn p data) in *. set (s := skipn p data) in *.
  clearbody f s. subst data.
  pose proof (@LeafPage_search_all_greater s (rkey r) Hhi) as Hs.
  split; [|split].
  - rewrite !LeafPage_search_app. simpl. rewrite Z.eqb_refl, Hs, app_nil_r. reflexivity.
  - intros key Hne. rewrite !LeafPage_search_app. simpl.
    destruct (Z.eqb_spec (rkey r) key) as [Heq | _]; [congruence | reflexivity].
  - intros Hfresh. rewrite LeafPage_remove_middle; [reflexivity|].
    intros Hin. apply Hfresh. unfold LeafPage_get_key_list.
    rewrite map_app. apply in_or_app. left. exact Hin.
Qed.

(** ** The split of a sorted leaf *)

Lemma StronglySorted_app_inv (l1 l2 : list Z) :
  StronglySorted Z.le (l1 ++ l2) ->
  StronglySorted Z.le l1 /\ StronglySorted Z.le l2 /\
  (forall x y, In x l1 -> In y l2 -> x <= y).
Proof.
  induction l1 as [| a l1 IH]; simpl; intros H.
  - split; [constructor|]. split; [exact H|]. intros x y [].
  - inversion H as [| a' l' Hss Hall]; subst.
    destruct (IH Hss) as (H1 & H2 & H12).
    rewrite Forall_app in Hall. destruct Hall as [Ha1 Ha2].
    split; [constructor; assumption|]. split; [exact H2|].
    intros x y [<- | Hx] Hy.
    + rewrite Forall_forall in Ha2. apply Ha2. exact Hy.
    + apply H12; assumption.
Qed.

Lemma Sorted_keys_app_inv (l1 l2 : list record) :
  Sorted Z.le (LeafPage_get_key_list (l1 ++ l2)) ->
  Sorted Z.le (LeafPage_get_key_list l1) /\ Sorted Z.le (LeafPage_get_key_list l2) /\
  (forall x y, In x l1 -> In y l2 -> rkey x <= rkey y).
Proof.
  unfold LeafPage_get_key_list. rewrite map_app. intros H.
  apply Sorted_StronglySorted in H; [| intros x y z; apply Z.le_trans].
  destruct (StronglySorted_app_inv _ _ H) as (H1 & H2 & H12).
  split; [apply StronglySorted_Sorted; exact H1|].
  split; [apply StronglySorted_Sorted; exact H2|].
  intros x y Hx Hy. apply H12; apply in_map; assumption.
Qed.

(** X3. [LeafPage.split] of a non-empty leaf with non-decreasing keys: both
    halves have non-decreasing keys, the new leaf is not empty and holds as
    many records as the retained one or one more, and the separator that is
    promoted (the first key of the new leaf) is at least every retained key
    and at most every key of the new leaf. *)
Theorem LeafPage_split_sorted (data : list record) :
  Sorted Z.le (LeafPage_get_key_list data) -> data <> [] ->
  exists r0 rest,
    snd (LeafPage_split data) = r0 :: rest /\
    separator_key (LeafPage (snd (LeafPage_split data))) = Some (Key (rkey r0)) /\
    Sorted Z.le (LeafPage_get_key_list (fst (LeafPage_split data))) /\
    Sorted Z.le (LeafPage_get_key_list (snd (LeafPage_split data))) /\
    (forall x, In x (fst (LeafPage_split data)) -> rkey x <= rkey r0) /\
    (forall y, In y (snd (LeafPage_split data)) -> rkey r0 <= rkey y) /\
    (length (fst (LeafPage_split data)) <= length (snd (LeafPage_split data))
     <= S (length (fst (LeafPage_split data))))%nat.
Proof.
  intros Hsorted Hne. unfold LeafPage_split. cbn [fst snd].
  set (mid := (length data / 2)%nat).
  assert (Hmid : (mid < length data)%nat).
  { subst mid. destruct data; [contradiction|]. apply Nat.div_lt; simpl; lia. }
  assert (Hlens : (length (firstn mid data) <= length (skipn mid data)
                   <= S (length (firstn mid data)))%nat).
  { rewrite length_firstn, length_skipn.
    pose proof (Nat.div_mod_eq (length data) 2) as Hdm.
    pose proof (Nat.mod_upper_bound (length data) 2) as Hub.
    subst mid. generalize dependent (length data / 2)%nat. intros; lia. }
  rewrite <- (firstn_skipn mid data) in Hsorted.
  destruct (Sorted_keys_app_inv _ _ Hsorted) as (Ha & Hb & Hab).
  destruct (skipn mid data) as [| r0 rest] eqn:Hskip.
  { apply (f_equal (@length record)) in Hskip. rewrite length_skipn in Hskip.
    simpl in Hskip. lia. }
  exists r0, rest.
  split; [reflexivity|]. split; [reflexivity|]. split; [exact Ha|]. split; [exact Hb|].
  split; [|split].
  - intros x Hx. apply Hab; [exact Hx | left; reflexivity].
  - intros y [<- | Hy]; [lia|].
    unfold LeafPage_get_key_list in Hb. simpl in Hb.
    apply Sorted_StronglySorted in Hb; [| intros u v w; apply Z.le_trans].
    inversion Hb as [| a' l' _ Hall]; subst.
    rewrite Forall_forall in Hall. apply Hall. apply in_map. exact Hy.
  - exact Hlens.
Qed.

(** ** The records below a page *)

Lemma records_of_middle (pre : list slot) (c : slot) (post : list slot) :
  records_of (NonLeafPage (pre ++ c :: post))
  = flat_map records_of pre ++ records_of c ++ flat_map records_of post.
Proof. rewrite records_of_NonLeafPage, flat_map_app. reflexivity. Qed.

Lemma leaves_of_middle (pre : list slot) (c : slot) (post : list slot) :
  leaves_of (NonLeafPage (pre ++ c :: post))
  = flat_map leaves_of pre ++ leaves_of c ++ flat_map leaves_of post.
Proof. cbn [leaves_of]. rewrite flat_map_app. reflexivity. Qed.

(** The records below a page are those of its leaves. *)
Lemma records_of_leaves (p : slot) : records_of p = concat (leaves_of p).
Proof.
  induction p as [k | data | data IH] using slot_ind_nested.
  - reflexivity.
  - simpl. rewrite app_nil_r. reflexivity.
  - cbn [records_of leaves_of].
    induction IH as [| c rest Hc _ IHrest]; simpl; [reflexivity|].
    rewrite concat_app, Hc, IHrest. reflexivity.
Qed.

(** A split keeps the records in their order. *)
Lemma TreePage_split_records (p a b : slot) :
  TreePage_split p = Some (a, b) -> records_of a ++ records_of b = records_of p.
Proof.
  destruct p as [k | data | data]; simpl; [discriminate | |].
  - intros H. injection H as <- <-. simpl. apply firstn_skipn.
  - destruct (NonLeafPage_split data) as [x y] eqn:Hsplit.
    intros H. injection H as <- <-.
    destruct (NonLeafPage_split_mid data) as (mid & Hmid & _).
    rewrite Hsplit in Hmid. injection Hmid as -> ->.
    rewrite !records_of_NonLeafPage, <- flat_map_app, firstn_skipn. reflexivity.
Qed.

Lemma records_of_split_middle (pre : list slot) (a b c : slot) (k : Z) (post : list slot) :
  records_of a ++ records_of b = records_of c ->
  records_of (NonLeafPage (pre ++ a :: Key k :: b :: post))
  = records_of (NonLeafPage (pre ++ c :: post)).
Proof.
  intros H. rewrite !records_of_NonLeafPage, !flat_map_app. simpl.
  rewrite <- H, <- app_assoc. reflexivity.
Qed.

(** ** The steps of an insert *)

Lemma TreePage_insert_shape (r : record) (p : slot) :
  0 <= size -> page_ok p ->
  exists p', TreePage_insert p r = Some p' /\ inserted r p p'.
Proof.
  intros Hsize.
  induction p as [k | data | data IH] using slot_ind_nested; intros Hok.
  - inversion Hok.
  - destruct (TreePage_binary_search_total data (rkey r)) as (pos & Hpos & Hle).
    exists (LeafPage (py_insert pos r data)). simpl. unfold LeafPage_insert. rewrite Hpos.
    split; [reflexivity|]. constructor. unfold LeafPage_insert. rewrite Hpos. reflexivity.
  - inversion Hok as [| data' Hlen Halt]; subst.
    rewrite TreePage_insert_NonLeafPage.
    destruct (NonLeafPage_binary_search_ok (rkey r) Halt) as (b & Hb & Hble). rewrite Hb.
    destruct (Nat.ltb_spec (b * 2) (length data)) as [Hlt | Hge].
    2:{ exists (NonLeafPage data). split; [reflexivity|]. constructor.
        rewrite Hb. f_equal.
        pose proof (Nat.div_mod_eq (length data) 2) as Hdm.
        generalize dependent (length data / 2)%nat. intros; lia. }
    destruct (split_at data Hlt) as (pre & c & post & -> & Hpre).
    assert (Hev : Nat.even (length pre) = true) by (rewrite Hpre; apply even_mul2).
    destruct (proj1 (alternating_app page_ok pre (c :: post) Hev) Halt) as [Hapre Hapost].
    assert (Hokc : page_ok c) by (inversion Hapost; assumption).
    rewrite Forall_forall in IH.
    destruct (IH c (in_elt c pre post) Hokc) as (c' & Hc' & Hins).
    destruct (TreePage_insert_ok r Hsize Hokc) as (c'' & Hc'' & Hokc' & Hgrow & _).
    rewrite Hc' in Hc''. injection Hc'' as <-.
    rewrite <- Hpre in Hb.
    rewrite <- Hpre, on_child_middle, Hc'. simpl. rewrite nth_error_middle.
    destruct (Z.gtb_spec (used_space c') size) as [Hover | Hfits].
    + assert (Hsp : splittable c')
        by (eapply used_space_splittable; [exact Hsize | exact Hgrow | lia]).
      destruct (TreePage_split_ok Hokc' Hsp)
        as (a & b0 & k & ha & hb & Hsplit & Hsep & _).
      rewrite (@NonLeafPage_split_child_middle pre c' a b0 (Key k) post Hsplit Hsep). simpl.
      exists (NonLeafPage (pre ++ a :: Key k :: b0 :: post)).
      split; [reflexivity|].
      apply (@inserted_split r pre c c' a b0 k post); try assumption. lia.
    + exists (NonLeafPage (pre ++ c' :: post)).
      split; [reflexivity|].
      apply inserted_child; assumption.
Qed.

(** An insert puts the record somewhere among the records below the page,
    or changes none of them. *)
Lemma inserted_records (r : record) (p p' : slot) :
  inserted r p p' ->
  records_of p' = records_of p \/
  exists l1 l2, records_of p = l1 ++ l2 /\ records_of p' = l1 ++ r :: l2.
Proof.
  assert (Hmid : forall pre c c' post,
    (records_of c' = records_of c \/
     exists l1 l2, records_of c = l1 ++ l2 /\ records_of c' = l1 ++ r :: l2) ->
    records_of (NonLeafPage (pre ++ c' :: post)) = records_of (NonLeafPage (pre ++ c :: post)) \/
    exists l1 l2, records_of (NonLeafPage (pre ++ c :: post)) = l1 ++ l2 /\
                  records_of (NonLeafPage (pre ++ c' :: post)) = l1 ++ r :: l2).
  { intros pre c c' post [Heq | (l1 & l2 & H1 & H2)]; rewrite !records_of_middle.
    - left. rewrite Heq. reflexivity.
    - right. exists (flat_map records_of pre ++ l1), (l2 ++ flat_map records_of post).
      rewrite H1, H2, <- !app_assoc. split; reflexivity. }
  induction 1 as [data data' Hins | data Hpos | pre c c' post Hev Hpos Hins IH Hfits
                 | pre c c' a b k post Hev Hpos Hins IH Hover Hsplit Hsep].
  - right. unfold LeafPage_insert in Hins.
    destruct (TreePage_binary_search data (rkey r)) as [pos|]; [|discriminate].
    injection Hins as <-. exists (firstn pos data), (skipn pos data).
    split; [symmetry; apply firstn_skipn | reflexivity].
  - left. reflexivity.
  - apply Hmid. exact IH.
  - rewrite (@records_of_split_middle pre a b c' k post (TreePage_split_records _ Hsplit)).
    apply Hmid. exact IH.
Qed.



(** ** The steps of a remove *)

Lemma TreePage_remove_shape (key : Z) (p : slot) :
  page_ok p -> exists p' b, TreePage_remove p key = Some (p', b) /\ removed key p p' b.
Proof.
  induction p as [k | data | data IH] using slot_ind_nested; intros Hok.
  - inversion Hok.
  - simpl. destruct (LeafPage_remove data key) as [data' b] eqn:Hrem.
    exists (LeafPage data'), b. split; [reflexivity | constructor; exact Hrem].
  - inversion Hok as [| data' Hlen Halt]; subst.
    rewrite TreePage_remove_NonLeafPage.
    destruct (NonLeafPage_binary_search_ok key Halt) as (b & Hb & Hble). rewrite Hb.
    destruct (Nat.ltb_spec (b * 2) (length data)) as [Hlt | Hge].
    2:{ exists (NonLeafPage data), false. split; [reflexivity|]. constructor.
        rewrite Hb. f_equal.
        pose proof (Nat.div_mod_eq (length data) 2) as Hdm.
        generalize dependent (length data / 2)%nat. intros; lia. }
    destruct (split_at data Hlt) as (pre & c & post & -> & Hpre).
    assert (Hev : Nat.even (length pre) = true) by (rewrite Hpre; apply even_mul2).
    destruct (proj1 (alternating_app page_ok pre (c :: post) Hev) Halt) as [Hapre Hapost].
    assert (Hokc : page_ok c) by (inversion Hapost; assumption).
    rewrite Forall_forall in IH.
    destruct (IH c (in_elt c pre post) Hokc) as (c' & res & Hc' & Hrem).
    rewrite <- Hpre in Hb.
    rewrite <- Hpre, on_child_with_middle, Hc'. simpl.
    exists (NonLeafPage (pre ++ c' :: post)), res.
    split; [reflexivity|]. constructor; assumption.
Qed.

Lemma at_child_nth {R : Type} (f : slot -> option R) (l : list slot) (i : nat) :
  at_child f l i = match nth_error l i with Some c => f c | None => None end.
Proof.
  revert i. induction l as [| c l IH]; intros [| i]; simpl; try reflexivity. apply IH.
Qed.

(** The keys of a payload do not depend on the page at an even position. *)
Lemma NonLeafPage_get_key_list_middle (pre : list slot) (c c' : slot) (post : list slot) :
  Nat.even (length pre) = true ->
  NonLeafPage_get_key_list (pre ++ c :: post) = NonLeafPage_get_key_list (pre ++ c' :: post).
Proof.
  induction pre as [| x | x y pre IH] using list_ind2; simpl; intros Hev.
  - destruct post; reflexivity.
  - discriminate.
  - f_equal. apply IH. exact Hev.
Qed.

Lemma NonLeafPage_binary_search_middle (pre : list slot) (c c' : slot) (post : list slot)
  (key : Z) :
  Nat.even (length pre) = true ->
  NonLeafPage_binary_search (pre ++ c :: post) key
  = NonLeafPage_binary_search (pre ++ c' :: post) key.
Proof.
  intros Hev. unfold NonLeafPage_binary_search.
  rewrite (@NonLeafPage_get_key_list_middle pre c c' post Hev). reflexivity.
Qed.

(** A search below a payload whose child at one position was replaced. *)
Lemma TreePage_search_middle (pre : list slot) (c c' : slot) (post : list slot) (key : Z) :
  Nat.even (length pre) = true ->
  TreePage_search (NonLeafPage (pre ++ c' :: post)) key
  = match NonLeafPage_binary_search (pre ++ c :: post) key with
    | None => None
    | Some child_pos =>
        if (child_pos =? length pre)%nat then TreePage_search c' key
        else TreePage_search (NonLeafPage (pre ++ c :: post)) key
    end.
Proof.
  intros Hev. rewrite !TreePage_search_NonLeafPage.
  rewrite (@NonLeafPage_binary_search_middle pre c' c post key Hev).
  destruct (NonLeafPage_binary_search (pre ++ c :: post) key) as [pos |]; [|reflexivity].
  replace (length (pre ++ c' :: post)) with (length (pre ++ c :: post))
    by (rewrite !length_app; reflexivity).
  destruct (Nat.eqb_spec pos (length pre)) as [-> | Hne].
  - rewrite at_child_middle.
    destruct (Nat.ltb_spec (length pre) (length (pre ++ c :: post))) as [_ | Hge];
      [reflexivity|].
    rewrite length_app in Hge. simpl in Hge. lia.
  - destruct (pos <? length (pre ++ c :: post))%nat; [|reflexivity].
    rewrite !at_child_nth, (@nth_error_other _ pre c' c post pos Hne). reflexivity.
Qed.

(** What a remove does to the records below a page and to the searches. *)
Lemma removed_spec (key : Z) (p p' : slot) (b : bool) :
  removed key p p' b ->
  exists found,
    TreePage_search p key = Some found /\
    TreePage_search p' key = Some (tl found) /\
    (b = true <-> found <> []) /\
    (if b then
       exists l1 x l2, records_of p = l1 ++ x :: l2 /\ rkey x = key /\
                       records_of p' = l1 ++ l2 /\ hd_error found = Some x
     else p' = p) /\
    (forall key', key' <> key -> TreePage_search p' key' = TreePage_search p key').
Proof.
  induction 1 as [data data' b Hrem | data Hpos | pre c c' post b Hev Hpos Hrem IH].
  - exists (LeafPage_search data key). split; [reflexivity|].
    destruct (LeafPage_remove_first data key)
      as [[Hnot H] | (l1 & x & l2 & Hd & Hx & Hl1 & H)];
      rewrite H in Hrem; injection Hrem as <- <-; cbn [TreePage_search].
    + rewrite (@LeafPage_search_none data key Hnot).
      split; [reflexivity|]. split; [split; [discriminate | congruence]|].
      split; reflexivity.
    + assert (Hfound : LeafPage_search data key = x :: LeafPage_search l2 key).
      { rewrite Hd, LeafPage_search_app, (@LeafPage_search_none l1 key Hl1). simpl.
        rewrite Hx, Z.eqb_refl. reflexivity. }
      rewrite Hfound. simpl.
      split; [rewrite LeafPage_search_app, (@LeafPage_search_none l1 key Hl1); reflexivity|].
      split; [split; [discriminate | reflexivity]|].
      split; [exists l1, x, l2; repeat split; assumption|].
      intros key' Hne. rewrite Hd, !LeafPage_search_app. simpl.
      destruct (Z.eqb_spec (rkey x) key') as [Heq | _]; [congruence | reflexivity].
  - exists []. rewrite TreePage_search_NonLeafPage, Hpos, Nat.ltb_irrefl.
    split; [reflexivity|]. split; [reflexivity|].
    split; [split; [discriminate | congruence]|]. split; reflexivity.
  - destruct IH as (found & Hs & Hs' & Hb & Hrec & Hother).
    exists found.
    assert (Hhere : TreePage_search (NonLeafPage (pre ++ c :: post)) key = Some found).
    { rewrite TreePage_search_NonLeafPage, Hpos, at_child_middle.
      destruct (Nat.ltb_spec (length pre) (length (pre ++ c :: post))) as [_ | Hge];
        [exact Hs|].
      rewrite length_app in Hge. simpl in Hge. lia. }
    split; [exact Hhere|].
    split; [rewrite (@TreePage_search_middle pre c c' post key Hev), Hpos, Nat.eqb_refl; exact Hs'|].
    split; [exact Hb|]. split.
    + destruct b.
      * destruct Hrec as (l1 & x & l2 & H1 & Hx & H2 & Hhd).
        exists (flat_map records_of pre ++ l1), x, (l2 ++ flat_map records_of post).
        rewrite !records_of_middle, H1, H2, <- !app_assoc. simpl.
        repeat split; assumption.
      * rewrite Hrec. reflexivity.
    + intros key' Hne. rewrite (@TreePage_search_middle pre c c' post key' Hev).
      destruct (NonLeafPage_binary_search (pre ++ c :: post) key') as [pos |] eqn:Hpos';
        [| rewrite TreePage_search_NonLeafPage, Hpos'; reflexivity].
      destruct (Nat.eqb_spec pos (length pre)) as [-> | _]; [| reflexivity].
      rewrite (Hother key' Hne), TreePage_search_NonLeafPage, Hpos', at_child_middle.
      destruct (Nat.ltb_spec (length pre) (length (pre ++ c :: post))) as [_ | Hge];
        [reflexivity|].
      rewrite length_app in Hge. simpl in Hge. lia.
Qed.

(** X6. [BTreeIndex.remove] on a tree built from a fresh index returns
    [True] exactly when a search for the key finds something; it then deletes
    one record, the first one that the search returned, and the search
    returns the rest afterwards.  It returns [False] without changing the
    tree, and in either case the search for any other key is unaffected. *)
Theorem BTreeIndex_remove_records (ops : list tree_op) (root : slot) (key : Z) :
  0 <= size ->
  BTreeIndex_run BTreeIndex_init ops = Some root ->
  exists root' b found,
    BTreeIndex_remove root key = Some (root', b) /\
    BTreeIndex_search root key = Some found /\
    (b = true <-> found <> []) /\
    (if b then
       exists l1 x l2, records_of root = l1 ++ x :: l2 /\ rkey x = key /\
                       records_of root' = l1 ++ l2 /\ hd_error found = Some x
     else root' = root) /\
    BTreeIndex_search root' key = Some (tl found) /\
    (forall key', key' <> key -> BTreeIndex_search root' key' = BTreeIndex_search root key').
Proof.
  intros Hsize Hrun.
  pose proof (BTreeIndex_run_root_ok ops Hsize Hrun) as Hroot.
  destruct (BTreeIndex_remove_ok key Hroot) as (root1 & b & Hrem & _ & Hdrv & _).
  destruct (TreePage_remove_shape key (proj1 Hroot)) as (root1' & b' & Hrem' & Hshape).
  rewrite Hrem in Hrem'. injection Hrem' as <- <-.
  destruct (removed_spec Hshape) as (found & Hs & Hs' & Hb & Hrec & Hother).
  exists root1, b, found. unfold BTreeIndex_search.
  repeat (split; [assumption|]). exact Hother.
Qed.

(** ** Searches read one leaf *)

Lemma TreePage_search_leaf (key : Z) (p : slot) :
  page_ok p ->
  exists found, TreePage_search p key = Some found /\
    (found = [] \/ exists data, In data (leaves_of p) /\ found = LeafPage_search data key).
Proof.
  induction p as [k | data | data IH] using slot_ind_nested; intros Hok.
  - inversion Hok.
  - exists (LeafPage_search data key). split; [reflexivity|].
    right. exists data. split; [left; reflexivity | reflexivity].
  - inversion Hok as [| data' Hlen Halt]; subst.
    rewrite TreePage_search_NonLeafPage.
    destruct (NonLeafPage_binary_search_ok key Halt) as (b & Hb & Hble). rewrite Hb.
    destruct (Nat.ltb_spec (b * 2) (length data)) as [Hlt | Hge].
    2:{ exists []. split; [reflexivity | left; reflexivity]. }
    destruct (split_at data Hlt) as (pre & c & post & -> & Hpre).
    assert (Hev : Nat.even (length pre) = true) by (rewrite Hpre; apply even_mul2).
    destruct (proj1 (alternating_app page_ok pre (c :: post) Hev) Halt) as [Hapre Hapost].
    assert (Hokc : page_ok c) by (inversion Hapost; assumption).
    rewrite Forall_forall in IH.
    destruct (IH c (in_elt c pre post) Hokc) as (found & Hfound & Hleaf).
    rewrite <- Hpre, at_child_middle. exists found. split; [exact Hfound|].
    destruct Hleaf as [-> | (leaf & Hin & ->)]; [left; reflexivity|].
    right. exists leaf. split; [| reflexivity].
    rewrite leaves_of_middle. apply in_or_app. right. apply in_or_app. left. exact Hin.
Qed.

(** X4. [BTreeIndex.search] on a tree built from a fresh index returns, and
    what it returns are the records with the key in one leaf of the tree (or
    nothing): every record returned has the key that was searched and is
    stored in the tree. *)
Theorem BTreeIndex_search_sound (ops : list tree_op) (root : slot) (key : Z) :
  0 <= size ->
  BTreeIndex_run BTreeIndex_init ops = Some root ->
  exists found,
    BTreeIndex_search root key = Some found /\
    (found = [] \/
     exists data, In data (leaves_of root) /\ found = LeafPage_search data key) /\
    (forall r, In r found -> rkey r = key /\ In r (records_of root)).
Proof.
  intros Hsize Hrun.
  pose proof (BTreeIndex_run_root_ok ops Hsize Hrun) as Hroot.
  destruct (TreePage_search_leaf key (proj1 Hroot)) as (found & Hfound & Hleaf).
  exists found. split; [exact Hfound|]. split; [exact Hleaf|].
  intros r Hr. destruct Hleaf as [-> | (data & Hin & ->)]; [contradiction|].
  unfold LeafPage_search in Hr. apply filter_In in Hr. destruct Hr as [Hr Hk].
  split; [apply Z.eqb_eq; exact Hk|].
  rewrite records_of_leaves. apply in_concat. exists data. split; assumption.
Qed.

(** ** Leaves stay sorted *)

Lemma StronglySorted_app (l1 l2 : list Z) :
  StronglySorted Z.le l1 -> StronglySorted Z.le l2 ->
  (forall x y, In x l1 -> In y l2 -> x <= y) ->
  StronglySorted Z.le (l1 ++ l2).
Proof.
  induction l1 as [| a l1 IH]; simpl; intros H1 H2 H12; [exact H2|].
  inversion H1 as [| a' l' Hss Hall]; subst. constructor.
  - apply IH; [exact Hss | exact H2|]. intros x y Hx Hy. apply H12; [right; exact Hx | exact Hy].
  - rewrite Forall_app. split; [exact Hall|].
    rewrite Forall_forall. intros y Hy. apply H12; [left; reflexivity | exact Hy].
Qed.

Lemma Sorted_keys_remove (l1 : list record) (x : record) (l2 : list record) :
  Sorted Z.le (LeafPage_get_key_list (l1 ++ x :: l2)) ->
  Sorted Z.le (LeafPage_get_key_list (l1 ++ l2)).
Proof.
  intros H. destruct (Sorted_keys_app_inv _ _ H) as (H1 & H2 & H12).
  unfold LeafPage_get_key_list in *. rewrite map_app.
  apply StronglySorted_Sorted, StronglySorted_app.
  - apply Sorted_StronglySorted; [intros u v w; apply Z.le_trans | exact H1].
  - simpl in H2. apply Sorted_StronglySorted in H2; [| intros u v w; apply Z.le_trans].
    inversion H2; assumption.
  - intros u v Hu Hv.
    apply in_map_iff in Hu. destruct Hu as (a & <- & Ha).
    apply in_map_iff in Hv. destruct Hv as (b & <- & Hb).
    apply H12; [exact Ha | right; exact Hb].
Qed.

Lemma TreePage_split_sorted (p a b : slot) :
  TreePage_split p = Some (a, b) -> sorted_leaves p -> sorted_leaves a /\ sorted_leaves b.
Proof.
  unfold sorted_leaves.
  destruct p as [k | data | data]; cbn [TreePage_split]; [discriminate | |].
  - unfold LeafPage_split. intros H Hs. injection H as <- <-. cbn [leaves_of] in *.
    inversion Hs as [| d l Hd _]; subst.
    rewrite <- (firstn_skipn (length data / 2) data) in Hd.
    destruct (Sorted_keys_app_inv _ _ Hd) as (H1 & H2 & _).
    split; constructor; try assumption; constructor.
  - destruct (NonLeafPage_split data) as [x y] eqn:Hsplit.
    intros H. injection H as <- <-.
    destruct (NonLeafPage_split_mid data) as (mid & Hmid & _).
    rewrite Hsplit in Hmid. injection Hmid as -> ->.
    intros Hs. cbn [leaves_of] in *.
    rewrite <- (firstn_skipn mid data), flat_map_app, Forall_app in Hs.
    exact Hs.
Qed.

Lemma inserted_sorted (r : record) (p p' : slot) :
  inserted r p p' -> sorted_leaves p -> sorted_leaves p'.
Proof.
  unfold sorted_leaves.
  induction 1 as [data data' Hins | data Hpos | pre c c' post Hev Hpos Hins IH Hfits
                 | pre c c' a b k post Hev Hpos Hins IH Hover Hsplit Hsep]; intros Hs.
  - simpl in *. inversion Hs as [| d l Hd _]; subst.
    destruct (@LeafPage_insert_spec data r Hd) as (pos & Hins' & _ & _ & _ & Hsorted).
    rewrite Hins in Hins'. injection Hins' as ->. constructor; [exact Hsorted | constructor].
  - exact Hs.
  - rewrite leaves_of_middle, !Forall_app in *.
    destruct Hs as (H1 & H2 & H3). split; [exact H1|]. split; [apply IH; exact H2 | exact H3].
  - rewrite leaves_of_middle, !Forall_app in Hs. destruct Hs as (H1 & H2 & H3).
    destruct (TreePage_split_sorted Hsplit (IH H2)) as [Ha Hb].
    cbn [leaves_of]. rewrite flat_map_app. simpl.
    rewrite !Forall_app. split; [exact H1|]. split; [exact Ha|]. split; [exact Hb | exact H3].
Qed.

Lemma removed_sorted (key : Z) (p p' : slot) (b : bool) :
  removed key p p' b -> sorted_leaves p -> sorted_leaves p'.
Proof.
  unfold sorted_leaves.
  induction 1 as [data data' b Hrem | data Hpos | pre c c' post b Hev Hpos Hrem IH]; intros Hs.
  - simpl in *. inversion Hs as [| d l Hd _]; subst.
    constructor; [| constructor].
    destruct (LeafPage_remove_first data key)
      as [[_ H] | (l1 & x & l2 & Hdata & _ & _ & H)];
      rewrite H in Hrem; injection Hrem as <- <-; [exact Hd|].
    rewrite Hdata in Hd. apply (Sorted_keys_remove _ _ _ Hd).
  - exact Hs.
  - rewrite leaves_of_middle, !Forall_app in *.
    destruct Hs as (H1 & H2 & H3). split; [exact H1|]. split; [apply IH; exact H2 | exact H3].
Qed.

Lemma BTreeIndex_step_sorted (op : tree_op) (root root' : slot) :
  0 <= size -> root_ok root -> sorted_leaves root ->
  BTreeIndex_step root op = Some root' -> sorted_leaves root'.
Proof.
  intros Hsize Hroot Hs. destruct op as [r | key | key]; simpl.
  - destruct (BTreeIndex_insert_ok r Hsize Hroot)
      as (root1 & root2 & h & Hins & Hdrv & _ & _ & Hsplit & Hkeep).
    destruct (TreePage_insert_shape r Hsize (proj1 Hroot)) as (root1' & Hins' & Hshape).
    rewrite Hins in Hins'. injection Hins' as <-.
    rewrite Hdrv. intros H. injection H as <-.
    pose proof (inserted_sorted Hshape Hs) as Hs1.
    destruct (Z_gt_le_dec (used_space root1) size) as [Hgt | Hle].
    + destruct (Hsplit Hgt) as (old & new & sep & Hsp & _ & -> & _).
      destruct (TreePage_split_sorted Hsp Hs1) as [Ha Hb].
      unfold sorted_leaves in *. simpl. rewrite app_nil_r, Forall_app. split; assumption.
    + destruct (Hkeep Hle) as [-> _]. exact Hs1.
  - destruct (BTreeIndex_remove_ok key Hroot) as (root1 & b & Hrem & _ & Hdrv & _).
    destruct (TreePage_remove_shape key (proj1 Hroot)) as (root1' & b' & Hrem' & Hshape).
    rewrite Hrem in Hrem'. injection Hrem' as <- <-.
    rewrite Hdrv. simpl. intros H. injection H as <-.
    exact (removed_sorted Hshape Hs).
  - destruct (BTreeIndex_search root key); simpl; [|discriminate].
    intros H. injection H as <-. exact Hs.
Qed.

Lemma BTreeIndex_run_sorted (ops : list tree_op) :
  0 <= size -> forall root root',
  root_ok root -> sorted_leaves root ->
  BTreeIndex_run root ops = Some root' -> sorted_leaves root'.
Proof.
  intros Hsize. induction ops as [| op ops IH]; intros root root' Hroot Hs; simpl.
  - intros H. injection H as <-. exact Hs.
  - destruct (BTreeIndex_step_ok op Hsize Hroot) as (root1 & h & h1 & Hstep & Hok1 & _).
    rewrite Hstep. apply IH; [exact Hok1|].
    exact (BTreeIndex_step_sorted op Hsize Hroot Hs Hstep).
Qed.

(** X10. In every tree built from a fresh index by inserts, removes and
    searches, the keys of each leaf are non-decreasing, also below internal
    pages that a split left with a dangling key. *)
Theorem BTreeIndex_leaves_sorted (ops : list tree_op) (root : slot) (data : list record) :
  0 <= size ->
  BTreeIndex_run BTreeIndex_init ops = Some root ->
  In data (leaves_of root) ->
  Sorted Z.le (LeafPage_get_key_list data).
Proof.
  intros Hsize Hrun Hin.
  assert (Hs : sorted_leaves root).
  { apply (@BTreeIndex_run_sorted ops Hsize BTreeIndex_init root root_ok_init); [| exact Hrun].
    constructor; constructor. }
  unfold sorted_leaves in Hs. rewrite Forall_forall in Hs. apply Hs. exact Hin.
Qed.

(** ** Range searches *)

Lemma BTreeIndex_range_search_helper_one (c : slot) (min_key max_key : Z) :
  BTreeIndex_range_search_helper (NonLeafPage [c]) min_key max_key
  = match BTreeIndex_range_search_helper c min_key max_key with
    | None => None
    | Some found => Some (found ++ [])
    end.
Proof. reflexivity. Qed.

Lemma BTreeIndex_range_search_helper_cons (c k : slot) (rest : list slot)
  (min_key max_key : Z) :
  BTreeIndex_range_search_helper (NonLeafPage (c :: k :: rest)) min_key max_key
  = match BTreeIndex_range_search_helper c min_key max_key with
    | None => None
    | Some found =>
        match BTreeIndex_range_search_helper (NonLeafPage rest) min_key max_key with
        | None => None
        | Some more => Some (found ++ more)
        end
    end.
Proof. reflexivity. Qed.

(** The traversal visits every leaf: it collects the records in the range
    among all the records below the page. *)
Lemma BTreeIndex_range_search_helper_ok (min_key max_key : Z) (p : slot) :
  page_ok p ->
  BTreeIndex_range_search_helper p min_key max_key
  = Some (filter (fun r => (min_key <=? rkey r) && (rkey r <=? max_key)) (records_of p)).
Proof.
  induction p as [k | data | data IH] using slot_ind_nested; intros Hok.
  - inversion Hok.
  - reflexivity.
  - inversion Hok as [| data' Hlen Halt]; subst. clear Hlen Hok.
    revert IH. induction Halt as [| c Hc | c k rest Hc Hrest IHrest]; intros IH.
    + reflexivity.
    + inversion IH as [| c0 l0 Hpc _]; subst.
      rewrite BTreeIndex_range_search_helper_one, (Hpc Hc). simpl.
      rewrite !app_nil_r. reflexivity.
    + inversion IH as [| c0 l0 Hpc IH']; subst.
      inversion IH' as [| k0 l1 _ IH'']; subst.
      rewrite BTreeIndex_range_search_helper_cons, (Hpc Hc), (IHrest IH'').
      rewrite !records_of_NonLeafPage. simpl. rewrite filter_app. reflexivity.
Qed.

(** X7. [BTreeIndex.range_search] on a tree built from a fresh index returns
    exactly the stored records whose key lies in the closed interval, in
    their left-to-right order: nothing in the range is missed, also when a
    point search does not reach it.  The result is empty when the bounds are
    reversed, and it contains whatever a point search for a key in the range
    returns. *)
Theorem BTreeIndex_range_search_complete (ops : list tree_op) (root : slot)
  (min_key max_key : Z) :
  0 <= size ->
  BTreeIndex_run BTreeIndex_init ops = Some root ->
  BTreeIndex_range_search root min_key max_key
  = Some (filter (fun r => (min_key <=? rkey r) && (rkey r <=? max_key)) (records_of root)) /\
  (max_key < min_key -> BTreeIndex_range_search root min_key max_key = Some []) /\
  (forall key found in_range,
     min_key <= key <= max_key ->
     BTreeIndex_search root key = Some found ->
     BTreeIndex_range_search root min_key max_key = Some in_range ->
     incl found in_range).
Proof.
  intros Hsize Hrun.
  pose proof (BTreeIndex_run_root_ok ops Hsize Hrun) as Hroot.
  pose proof (BTreeIndex_range_search_helper_ok min_key max_key (proj1 Hroot)) as Hrange.
  unfold BTreeIndex_range_search. split; [exact Hrange|]. split.
  - intros Hlt. rewrite Hrange. f_equal. clear Hrange.
    induction (records_of root) as [| r l IH]; simpl; [reflexivity|].
    destruct (Z.leb_spec min_key (rkey r)), (Z.leb_spec (rkey r) max_key); simpl;
      try exact IH. lia.
  - intros key found in_range Hkey Hfound Hin. rewrite Hrange in Hin. injection Hin as <-.
    destruct (TreePage_search_leaf key (proj1 Hroot)) as (found' & Hfound' & Hleaf).
    unfold BTreeIndex_search in Hfound. rewrite Hfound in Hfound'. injection Hfound' as <-.
    intros r Hr. destruct Hleaf as [-> | (data & Hdata & ->)]; [contradiction|].
    unfold LeafPage_search in Hr. apply filter_In in Hr. destruct Hr as [Hr Hk].
    apply Z.eqb_eq in Hk. apply filter_In. split.
    + rewrite records_of_leaves. apply in_concat. exists data. split; assumption.
    + apply andb_true_iff. split; apply Z.leb_le; lia.
Qed.

(** ** The counters of [get_statistics] *)

Lemma BTreeIndex_count_nodes_NonLeafPage (data : list slot) :
  BTreeIndex_count_nodes (NonLeafPage data)
  = option_map S (sum_counts (map BTreeIndex_count_nodes (children_of data))).
Proof.
  cbn [BTreeIndex_count_nodes].
  match goal with
  | |- ?f data _ = _ =>
      assert (H : forall l count,
                 f l count
                 = option_map (Nat.add count)
                     (sum_counts (map BTreeIndex_count_nodes (children_of l))))
  end.
  { induction l as [| a | a b l IH] using list_ind2; intros count; simpl.
    - f_equal. lia.
    - destruct (BTreeIndex_count_nodes a); simpl; [f_equal; lia | reflexivity].
    - destruct (BTreeIndex_count_nodes a) as [n |]; [| reflexivity].
      rewrite IH. destruct (sum_counts _); simpl; [f_equal; lia | reflexivity]. }
  rewrite H. destruct (sum_counts _); reflexivity.
Qed.

Lemma BTreeIndex_count_leaf_nodes_NonLeafPage (data : list slot) :
  BTreeIndex_count_leaf_nodes (NonLeafPage data)
  = sum_counts (map BTreeIndex_count_leaf_nodes (children_of data)).
Proof.
  cbn [BTreeIndex_count_leaf_nodes].
  match goal with
  | |- ?f data _ = _ =>
      assert (H : forall l count,
                 f l count
                 = option_map (Nat.add count)
                     (sum_counts (map BTreeIndex_count_leaf_nodes (children_of l))))
  end.
  { induction l as [| a | a b l IH] using list_ind2; intros count; simpl.
    - f_equal. lia.
    - destruct (BTreeIndex_count_leaf_nodes a); simpl; [f_equal; lia | reflexivity].
    - destruct (BTreeIndex_count_leaf_nodes a) as [n |]; [| reflexivity].
      rewrite IH. destruct (sum_counts _); simpl; [f_equal; lia | reflexivity]. }
  rewrite H. destruct (sum_counts _); reflexivity.
Qed.

Lemma BTreeIndex_count_records_NonLeafPage (data : list slot) :
  BTreeIndex_count_records (NonLeafPage data)
  = sum_counts (map BTreeIndex_count_records (children_of data)).
Proof.
  cbn [BTreeIndex_count_records].
  match goal with
  | |- ?f data _ = _ =>
      assert (H : forall l count,
                 f l count
                 = option_map (Nat.add count)
                     (sum_counts (map BTreeIndex_count_records (children_of l))))
  end.
  { induction l as [| a | a b l IH] using list_ind2; intros count; simpl.
    - f_equal. lia.
    - destruct (BTreeIndex_count_records a); simpl; [f_equal; lia | reflexivity].
    - destruct (BTreeIndex_count_records a) as [n |]; [| reflexivity].
      rewrite IH. destruct (sum_counts _); simpl; [f_equal; lia | reflexivity]. }
  rewrite H. destruct (sum_counts _); reflexivity.
Qed.

(** The sum over the children of a well-shaped payload of a count that is
    0 on keys. *)
Lemma sum_counts_alternating (f : slot -> option nat) (g : slot -> nat) (data : list slot) :
  (forall k, g (Key k) = 0%nat) ->
  alternating page_ok data ->
  Forall (fun c => page_ok c -> f c = Some (g c)) data ->
  sum_counts (map f (children_of data)) = Some (list_sum (map g data)).
Proof.
  intros Hkey Halt. induction Halt as [| c Hc | c k rest Hc Hrest IH]; intros Hall.
  - reflexivity.
  - inversion Hall as [| c0 l0 Hpc _]; subst. simpl. rewrite (Hpc Hc). reflexivity.
  - inversion Hall as [| c0 l0 Hpc Hall']; subst.
    inversion Hall' as [| k0 l1 _ Hall'']; subst.
    simpl. rewrite (Hpc Hc), (IH Hall''), Hkey. reflexivity.
Qed.

Lemma length_flat_map {A B : Type} (f : A -> list B) (l : list A) :
  length (flat_map f l) = list_sum (map (fun x => length (f x)) l).
Proof.
  induction l as [| x l IH]; simpl; [reflexivity|]. rewrite length_app, IH. reflexivity.
Qed.

Lemma BTreeIndex_count_records_ok (p : slot) :
  page_ok p -> BTreeIndex_count_records p = Some (length (records_of p)).
Proof.
  induction p as [k | data | data IH] using slot_ind_nested; intros Hok.
  - inversion Hok.
  - reflexivity.
  - inversion Hok as [| data' Hlen Halt]; subst.
    rewrite BTreeIndex_count_records_NonLeafPage, records_of_NonLeafPage, length_flat_map.
    apply (@sum_counts_alternating _ (fun c => length (records_of c)));
      [reflexivity | exact Halt | exact IH].
Qed.

Lemma BTreeIndex_count_leaf_nodes_ok (p : slot) :
  page_ok p -> BTreeIndex_count_leaf_nodes p = Some (length (leaves_of p)).
Proof.
  induction p as [k | data | data IH] using slot_ind_nested; intros Hok.
  - inversion Hok.
  - reflexivity.
  - inversion Hok as [| data' Hlen Halt]; subst.
    rewrite BTreeIndex_count_leaf_nodes_NonLeafPage. cbn [leaves_of].
    rewrite length_flat_map.
    apply (@sum_counts_alternating _ (fun c => length (leaves_of c)));
      [reflexivity | exact Halt | exact IH].
Qed.

Lemma list_sum_map_add {A : Type} (f g : A -> nat) (l : list A) :
  list_sum (map (fun x => (f x + g x)%nat) l) = (list_sum (map f l) + list_sum (map g l))%nat.
Proof. induction l as [| x l IH]; simpl; [reflexivity | rewrite IH; lia]. Qed.

Lemma BTreeIndex_count_nodes_ok (p : slot) :
  page_ok p ->
  BTreeIndex_count_nodes p = Some (length (leaves_of p) + internal_pages p)%nat.
Proof.
  induction p as [k | data | data IH] using slot_ind_nested; intros Hok.
  - inversion Hok.
  - reflexivity.
  - inversion Hok as [| data' Hlen Halt]; subst.
    rewrite BTreeIndex_count_nodes_NonLeafPage.
    rewrite (@sum_counts_alternating _ (fun c => (length (leaves_of c) + internal_pages c)%nat)
               data (fun _ => eq_refl) Halt IH).
    cbn [leaves_of internal_pages option_map].
    rewrite length_flat_map, list_sum_map_add. f_equal. lia.
Qed.

Lemma BTreeIndex_get_statistics_ok (p : slot) :
  page_ok p ->
  exists h,
    BTreeIndex_get_height p = Some h /\
    BTreeIndex_get_statistics p
    = Some {| stat_height := h;
              stat_num_nodes := length (leaves_of p) + internal_pages p;
              stat_num_leaf_nodes := length (leaves_of p);
              stat_num_records := length (records_of p) |}.
Proof.
  intros Hok. destruct (page_ok_height Hok) as [h Hh]. exists h. split; [exact Hh|].
  unfold BTreeIndex_get_statistics.
  rewrite Hh, (BTreeIndex_count_nodes_ok Hok), (BTreeIndex_count_leaf_nodes_ok Hok),
    (BTreeIndex_count_records_ok Hok).
  reflexivity.
Qed.

(** What an insert and a remove do to the numbers of leaves and of internal
    pages. *)
Lemma TreePage_split_pages (p a b : slot) :
  TreePage_split p = Some (a, b) ->
  (length (leaves_of p) <= length (leaves_of a) + length (leaves_of b))%nat /\
  (internal_pages p <= internal_pages a + internal_pages b)%nat.
Proof.
  destruct p as [k | data | data]; cbn [TreePage_split]; [discriminate | |].
  - unfold LeafPage_split. intros H. injection H as <- <-. simpl. lia.
  - destruct (NonLeafPage_split data) as [x y] eqn:Hsplit.
    intros H. injection H as <- <-.
    destruct (NonLeafPage_split_mid data) as (mid & Hmid & _).
    rewrite Hsplit in Hmid. injection Hmid as -> ->.
    cbn [leaves_of internal_pages].
    rewrite <- (firstn_skipn mid data) at 1 4.
    rewrite flat_map_app, length_app, map_app, list_sum_app. lia.
Qed.

Lemma inserted_pages (r : record) (p p' : slot) :
  inserted r p p' ->
  (length (leaves_of p) <= length (leaves_of p'))%nat /\
  (internal_pages p <= internal_pages p')%nat.
Proof.
  induction 1 as [data data' Hins | data Hpos | pre c c' post Hev Hpos Hins IH Hfits
                 | pre c c' a b k post Hev Hpos Hins IH Hover Hsplit Hsep].
  - simpl. lia.
  - lia.
  - rewrite !leaves_of_middle. cbn [internal_pages].
    rewrite !length_app, !map_app, !list_sum_app. simpl. lia.
  - destruct (TreePage_split_pages _ Hsplit) as [Hl Hi].
    rewrite leaves_of_middle. cbn [leaves_of internal_pages].
    rewrite flat_map_app. simpl.
    rewrite !length_app, !map_app, !list_sum_app. simpl. rewrite ?length_app. lia.
Qed.

Lemma removed_pages (key : Z) (p p' : slot) (b : bool) :
  removed key p p' b ->
  length (leaves_of p') = length (leaves_of p) /\ internal_pages p' = internal_pages p.
Proof.
  induction 1 as [data data' b Hrem | data Hpos | pre c c' post b Hev Hpos Hrem IH].
  - split; reflexivity.
  - split; reflexivity.
  - rewrite !leaves_of_middle. cbn [internal_pages].
    rewrite !length_app, !map_app, !list_sum_app. simpl. lia.
Qed.

(** What the driver's insert does to the records, the pages and the
    height. *)
Lemma BTreeIndex_insert_spec (r : record) (root : slot) :
  0 <= size -> root_ok root ->
  exists root' h h',
    BTreeIndex_insert root r = Some root' /\ root_ok root' /\
    (records_of root' = records_of root \/
     exists l1 l2, records_of root = l1 ++ l2 /\ records_of root' = l1 ++ r :: l2) /\
    (length (leaves_of root) <= length (leaves_of root'))%nat /\
    (internal_pages root <= internal_pages root')%nat /\
    BTreeIndex_get_height root = Some h /\ BTreeIndex_get_height root' = Some h' /\
    (h <= h' <= S h)%nat.
Proof.
  intros Hsize Hroot.
  destruct (BTreeIndex_insert_ok r Hsize Hroot)
    as (root1 & root' & h & Hins & Hdrv & Hh & Hok' & Hsplit & Hkeep).
  destruct (TreePage_insert_shape r Hsize (proj1 Hroot)) as (root1' & Hins' & Hshape).
  rewrite Hins in Hins'. injection Hins' as <-.
  destruct (inserted_pages Hshape) as [Hl Hi].
  pose proof (inserted_records Hshape) as Hrec.
  destruct (Z_gt_le_dec (used_space root1) size) as [Hgt | Hle].
  - destruct (Hsplit Hgt) as (old & new & sep & Hsp & _ & -> & Hh').
    destruct (TreePage_split_pages _ Hsp) as [Hl' Hi'].
    exists (NonLeafPage [old; Key sep; new]), h, (S h).
    split; [exact Hdrv|]. split; [exact Hok'|]. split.
    { rewrite records_of_NonLeafPage. simpl. rewrite !app_nil_r.
      rewrite (TreePage_split_records _ Hsp). exact Hrec. }
    split; [simpl; rewrite app_nil_r, length_app; lia|].
    split; [simpl; lia|].
    split; [exact Hh|]. split; [exact Hh'|]. lia.
  - destruct (Hkeep Hle) as [-> Hh'].
    exists root1, h, h.
    split; [exact Hdrv|]. split; [exact Hok'|]. split; [exact Hrec|].
    split; [exact Hl|]. split; [exact Hi|].
    split; [exact Hh|]. split; [exact Hh'|]. lia.
Qed.

(** X8. [BTreeIndex.get_statistics] returns on every tree built from a
    fresh index; [num_records] is the number of records stored in the leaves
    (whether or not a point search reaches them), so no range search returns
    more; [num_leaf_nodes] is the number of leaves and [num_nodes] exceeds it
    by the number of internal pages: the two agree exactly when the root is a
    leaf, and then they and the height are 1. *)
Theorem BTreeIndex_get_statistics_counts (ops : list tree_op) (root : slot) :
  0 <= size ->
  BTreeIndex_run BTreeIndex_init ops = Some root ->
  exists st,
    BTreeIndex_get_statistics root = Some st /\
    stat_num_records st = length (records_of root) /\
    stat_num_leaf_nodes st = length (leaves_of root) /\
    stat_num_nodes st = (stat_num_leaf_nodes st + internal_pages root)%nat /\
    match root with
    | LeafPage _ =>
        stat_height st = 1%nat /\ stat_num_nodes st = 1%nat /\ stat_num_leaf_nodes st = 1%nat
    | _ => (stat_num_leaf_nodes st < stat_num_nodes st)%nat
    end /\
    (forall min_key max_key found,
       BTreeIndex_range_search root min_key max_key = Some found ->
       (length found <= stat_num_records st)%nat).
Proof.
  intros Hsize Hrun.
  pose proof (BTreeIndex_run_root_ok ops Hsize Hrun) as Hroot.
  destruct (BTreeIndex_get_statistics_ok (proj1 Hroot)) as (h & Hh & Hst).
  eexists. split; [exact Hst|]. cbn [stat_height stat_num_nodes stat_num_leaf_nodes stat_num_records].
  split; [reflexivity|]. split; [reflexivity|]. split; [reflexivity|]. split.
  - destruct root as [k | data | data].
    + destruct Hroot as [Hok _]. inversion Hok.
    + simpl in *. injection Hh as <-. repeat split.
    + cbn [internal_pages]. lia.
  - intros min_key max_key found Hfound.
    unfold BTreeIndex_range_search in Hfound.
    rewrite (BTreeIndex_range_search_helper_ok min_key max_key (proj1 Hroot)) in Hfound.
    injection Hfound as <-. apply filter_length_le.
Qed.

(** X9. How the statistics move: an insert adds at most one to
    [num_records], never lowers [num_nodes] or [num_leaf_nodes], and raises
    the height by at most one; a remove takes exactly one from [num_records]
    when it returns [True] and nothing otherwise, and it never changes
    [num_nodes], [num_leaf_nodes] or the height (no page is ever freed or
    merged). *)
Theorem BTreeIndex_get_statistics_steps (ops : list tree_op) (root : slot) :
  0 <= size ->
  BTreeIndex_run BTreeIndex_init ops = Some root ->
  exists st,
    BTreeIndex_get_statistics root = Some st /\
    (forall r, exists root' st',
       BTreeIndex_insert root r = Some root' /\
       BTreeIndex_get_statistics root' = Some st' /\
       (stat_num_records st' = stat_num_records st \/
        stat_num_records st' = S (stat_num_records st)) /\
       (stat_num_nodes st <= stat_num_nodes st')%nat /\
       (stat_num_leaf_nodes st <= stat_num_leaf_nodes st')%nat /\
       (stat_height st <= stat_height st' <= S (stat_height st))%nat) /\
    (forall key, exists root' b st',
       BTreeIndex_remove root key = Some (root', b) /\
       BTreeIndex_get_statistics root' = Some st' /\
       stat_num_records st = (if b then S (stat_num_records st') else stat_num_records st') /\
       stat_num_nodes st' = stat_num_nodes st /\
       stat_num_leaf_nodes st' = stat_num_leaf_nodes st /\
       stat_height st' = stat_height st).
Proof.
  intros Hsize Hrun.
  pose proof (BTreeIndex_run_root_ok ops Hsize Hrun) as Hroot.
  destruct (BTreeIndex_get_statistics_ok (proj1 Hroot)) as (h & Hh & Hst).
  eexists. split; [exact Hst|].
  cbn [stat_height stat_num_nodes stat_num_leaf_nodes stat_num_records]. split.
  - intros r.
    destruct (BTreeIndex_insert_spec r Hsize Hroot)
      as (root' & h0 & h' & Hins & Hok' & Hrec & Hl & Hi & Hh0 & Hh' & Hle).
    rewrite Hh in Hh0. injection Hh0 as <-.
    destruct (BTreeIndex_get_statistics_ok (proj1 Hok')) as (h'' & Hh'' & Hst').
    rewrite Hh' in Hh''. injection Hh'' as <-.
    exists root'. eexists. split; [exact Hins|]. split; [exact Hst'|].
    cbn [stat_height stat_num_nodes stat_num_leaf_nodes stat_num_records].
    split; [| split; [lia | split; [exact Hl | exact Hle]]].
    destruct Hrec as [-> | (l1 & l2 & -> & ->)]; [left; reflexivity|].
    right. rewrite !length_app. simpl. lia.
  - intros key.
    destruct (BTreeIndex_remove_ok key Hroot) as (root1 & b & Hrem & _ & Hdrv & _ & Hok1 & Hh1).
    destruct (TreePage_remove_shape key (proj1 Hroot)) as (root1' & b' & Hrem' & Hshape).
    rewrite Hrem in Hrem'. injection Hrem' as <- <-.
    destruct (removed_pages Hshape) as [Hl Hi].
    destruct (removed_spec Hshape) as (found & _ & _ & _ & Hrec & _).
    destruct (BTreeIndex_get_statistics_ok (proj1 Hok1)) as (h1 & Hh1' & Hst1).
    rewrite Hh1, Hh in Hh1'. injection Hh1' as <-.
    exists root1, b. eexists. split; [exact Hdrv|]. split; [exact Hst1|].
    cbn [stat_height stat_num_nodes stat_num_leaf_nodes stat_num_records].
    split; [| split; [lia | split; [exact Hl | reflexivity]]].
    destruct b.
    + destruct Hrec as (l1 & x & l2 & -> & _ & -> & _). rewrite !length_app. simpl. lia.
    + rewrite Hrec. reflexivity.
Qed.

(** ** Keys by position *)

Lemma NonLeafPage_get_key_list_nth (data : list slot) (i : nat) :
  nth_error (NonLeafPage_get_key_list data) i = nth_error data (i * 2 + 1).
Proof.
  revert i. induction data as [| a | a b data IH] using list_ind2; intros i.
  - destruct i; reflexivity.
  - destruct i; simpl; [reflexivity|]. destruct (i * 2 + 1)%nat; reflexivity.
  - destruct i; simpl; [reflexivity|]. apply IH.
Qed.

(** X11. [get_key] against [get_key_list].  On a leaf, [get_key(i)] is the
    [i]-th key for [0 <= i < len] and [None] for every other [i], negative
    ones included; the separator promoted with a new leaf is its
    [get_key(0)].  On an internal page, [get_key(i)] for [i >= 0] is the
    [i]-th entry of [get_key_list()], and [None] past the last key; but
    [get_key(-1)] on a payload that is not empty is not [None]: it is the
    last slot of the payload. *)
Theorem get_key_by_position :
  (forall (data : list record) (position : Z),
     LeafPage_get_key data position
     = if (0 <=? position) && (position <? Z.of_nat (length data))
       then nth_error (LeafPage_get_key_list data) (Z.to_nat position)
       else None) /\
  (forall (r : record) (rest : list record),
     separator_key (LeafPage (r :: rest))
     = option_map Key (LeafPage_get_key (r :: rest) 0)) /\
  (forall (data : list slot) (position : Z),
     0 <= position ->
     NonLeafPage_get_key data position
     = Some (nth_error (NonLeafPage_get_key_list data) (Z.to_nat position))) /\
  (forall (data : list slot) (position : Z),
     Z.of_nat (length data / 2) <= position ->
     NonLeafPage_get_key data position = Some None) /\
  (forall (data : list slot) (last : slot),
     NonLeafPage_get_key (data ++ [last]) (-1) = Some (Some last)).
Proof.
  split; [|split; [|split; [|split]]].
  - intros data position. unfold LeafPage_get_key, LeafPage_get_key_list.
    rewrite nth_error_map. reflexivity.
  - reflexivity.
  - intros data position Hpos. unfold NonLeafPage_get_key.
    rewrite NonLeafPage_get_key_list_nth.
    destruct (Z.ltb_spec (position * 2 + 1) (Z.of_nat (length data))) as [Hlt | Hge].
    + unfold py_getitem. rewrite py_index_nonneg by lia.
      replace (Z.to_nat (position * 2 + 1)) with (Z.to_nat position * 2 + 1)%nat by lia.
      destruct (nth_error data (Z.to_nat position * 2 + 1)) as [s |] eqn:Hnth; [reflexivity|].
      apply nth_error_None in Hnth. lia.
    + f_equal. symmetry. apply nth_error_None. lia.
  - intros data position Hpos. unfold NonLeafPage_get_key.
    pose proof (Nat.div_mod_eq (length data) 2) as Hdm.
    pose proof (Nat.mod_upper_bound (length data) 2) as Hub.
    destruct (Z.ltb_spec (position * 2 + 1) (Z.of_nat (length data))) as [Hlt | Hge];
      [| reflexivity].
    generalize dependent (length data / 2)%nat. intros; lia.
  - intros data last. unfold NonLeafPage_get_key.
    change (-1 * 2 + 1) with (-1).
    assert (Hlen : length (data ++ [last]) = S (length data))
      by (rewrite length_app; simpl; lia).
    destruct (Z.ltb_spec (-1) (Z.of_nat (length (data ++ [last])))) as [_ | Hge]; [| lia].
    unfold py_getitem, py_index. rewrite Hlen.
    destruct (Z.leb_spec 0 (-1)) as [Hle | _]; [lia|].
    destruct (Z.leb_spec (- Z.of_nat (S (length data))) (-1)) as [_ | Hlt]; [| lia].
    replace (Z.to_nat (Z.of_nat (S (length data)) + -1)) with (length data) by lia.
    rewrite nth_error_middle. reflexivity.
Qed.

(** ** The sibling to borrow from *)

Lemma alternating_even_nth (P : slot -> Prop) (data : list slot) (i : nat) :
  alternating P data -> Nat.even i = true -> (i < length data)%nat ->
  exists c, nth_error data i = Some c /\ P c.
Proof.
  intros Halt Hev Hlt.
  destruct (split_at data Hlt) as (pre & c & post & -> & Hpre).
  rewrite <- Hpre in Hev.
  destruct (proj1 (alternating_app P pre (c :: post) Hev) Halt) as [_ Hapost].
  exists c. split; [rewrite <- Hpre; apply nth_error_middle|].
  inversion Hapost; assumption.
Qed.

Lemma page_ok_len (p : slot) : page_ok p -> exists n, page_len p = Some n.
Proof. intros Hok. destruct Hok; eexists; reflexivity. Qed.

(** X12. [NonLeafPage._borrow_sibling] for the position of a child of a
    well-shaped payload: it returns [None] only when the payload holds a
    single child; otherwise it returns the position of a child two slots to
    the left or to the
    right, inside the payload, and no neighbour of the child has a longer
    payload than the one chosen (with equal lengths it is the right one).
    [_join_child] then returns the child it was given, unchanged. *)
Theorem NonLeafPage_borrow_sibling_spec (data : list slot) (child_pos : nat) (child : slot) :
  alternating page_ok data -> Nat.even child_pos = true -> (child_pos < length data)%nat ->
  exists res,
    NonLeafPage_borrow_sibling data child_pos = Some res /\
    NonLeafPage_join_child data child_pos child = Some child /\
    match res with
    | None => (length data <= 2)%nat
    | Some s =>
        (s + 2 = child_pos \/ s = child_pos + 2)%nat /\
        exists sibling n,
          nth_error data s = Some sibling /\ page_ok sibling /\ page_len sibling = Some n /\
          (forall s' other m,
             (s' + 2 = child_pos \/ s' = child_pos + 2)%nat ->
             nth_error data s' = Some other -> page_len other = Some m ->
             (m <= n)%nat /\ (m = n -> (s' <= s)%nat))
    end.
Proof.
  intros Halt Hev Hlt.
  assert (Hsib : forall s, (s + 2 = child_pos \/ s = child_pos + 2)%nat ->
                           (s < length data)%nat ->
                           exists c n, nth_error data s = Some c /\ page_ok c /\
                                       page_len c = Some n).
  { intros s Hs Hsl.
    assert (Hevs : Nat.even s = true).
    { destruct Hs as [Hs | Hs].
      - rewrite <- Hs, Nat.even_add in Hev. simpl in Hev.
        destruct (Nat.even s); [reflexivity | discriminate].
      - rewrite Hs, Nat.even_add, Hev. reflexivity. }
    destruct (@alternating_even_nth page_ok data s Halt Hevs Hsl) as (c & Hc & Hokc).
    destruct (page_ok_len Hokc) as [n Hn]. exists c, n. repeat split; assumption. }
  assert (Hwhich : forall s' other m,
             (s' + 2 = child_pos \/ s' = child_pos + 2)%nat ->
             nth_error data s' = Some other -> page_len other = Some m ->
             ((s' + 2 = child_pos)%nat /\
              forall cl nl, nth_error data (child_pos - 2) = Some cl ->
                            page_len cl = Some nl -> m = nl) \/
             ((s' = child_pos + 2)%nat /\ (child_pos + 2 < length data)%nat /\
              forall cr nr, nth_error data (child_pos + 2) = Some cr ->
                            page_len cr = Some nr -> m = nr)).
  { intros s' other m [Hs' | Hs'] Hother Hm.
    - left. split; [exact Hs'|]. intros cl nl Hcl Hnl.
      replace s' with (child_pos - 2)%nat in Hother by lia. congruence.
    - right. split; [exact Hs'|]. subst s'. split.
      + apply nth_error_Some. congruence.
      + intros cr nr Hcr Hnr. congruence. }
  cut (exists res,
         NonLeafPage_borrow_sibling data child_pos = Some res /\
         match res with
         | None => (length data <= 2)%nat
         | Some s =>
             (s + 2 = child_pos \/ s = child_pos + 2)%nat /\
             exists sibling n,
               nth_error data s = Some sibling /\ page_ok sibling /\
               page_len sibling = Some n /\
               (forall s' other m,
                  (s' + 2 = child_pos \/ s' = child_pos + 2)%nat ->
                  nth_error data s' = Some other -> page_len other = Some m ->
                  (m <= n)%nat /\ (m = n -> (s' <= s)%nat))
         end).
  { intros (res & Hres & Hspec). exists res. split; [exact Hres|]. split; [| exact Hspec].
    unfold NonLeafPage_join_child. rewrite Hres. reflexivity. }
  unfold NonLeafPage_borrow_sibling.
  destruct (Nat.leb_spec 2 child_pos) as [Hl | Hl];
    destruct (Nat.ltb_spec (child_pos + 2) (length data)) as [Hr | Hr].
  - destruct (Hsib (child_pos - 2)%nat) as (cl & nl & Hcl & Hokl & Hnl); [lia | lia |].
    destruct (Hsib (child_pos + 2)%nat) as (cr & nr & Hcr & Hokr & Hnr); [lia | lia |].
    rewrite Hcl, Hcr, Hnl, Hnr.
    destruct (Nat.ltb_spec nr nl) as [Hlt' | Hge'].
    + eexists. split; [reflexivity|].
      split; [lia|]. exists cl, nl.
      split; [exact Hcl|]. split; [exact Hokl|]. split; [exact Hnl|].
      intros s' other m Hs' Hother Hm.
      destruct (Hwhich s' other m Hs' Hother Hm) as [(H1 & H3) | (H1 & H2 & H3)];
        [specialize (H3 _ _ Hcl Hnl) | specialize (H3 _ _ Hcr Hnr)]; lia.
    + eexists. split; [reflexivity|].
      split; [lia|]. exists cr, nr.
      split; [exact Hcr|]. split; [exact Hokr|]. split; [exact Hnr|].
      intros s' other m Hs' Hother Hm.
      destruct (Hwhich s' other m Hs' Hother Hm) as [(H1 & H3) | (H1 & H2 & H3)];
        [specialize (H3 _ _ Hcl Hnl) | specialize (H3 _ _ Hcr Hnr)]; lia.
  - destruct (Hsib (child_pos - 2)%nat) as (cl & nl & Hcl & Hokl & Hnl); [lia | lia |].
    eexists. split; [reflexivity|].
    split; [lia|]. exists cl, nl.
    split; [exact Hcl|]. split; [exact Hokl|]. split; [exact Hnl|].
    intros s' other m Hs' Hother Hm.
    destruct (Hwhich s' other m Hs' Hother Hm) as [(H1 & H3) | (H1 & H2 & H3)];
      [specialize (H3 _ _ Hcl Hnl) |]; lia.
  - destruct (Hsib (child_pos + 2)%nat) as (cr & nr & Hcr & Hokr & Hnr); [lia | lia |].
    eexists. split; [reflexivity|].
    split; [lia|]. exists cr, nr.
    split; [exact Hcr|]. split; [exact Hokr|]. split; [exact Hnr|].
    intros s' other m Hs' Hother Hm.
    destruct (Hwhich s' other m Hs' Hother Hm) as [(H1 & H3) | (H1 & H2 & H3)];
      [| specialize (H3 _ _ Hcr Hnr)]; lia.
  - eexists. split; [reflexivity|].
    assert (Hc0 : child_pos = 0%nat).
    { destruct child_pos as [| [| n]]; [reflexivity | discriminate | lia]. }
    subst child_pos.
    inversion Halt as [Hnil | c Hc Hone | c k rest Hc Hrest Hcons]; subst; simpl in *; lia.
Qed.

(** ** Chains: insert, remove and search *)

Lemma find_append {A : Type} (f : A -> bool) (l1 l2 : list A) :
  find f (l1 ++ l2) = match find f l1 with Some x => Some x | None => find f l2 end.
Proof.
  induction l1 as [| a l1 IH]; simpl; [reflexivity|]. destruct (f a); [reflexivity | exact IH].
Qed.

Lemma HashPage_search_eq (data : list record) (overflow : option HashPage) (key : Z) :
  HashPage_search (mkHashPage data overflow) key
  = match find (fun r => rkey r =? key) data with
    | Some r => [r]
    | None => match overflow with Some o => HashPage_search o key | None => [] end
    end.
Proof. reflexivity. Qed.

(** An accepted insert is found afterwards, and no other key is disturbed. *)
Lemma HashPage_insert_search (p : HashPage) (kind : pyseq) (r : record) :
  forall p',
    HashPage_insert p kind r = Some (p', true) ->
    HashPage_search p' (rkey r) = [r] /\
    (forall key, key <> rkey r -> HashPage_search p' key = HashPage_search p key) /\
    (HashPage_count_overflow_pages p <= HashPage_count_overflow_pages p'
     <= S (HashPage_count_overflow_pages p))%nat.
Proof.
  assert (Hone : forall key, key <> rkey r ->
                             find (fun x => rkey x =? key) [r] = None).
  { intros key Hne. simpl. destruct (Z.eqb_spec (rkey r) key); [congruence | reflexivity]. }
  induction p as [data | data o IH] using HashPage_chain_ind; intros p' H;
    rewrite HashPage_insert_eq in H;
    destruct (py_truthy _) eqn:Ht; try discriminate;
    apply py_truthy_false in Ht; rewrite HashPage_search_eq in Ht;
    destruct (find (fun x => rkey x =? rkey r) data) as [x |] eqn:Hfind; try discriminate;
    destruct (get_size_tuples data + get_size_record kind r <=? size).
  - injection H as <-. split; [|split; [| simpl; lia]].
    + rewrite HashPage_search_eq, find_append, Hfind. simpl. rewrite Z.eqb_refl. reflexivity.
    + intros key Hne. rewrite !HashPage_search_eq, find_append, (Hone key Hne).
      destruct (find (fun x => rkey x =? key) data); reflexivity.
  - destruct (get_size_tuples [] + get_size_record kind r <=? size); [|discriminate].
    injection H as <-. split; [|split; [| simpl; lia]].
    + rewrite !HashPage_search_eq, Hfind. simpl. rewrite Z.eqb_refl. reflexivity.
    + intros key Hne. rewrite !HashPage_search_eq, (Hone key Hne).
      destruct (find (fun x => rkey x =? key) data); reflexivity.
  - injection H as <-. split; [|split; [| simpl; lia]].
    + rewrite HashPage_search_eq, find_append, Hfind. simpl. rewrite Z.eqb_refl. reflexivity.
    + intros key Hne. rewrite !HashPage_search_eq, find_append, (Hone key Hne).
      destruct (find (fun x => rkey x =? key) data); reflexivity.
  - destruct (HashPage_insert o kind r) as [[o' b] |] eqn:Ho; [|discriminate].
    injection H as <- ->. destruct (IH o' eq_refl) as (Hs & Hother & Hcount).
    split; [|split; [| simpl; lia]].
    + rewrite HashPage_search_eq, Hfind. exact Hs.
    + intros key Hne. rewrite !HashPage_search_eq, (Hother key Hne). reflexivity.
Qed.

(** X13. [HashPage.insert] on a chain returns [False] exactly when a search
    of the chain already finds the key, and then changes nothing; when it
    returns [True], a search for the key finds the new record, a search for
    any other key returns what it returned before, and the chain has grown
    by at most one overflow page. *)
Theorem HashPage_insert_then_search (p p' : HashPage) (kind : pyseq) (r : record)
  (inserted : bool) :
  HashPage_insert p kind r = Some (p', inserted) ->
  (inserted = false <-> HashPage_search p (rkey r) <> []) /\
  (inserted = false -> p' = p) /\
  (inserted = true -> HashPage_search p' (rkey r) = [r]) /\
  (forall key, key <> rkey r -> HashPage_search p' key = HashPage_search p key) /\
  (HashPage_count_overflow_pages p <= HashPage_count_overflow_pages p'
   <= S (HashPage_count_overflow_pages p))%nat.
Proof.
  intros H. destruct inserted.
  - destruct (HashPage_insert_search _ _ _ H) as (Hs & Hother & Hcount).
    destruct (HashPage_insert_true _ _ _ H) as [Hnil _].
    split; [split; [discriminate | intros Hne; contradiction]|].
    split; [discriminate|]. split; [intros _; exact Hs|]. split; assumption.
  - destruct (HashPage_insert_false _ _ _ H) as [-> Hfound].
    split; [split; [intros _; exact Hfound | reflexivity]|].
    split; [reflexivity|]. split; [discriminate|]. split; [reflexivity | lia].
Qed.

Lemma LeafPage_remove_find (data : list record) (key : Z) :
  snd (LeafPage_remove data key) = true <-> find (fun r => rkey r =? key) data <> None.
Proof.
  induction data as [| r tl IH]; simpl.
  - split; [discriminate | congruence].
  - destruct (rkey r =? key); [split; [discriminate | reflexivity]|].
    destruct (LeafPage_remove tl key) as [tl' b]. exact IH.
Qed.

Lemma LeafPage_remove_find_other (data : list record) (key key' : Z) :
  key' <> key ->
  find (fun r => rkey r =? key') (fst (LeafPage_remove data key))
  = find (fun r => rkey r =? key') data.
Proof.
  intros Hne. induction data as [| r tl IH]; simpl; [reflexivity|].
  destruct (Z.eqb_spec (rkey r) key) as [Heq | Hneq]; simpl.
  - destruct (Z.eqb_spec (rkey r) key'); [congruence | reflexivity].
  - destruct (LeafPage_remove tl key) as [tl' b]. simpl in *.
    destruct (rkey r =? key'); [reflexivity | exact IH].
Qed.

(** What a remove does to a chain and to the searches. *)
Lemma HashPage_remove_search (p : HashPage) (key : Z) :
  (snd (HashPage_remove p key) = true <-> HashPage_search p key <> []) /\
  (snd (HashPage_remove p key) = false -> fst (HashPage_remove p key) = p) /\
  (forall key', key' <> key ->
     HashPage_search (fst (HashPage_remove p key)) key' = HashPage_search p key') /\
  HashPage_count_overflow_pages (fst (HashPage_remove p key))
  = HashPage_count_overflow_pages p.
Proof.
  induction p as [data | data o IH] using HashPage_chain_ind; cbn [HashPage_remove];
    pose proof (LeafPage_remove_find data key) as Hfind;
    pose proof (fun key' => @LeafPage_remove_find_other data key key') as Hother;
    destruct (LeafPage_remove data key) as [data' [|]]; cbn [fst snd] in *;
    rewrite !HashPage_search_eq.
  - split; [split; [intros _ | reflexivity]|].
    { destruct (find _ data); [discriminate | exfalso; apply (proj1 Hfind eq_refl); reflexivity]. }
    split; [discriminate|]. split; [| reflexivity].
    intros key' Hne. rewrite !HashPage_search_eq, (Hother key' Hne). reflexivity.
  - split; [split; [discriminate | intros Hne]|].
    { destruct (find _ data) eqn:Hf; [apply Hfind; discriminate | contradiction]. }
    split; [reflexivity|]. split; reflexivity.
  - split; [split; [intros _ | reflexivity]|].
    { destruct (find _ data); [discriminate | exfalso; apply (proj1 Hfind eq_refl); reflexivity]. }
    split; [discriminate|]. split; [| reflexivity].
    intros key' Hne. rewrite !HashPage_search_eq, (Hother key' Hne). reflexivity.
  - destruct IH as (Hb & Hsame & Hkeys & Hcount).
    destruct (HashPage_remove o key) as [o' b]. cbn [fst snd] in *.
    assert (Hnone : find (fun r => rkey r =? key) data = None).
    { destruct (find _ data); [| reflexivity].
      assert (false = true) by (apply Hfind; discriminate). discriminate. }
    rewrite Hnone. split; [exact Hb|].
    split; [intros Hf; rewrite (Hsame Hf); reflexivity|].
    split; [| simpl; rewrite Hcount; reflexivity].
    intros key' Hne. rewrite !HashPage_search_eq, (Hkeys key' Hne). reflexivity.
Qed.

Lemma HashPage_search_short (p : HashPage) (key : Z) :
  (length (HashPage_search p key) <= 1)%nat.
Proof.
  induction p as [data | data o IH] using HashPage_chain_ind; rewrite HashPage_search_eq;
    destruct (find _ data); simpl; lia.
Qed.

Lemma HashPage_search_iff (p : HashPage) (key : Z) (r : record) :
  NoDup (map rkey (HashPage_get_all_records p)) ->
  In r (HashPage_search p key) <-> In r (HashPage_get_all_records p) /\ rkey r = key.
Proof.
  intros Hnd. split; [apply HashPage_search_In|].
  intros [Hin <-]. rewrite (HashPage_search_found _ _ Hnd Hin). left. reflexivity.
Qed.

(** X14. [HashPage.remove] on a chain returns [True] exactly when a search
    of the chain finds the key.  It leaves every other key's search result
    as it was, and when no key occurs twice in the chain the key is not found
    afterwards.  A remove that returns [False] changes nothing, and no remove
    ever unlinks an overflow page, even one it empties. *)
Theorem HashPage_remove_then_search (p : HashPage) (key : Z) :
  (snd (HashPage_remove p key) = true <-> HashPage_search p key <> []) /\
  (snd (HashPage_remove p key) = false -> fst (HashPage_remove p key) = p) /\
  (forall key', key' <> key ->
     HashPage_search (fst (HashPage_remove p key)) key' = HashPage_search p key') /\
  (NoDup (map rkey (HashPage_get_all_records p)) ->
     HashPage_search (fst (HashPage_remove p key)) key = []) /\
  HashPage_count_overflow_pages (fst (HashPage_remove p key))
  = HashPage_count_overflow_pages p /\
  HashPage_has_overflow (fst (HashPage_remove p key)) = HashPage_has_overflow p.
Proof.
  destruct (HashPage_remove_search p key) as (Hb & Hsame & Hother & Hcount).
  split; [exact Hb|]. split; [exact Hsame|]. split; [exact Hother|].
  split; [| split; [exact Hcount|]].
  - intros Hnd.
    destruct (HashPage_remove_spec p key)
      as [Hrem | (p' & l1 & x & l2 & Hrem & Hall & Hall')]; rewrite Hrem in *; cbn [fst snd] in *.
    + destruct (HashPage_search p key) eqn:Hs; [reflexivity|].
      assert (false = true) by (apply Hb; discriminate). discriminate.
    + apply HashPage_search_fresh. rewrite Hall'.
      assert (Hx : rkey x = key).
      { assert (Hne : HashPage_search p key <> []) by (apply Hb; reflexivity).
        destruct (HashPage_search p key) as [| y l] eqn:Hs; [contradiction|].
        assert (Hy : In y (HashPage_search p key)) by (rewrite Hs; left; reflexivity).
        apply HashPage_search_In in Hy. destruct Hy as [Hy Hk].
        destruct (HashPage_remove_search p (rkey x)) as (Hbx & _).
        rewrite Hall, map_app in Hnd. simpl in Hnd.
        pose proof (NoDup_remove_2 _ _ _ Hnd) as Hnotin.
        rewrite Hall in Hy. apply in_app_or in Hy.
        destruct (Z.eq_dec (rkey x) key) as [Heq | Hneq]; [exact Heq|].
        exfalso.
        pose proof (Hother (rkey x) Hneq) as Hkeep.
        assert (Hin : In x (HashPage_get_all_records p))
          by (rewrite Hall; apply in_or_app; right; left; reflexivity).
        pose proof (HashPage_search_In_nonempty _ _ Hin) as Hfound.
        rewrite <- Hkeep in Hfound.
        apply Hfound. apply HashPage_search_fresh. rewrite Hall', map_app. exact Hnotin. }
      rewrite Hall, map_app in Hnd. simpl in Hnd. rewrite <- Hx, map_app.
      apply (NoDup_remove_2 _ _ _ Hnd).
  - destruct p as [data [o |]]; cbn [HashPage_remove];
      destruct (LeafPage_remove data key) as [data' [|]]; try reflexivity.
    destruct (HashPage_remove o key). reflexivity.
Qed.


(** ** Searches of the engine *)

Lemma bucket_of_range (d : nat) (sp key : Z) :
  0 < initial_buckets ->
  0 <= sp < 2 ^ Z.of_nat d * initial_buckets ->
  0 <= bucket_of d sp key < 2 ^ Z.of_nat d * initial_buckets + sp.
Proof.
  intros HN0 Hsp. unfold bucket_of. cbv zeta.
  pose proof (pow2_level_pos d HN0) as Hm.
  pose proof (Z.mod_pos_bound key _ Hm) as Hi.
  destruct (Z.ltb_spec (key mod (2 ^ Z.of_nat d * initial_buckets)) sp) as [Hlt | Hge]; [| lia].
  rewrite pow2_level_succ.
  destruct (mod_double key Hm) as [-> | ->]; lia.
Qed.

(** A search reads the chain its key is addressed to. *)
Lemma LinearHashIndex_search_bucket (s : LinearHashIndex) (key : Z) :
  0 < initial_buckets ->
  hash_inv (_level s) (_next_split s) (_buckets s) ->
  exists bucket,
    nth_error (_buckets s) (Z.to_nat (bucket_of (_level s) (_next_split s) key)) = Some bucket /\
    LinearHashIndex_search s key = Some (HashPage_search bucket key).
Proof.
  intros HN0 Hinv.
  pose proof (@bucket_of_range (_level s) (_next_split s) key HN0 (inv_pointer Hinv)) as Hrange.
  rewrite <- (inv_length Hinv) in Hrange.
  unfold LinearHashIndex_search. rewrite (_get_bucket_index_eq s key HN0).
  unfold py_getitem. rewrite py_index_nonneg by exact Hrange.
  destruct (nth_error (_buckets s) (Z.to_nat (bucket_of (_level s) (_next_split s) key)))
    as [bucket |] eqn:Hnth.
  - exists bucket. split; reflexivity.
  - apply nth_error_None in Hnth. lia.
Qed.

Lemma stored_records_In (s : LinearHashIndex) (x : record) :
  In x (stored_records s) <->
  exists pos bucket, nth_error (_buckets s) pos = Some bucket /\
                     In x (HashPage_get_all_records bucket).
Proof.
  unfold stored_records. rewrite in_flat_map. split.
  - intros (bucket & Hb & Hx). apply In_nth_error in Hb. destruct Hb as [pos Hpos].
    exists pos, bucket. split; assumption.
  - intros (pos & bucket & Hpos & Hx). exists bucket. split; [| exact Hx].
    eapply nth_error_In. exact Hpos.
Qed.

(** A search returns the stored records with the key: at most one. *)
Lemma LinearHashIndex_search_members (s : LinearHashIndex) (key : Z) :
  0 < initial_buckets ->
  hash_inv (_level s) (_next_split s) (_buckets s) ->
  exists found,
    LinearHashIndex_search s key = Some found /\
    (length found <= 1)%nat /\
    (forall x, In x found <-> In x (stored_records s) /\ rkey x = key).
Proof.
  intros HN0 Hinv.
  destruct (@LinearHashIndex_search_bucket s key HN0 Hinv) as (bucket & Hnth & Hsearch).
  exists (HashPage_search bucket key). split; [exact Hsearch|].
  split; [apply HashPage_search_short|].
  assert (Hnd : NoDup (map rkey (HashPage_get_all_records bucket))).
  { apply (inv_distinct Hinv). eapply nth_error_In. exact Hnth. }
  intros x. rewrite (@HashPage_search_iff bucket key x Hnd). split.
  - intros [Hx Hk]. split; [| exact Hk].
    apply stored_records_In. eexists. exists bucket. split; [exact Hnth | exact Hx].
  - intros [Hx Hk]. split; [| exact Hk].
    apply stored_records_In in Hx. destruct Hx as (pos & b & Hpos & Hx).
    pose proof (inv_address Hinv _ _ Hpos Hx) as Haddr.
    rewrite Hk in Haddr. rewrite Haddr, Nat2Z.id in Hnth.
    rewrite Hpos in Hnth. injection Hnth as <-. exact Hx.
Qed.

Lemma short_lists_eq {A : Type} (l1 l2 : list A) :
  (length l1 <= 1)%nat -> (length l2 <= 1)%nat ->
  (forall x, In x l1 <-> In x l2) -> l1 = l2.
Proof.
  intros H1 H2 H.
  destruct l1 as [| a [| ? ?]], l2 as [| b [| ? ?]]; simpl in *; try lia.
  - reflexivity.
  - exfalso. apply (H b). left. reflexivity.
  - exfalso. apply (H a). left. reflexivity.
  - destruct (proj1 (H a) (or_introl eq_refl)) as [-> | []]. reflexivity.
Qed.

(** Two states that store the same records with a key answer a search for
    it alike. *)
Lemma LinearHashIndex_search_same (s s' : LinearHashIndex) (key : Z) :
  0 < initial_buckets ->
  hash_inv (_level s) (_next_split s) (_buckets s) ->
  hash_inv (_level s') (_next_split s') (_buckets s') ->
  (forall x, rkey x = key -> In x (stored_records s') <-> In x (stored_records s)) ->
  LinearHashIndex_search s' key = LinearHashIndex_search s key.
Proof.
  intros HN0 Hinv Hinv' Hsame.
  destruct (@LinearHashIndex_search_members s key HN0 Hinv) as (found & Hs & Hlen & Hmem).
  destruct (@LinearHashIndex_search_members s' key HN0 Hinv') as (found' & Hs' & Hlen' & Hmem').
  rewrite Hs, Hs'. f_equal. apply short_lists_eq; try assumption.
  intros x. rewrite Hmem, Hmem'. split; intros [Hx Hk]; (split; [| exact Hk]);
    apply (Hsame x Hk); exact Hx.
Qed.

(** ** What insert and remove do to the stored records *)

Lemma stored_records_split (s : LinearHashIndex) (pre : list HashPage) (b : HashPage)
  (post : list HashPage) :
  _buckets s = pre ++ b :: post ->
  stored_records s
  = flat_map HashPage_get_all_records pre ++ HashPage_get_all_records b
    ++ flat_map HashPage_get_all_records post.
Proof. intros H. unfold stored_records. rewrite H. apply stored_records_middle. Qed.

Lemma LinearHashIndex_insert_records (s s' : LinearHashIndex) (kind : pyseq) (r : record)
  (inserted : bool) :
  0 < initial_buckets ->
  hash_inv (_level s) (_next_split s) (_buckets s) ->
  LinearHashIndex_insert s kind r = Some (s', inserted) ->
  if inserted then
    Permutation (stored_records s') (r :: stored_records s) /\
    _num_records s' = _num_records s + 1 /\
    LinearHashIndex_search s (rkey r) = Some [] /\
    (_num_splits s' = _num_splits s /\ _num_buckets s' = _num_buckets s /\
     length (_buckets s') = length (_buckets s) \/
     _num_splits s' = _num_splits s + 1 /\ _num_buckets s' = _num_buckets s + 1 /\
     length (_buckets s') = S (length (_buckets s)))
  else s' = s /\ exists r0, LinearHashIndex_search s (rkey r) = Some [r0].
Proof.
  intros HN0 Hinv Hins.
  destruct (@LinearHashIndex_search_bucket s (rkey r) HN0 Hinv) as (bucket0 & Hnth0 & Hsearch).
  unfold LinearHashIndex_insert in Hins.
  rewrite (_get_bucket_index_eq s (rkey r) HN0) in Hins.
  destruct (py_index (length (_buckets s)) _) as [pos |] eqn:Hidx; [|discriminate].
  apply py_index_Some in Hidx. destruct Hidx as [_ Hpos].
  specialize (Hpos (bucket_of_nonneg _ _ (rkey r) HN0)).
  rewrite <- Hpos, Nat2Z.id in Hnth0. rewrite Hnth0 in Hins.
  destruct (HashPage_insert bucket0 kind r) as [[bucket' [|]] |] eqn:Hpage; [| |discriminate].
  2:{ injection Hins as <- <-. split; [reflexivity|].
      destruct (HashPage_insert_false _ _ _ Hpage) as [_ Hfound].
      pose proof (HashPage_search_short bucket0 (rkey r)) as Hshort.
      rewrite Hsearch.
      destruct (HashPage_search bucket0 (rkey r)) as [| r0 [| ? ?]]; simpl in Hshort;
        [contradiction | exists r0; reflexivity | lia]. }
  rename bucket0 into bucket. rename Hnth0 into Hbucket.
  destruct (nth_error_split_at _ _ Hbucket) as (pre & post & Hb & Hlen).
  rewrite Hb, <- Hlen, py_setitem_middle in Hins.
  destruct (HashPage_insert_true _ _ _ Hpage) as [Hnew Hperm].
  assert (Hinv1 : hash_inv (_level s) (_next_split s) (pre ++ bucket' :: post)).
  { rewrite Hb in Hinv. apply (@hash_inv_replace _ _ pre bucket bucket' post Hinv).
    - intros r' Hr'. apply (Permutation_in _ Hperm) in Hr'. destruct Hr' as [<- | Hr'].
      + rewrite Hlen. symmetry. exact Hpos.
      + eapply (inv_address Hinv); [apply nth_error_middle | exact Hr'].
    - eapply Permutation_NoDup; [apply Permutation_map; symmetry; exact Hperm|].
      simpl. constructor.
      + apply HashPage_search_nil. exact Hnew.
      + apply (inv_distinct Hinv). apply in_or_app. right. left. reflexivity. }
  assert (Hperm1 : Permutation
                     (flat_map HashPage_get_all_records (pre ++ bucket' :: post))
                     (r :: stored_records s)).
  { rewrite (stored_records_split s pre bucket post Hb), stored_records_middle.
    eapply Permutation_trans;
      [apply Permutation_app_head; apply Permutation_app_tail; exact Hperm|].
    simpl. apply Permutation_sym. apply Permutation_middle. }
  rewrite Hsearch, Hnew.
  match type of Hins with context [_need_split ?x] => set (s1 := x) in * end.
  assert (Hs1 : stored_records s1 = flat_map HashPage_get_all_records (pre ++ bucket' :: post))
    by reflexivity.
  rewrite <- Hs1 in Hperm1.
  assert (Hlen1 : length (_buckets s1) = length (_buckets s))
    by (rewrite Hb; subst s1; cbn [_buckets]; rewrite !length_app; reflexivity).
  destruct (_need_split s1) as [[|] |]; [| |discriminate].
  - destruct (_split s1) as [s2 |] eqn:Hsplit; [|discriminate].
    cbn [option_map] in Hins. injection Hins as <- <-.
    destruct (_split_spec s1 Hsplit)
      as (pre0 & old & post0 & old' & new' & Hb0 & Hidx0 & Hred & Hb' & Hnb & Hnr & Hns & _).
    split; [| split; [exact Hnr | split; [reflexivity|]]].
    + eapply Permutation_trans; [| exact Hperm1].
      apply Permutation_sym.
      assert (Hold : nth_error (_buckets s1) (length pre0) = Some old)
        by (rewrite Hb0; apply nth_error_middle).
      apply (@_split_Permutation s1 s2 (length pre0) old Hidx0 Hold); [| exact Hsplit].
      apply (inv_distinct Hinv1). eapply nth_error_In. exact Hold.
    + right. split; [exact Hns|]. split; [exact Hnb|].
      rewrite Hb', length_app, <- Hlen1, Hb0, !length_app. simpl. lia.
  - injection Hins as <- <-.
    split; [exact Hperm1|]. split; [reflexivity|]. split; [reflexivity|].
    left. split; [reflexivity|]. split; [reflexivity | exact Hlen1].
Qed.

(** [HashPage.remove] deletes a record that has the key. *)
Lemma HashPage_remove_key (p : HashPage) (key : Z) :
  (HashPage_remove p key = (p, false)) \/
  (exists p' l1 x l2,
     HashPage_remove p key = (p', true) /\ rkey x = key /\
     HashPage_get_all_records p = l1 ++ x :: l2 /\
     HashPage_get_all_records p' = l1 ++ l2).
Proof.
  induction p as [data | data o IH] using HashPage_chain_ind; cbn [HashPage_remove];
    destruct (LeafPage_remove_first data key)
      as [[_ Hrem] | (l1 & x & l2 & Hdata & Hx & _ & Hrem)]; rewrite Hrem.
  - left. reflexivity.
  - right. exists (mkHashPage (l1 ++ l2) None), l1, x, l2.
    split; [reflexivity|]. split; [exact Hx|]. simpl. rewrite !app_nil_r.
    split; [exact Hdata | reflexivity].
  - destruct IH as [Ho | (o' & m1 & y & m2 & Ho & Hy & Hall & Hall')]; rewrite Ho.
    + left. reflexivity.
    + right. exists (mkHashPage data (Some o')), (data ++ m1), y, m2.
      split; [reflexivity|]. split; [exact Hy|]. simpl.
      rewrite Hall, Hall', <- !app_assoc. split; reflexivity.
  - right. exists (mkHashPage (l1 ++ l2) (Some o)), l1, x, (l2 ++ HashPage_get_all_records o).
    split; [reflexivity|]. split; [exact Hx|]. simpl.
    rewrite Hdata, <- !app_assoc. split; reflexivity.
Qed.

Lemma LinearHashIndex_remove_records (s s' : LinearHashIndex) (key : Z) (removed : bool) :
  LinearHashIndex_remove s key = Some (s', removed) ->
  if removed then
    (exists l1 x l2, stored_records s = l1 ++ x :: l2 /\ rkey x = key /\
                     stored_records s' = l1 ++ l2) /\
    _num_records s' = _num_records s - 1 /\
    _num_splits s' = _num_splits s /\ _num_buckets s' = _num_buckets s /\
    length (_buckets s') = length (_buckets s)
  else s' = s.
Proof.
  intros Hrem. unfold LinearHashIndex_remove in Hrem.
  destruct (_get_bucket_index s key) as [bucket_idx |]; [|discriminate].
  destruct (py_index (length (_buckets s)) bucket_idx) as [pos |]; [|discriminate].
  destruct (nth_error (_buckets s) pos) as [bucket |] eqn:Hbucket; [|discriminate].
  destruct (HashPage_remove_key bucket key)
    as [Hpage | (bucket' & l1 & x & l2 & Hpage & Hx & Hall & Hall')]; rewrite Hpage in Hrem.
  { injection Hrem as <- <-. reflexivity. }
  destruct (nth_error_split_at _ _ Hbucket) as (pre & post & Hb & Hlen).
  rewrite Hb, <- Hlen, py_setitem_middle in Hrem. injection Hrem as <- <-.
  cbn [_buckets _num_records _num_splits _num_buckets].
  split; [| split; [reflexivity | split; [reflexivity | split; [reflexivity|]]]].
  - exists (flat_map HashPage_get_all_records pre ++ l1), x,
      (l2 ++ flat_map HashPage_get_all_records post).
    rewrite (stored_records_split s pre bucket post Hb). unfold stored_records.
    cbn [_buckets]. rewrite stored_records_middle, Hall, Hall', <- !app_assoc.
    split; [reflexivity|]. split; [exact Hx | reflexivity].
  - rewrite Hb, !length_app. reflexivity.
Qed.

(** ** Keys are unique across the buckets *)

Lemma NoDup_keys_by_address (f : Z -> Z) (buckets : list HashPage) :
  forall off : nat,
    (forall pos b r, nth_error buckets pos = Some b ->
                     In r (HashPage_get_all_records b) ->
                     f (rkey r) = Z.of_nat (off + pos)) ->
    (forall b, In b buckets -> NoDup (map rkey (HashPage_get_all_records b))) ->
    NoDup (map rkey (flat_map HashPage_get_all_records buckets)).
Proof.
  induction buckets as [| b rest IH]; intros off Haddr Hnd; simpl; [constructor|].
  rewrite map_app. apply NoDup_app.
  - apply Hnd. left. reflexivity.
  - apply (IH (S off)).
    + intros pos b' r Hpos Hr. rewrite (Haddr (S pos) b' r Hpos Hr). f_equal. lia.
    + intros b' Hb'. apply Hnd. right. exact Hb'.
  - intros k Hk1 Hk2.
    apply in_map_iff in Hk1. destruct Hk1 as (x & Hx & Hin1).
    apply in_map_iff in Hk2. destruct Hk2 as (y & Hy & Hin2).
    apply in_flat_map in Hin2. destruct Hin2 as (b' & Hb' & Hin2).
    apply In_nth_error in Hb'. destruct Hb' as [pos Hpos].
    pose proof (Haddr 0%nat b x eq_refl Hin1) as H1.
    pose proof (Haddr (S pos) b' y Hpos Hin2) as H2.
    rewrite Hx in H1. rewrite Hy in H2. lia.
Qed.

Lemma hash_inv_NoDup (s : LinearHashIndex) :
  hash_inv (_level s) (_next_split s) (_buckets s) ->
  NoDup (map rkey (stored_records s)).
Proof.
  intros Hinv.
  apply (@NoDup_keys_by_address (bucket_of (_level s) (_next_split s)) (_buckets s) 0%nat).
  - intros pos b r Hpos Hr. exact (inv_address Hinv _ _ Hpos Hr).
  - exact (inv_distinct Hinv).
Qed.

Lemma LinearHashIndex_reachable_inv (ops : list hash_op) (s : LinearHashIndex) :
  0 < initial_buckets ->
  LinearHashIndex_run LinearHashIndex_init ops = Some s ->
  hash_inv (_level s) (_next_split s) (_buckets s).
Proof.
  intros HN0 Hrun.
  exact (@LinearHashIndex_run_inv ops HN0 LinearHashIndex_init s (hash_inv_init HN0) Hrun).
Qed.

(** X18. In every state reached from a fresh engine no key is stored twice
    in the whole index, and [search] returns (it never raises) exactly the
    stored records with the key: one record or none, and none precisely when
    the key is not stored. *)
Theorem LinearHashIndex_search_exact (ops : list hash_op) (s : LinearHashIndex) (key : Z) :
  0 < initial_buckets ->
  LinearHashIndex_run LinearHashIndex_init ops = Some s ->
  NoDup (map rkey (stored_records s)) /\
  exists found,
    LinearHashIndex_search s key = Some found /\
    (length found <= 1)%nat /\
    (forall x, In x found <-> In x (stored_records s) /\ rkey x = key) /\
    (found = [] <-> ~ In key (map rkey (stored_records s))).
Proof.
  intros HN0 Hrun. pose proof (@LinearHashIndex_reachable_inv ops s HN0 Hrun) as Hinv.
  split; [apply hash_inv_NoDup; exact Hinv|].
  destruct (@LinearHashIndex_search_members s key HN0 Hinv) as (found & Hs & Hlen & Hmem).
  exists found. split; [exact Hs|]. split; [exact Hlen|]. split; [exact Hmem|].
  split.
  - intros -> Hin. apply in_map_iff in Hin. destruct Hin as (x & Hx & Hin).
    apply (proj2 (Hmem x)). split; assumption.
  - intros Hnot. destruct found as [| x l]; [reflexivity|].
    exfalso. apply Hnot. destruct (proj1 (Hmem x) (or_introl eq_refl)) as [Hin Hk].
    rewrite <- Hk. apply in_map. exact Hin.
Qed.

(** X16. An insert in a state reached from a fresh engine, split or no
    split: when it returns [True] the key was not found before, the record
    is found afterwards, and the stored records are the old ones and the new
    one; when it returns [False] the state is unchanged and the key was
    already found.  Either way the search for every other key returns what
    it returned before. *)
Theorem LinearHashIndex_insert_then_search (ops : list hash_op) (s s' : LinearHashIndex)
  (kind : pyseq) (r : record) (inserted : bool) :
  0 < initial_buckets ->
  LinearHashIndex_run LinearHashIndex_init ops = Some s ->
  LinearHashIndex_insert s kind r = Some (s', inserted) ->
  (if inserted then
     LinearHashIndex_search s (rkey r) = Some [] /\
     LinearHashIndex_search s' (rkey r) = Some [r] /\
     Permutation (stored_records s') (r :: stored_records s)
   else
     s' = s /\ exists r0, LinearHashIndex_search s (rkey r) = Some [r0]) /\
  (forall key, key <> rkey r ->
     LinearHashIndex_search s' key = LinearHashIndex_search s key).
Proof.
  intros HN0 Hrun Hins.
  pose proof (@LinearHashIndex_reachable_inv ops s HN0 Hrun) as Hinv.
  pose proof (@LinearHashIndex_insert_inv s s' kind r inserted HN0 Hinv Hins) as Hinv'.
  pose proof (@LinearHashIndex_insert_records s s' kind r inserted HN0 Hinv Hins) as Hrec.
  destruct inserted.
  - destruct Hrec as (Hperm & _ & Hbefore & _).
    split; [split; [exact Hbefore | split; [| exact Hperm]]|].
    + destruct (@LinearHashIndex_search_members s' (rkey r) HN0 Hinv')
        as (found & Hs & Hlen & Hmem).
      rewrite Hs. f_equal.
      assert (Hr : In r found).
      { apply Hmem. split; [| reflexivity].
        apply (Permutation_in _ (Permutation_sym Hperm)). left. reflexivity. }
      destruct found as [| x [| ? ?]]; simpl in *; [contradiction | | lia].
      destruct Hr as [-> | []]. reflexivity.
    + intros key Hne. apply (@LinearHashIndex_search_same s s' key HN0 Hinv Hinv').
      intros x Hk. split.
      * intros Hx. apply (Permutation_in _ Hperm) in Hx.
        destruct Hx as [<- | Hx]; [congruence | exact Hx].
      * intros Hx. apply (Permutation_in _ (Permutation_sym Hperm)). right. exact Hx.
  - destruct Hrec as [-> Hfound]. split; [split; [reflexivity | exact Hfound]|].
    intros key _. reflexivity.
Qed.

(** A remove on a state that satisfies the invariant returns, and it
    answers as the chain at the key's address does. *)
Lemma LinearHashIndex_remove_bucket (s : LinearHashIndex) (key : Z) :
  0 < initial_buckets ->
  hash_inv (_level s) (_next_split s) (_buckets s) ->
  exists s' found,
    LinearHashIndex_search s key = Some found /\
    LinearHashIndex_remove s key = Some (s', negb (match found with [] => true | _ => false end)).
Proof.
  intros HN0 Hinv.
  destruct (@LinearHashIndex_search_bucket s key HN0 Hinv) as (bucket & Hnth & Hsearch).
  pose proof (@bucket_of_range (_level s) (_next_split s) key HN0 (inv_pointer Hinv)) as Hrange.
  rewrite <- (inv_length Hinv) in Hrange.
  unfold LinearHashIndex_remove. rewrite (_get_bucket_index_eq s key HN0).
  rewrite py_index_nonneg by exact Hrange. rewrite Hnth.
  destruct (HashPage_remove_search bucket key) as (Hb & _).
  destruct (nth_error_split_at _ _ Hnth) as (pre & post & Hbs & Hlen).
  destruct (HashPage_remove bucket key) as [bucket' [|]]; cbn [snd] in Hb.
  - assert (Hset : py_setitem (_buckets s)
                     (Z.to_nat (bucket_of (_level s) (_next_split s) key)) bucket'
                   = Some (pre ++ bucket' :: post))
      by (rewrite <- Hlen, Hbs; apply py_setitem_middle).
    rewrite Hset.
    eexists. exists (HashPage_search bucket key). split; [exact Hsearch|].
    destruct (HashPage_search bucket key); [| reflexivity].
    exfalso. apply (proj1 Hb eq_refl). reflexivity.
  - exists s, (HashPage_search bucket key). split; [exact Hsearch|].
    destruct (HashPage_search bucket key) eqn:Hs; [reflexivity|].
    assert (false = true) by (apply Hb; discriminate). discriminate.
Qed.

(** X17. A remove in a state reached from a fresh engine returns (it never
    raises); it returns [True] exactly when a search finds the key, and then
    takes away that one record; afterwards the key is not found.  A remove
    that returns [False] leaves the state as it was, and either way the
    search for every other key returns what it returned before. *)
Theorem LinearHashIndex_remove_then_search (ops : list hash_op) (s : LinearHashIndex)
  (key : Z) :
  0 < initial_buckets ->
  LinearHashIndex_run LinearHashIndex_init ops = Some s ->
  exists s' removed found,
    LinearHashIndex_remove s key = Some (s', removed) /\
    LinearHashIndex_search s key = Some found /\
    (removed = true <-> found <> []) /\
    (if removed then
       exists l1 x l2, found = [x] /\ stored_records s = l1 ++ x :: l2 /\
                       stored_records s' = l1 ++ l2
     else s' = s) /\
    LinearHashIndex_search s' key = Some [] /\
    (forall key', key' <> key ->
       LinearHashIndex_search s' key' = LinearHashIndex_search s key').
Proof.
  intros HN0 Hrun.
  pose proof (@LinearHashIndex_reachable_inv ops s HN0 Hrun) as Hinv.
  destruct (@LinearHashIndex_remove_bucket s key HN0 Hinv) as (s' & found & Hs & Hrem).
  pose proof (@LinearHashIndex_remove_inv s s' key _ HN0 Hinv Hrem) as Hinv'.
  pose proof (@LinearHashIndex_remove_records s s' key _ Hrem) as Hrec.
  destruct (@LinearHashIndex_search_members s key HN0 Hinv) as (found0 & Hs0 & Hlen & Hmem).
  rewrite Hs in Hs0. injection Hs0 as <-.
  exists s'. eexists. exists found. split; [exact Hrem|]. split; [exact Hs|].
  destruct found as [| y l]; cbn [negb] in *.
  - split; [split; [discriminate | congruence]|]. subst s'.
    split; [reflexivity|]. split; [exact Hs|]. intros key' _. reflexivity.
  - destruct Hrec as ((l1 & x & l2 & Hall & Hx & Hall') & _).
    pose proof (@hash_inv_NoDup s Hinv) as Hnd. rewrite Hall, map_app in Hnd. simpl in Hnd.
    assert (Hy : y = x /\ l = []).
    { assert (Hin : In x (y :: l)).
      { apply Hmem. split; [| exact Hx]. rewrite Hall. apply in_or_app. right. left. reflexivity. }
      destruct l as [| ? ?]; simpl in Hlen; [| lia].
      destruct Hin as [-> | []]. split; reflexivity. }
    destruct Hy as [-> ->].
    split; [split; [discriminate | reflexivity]|].
    split; [exists l1, x, l2; repeat split; assumption|].
    split.
    + destruct (@LinearHashIndex_search_members s' key HN0 Hinv') as (found' & Hs' & _ & Hmem').
      rewrite Hs'. f_equal. destruct found' as [| z l']; [reflexivity|].
      exfalso. destruct (proj1 (Hmem' z) (or_introl eq_refl)) as [Hz Hk].
      apply (NoDup_remove_2 _ _ _ Hnd). rewrite Hx, <- Hk, <- map_app, <- Hall'.
      apply in_map. exact Hz.
    + intros key' Hne. apply (@LinearHashIndex_search_same s s' key' HN0 Hinv Hinv').
      intros z Hk. rewrite Hall, Hall'. split.
      * intros Hz. apply in_app_or in Hz. apply in_or_app.
        destruct Hz as [Hz | Hz]; [left | right; right]; exact Hz.
      * intros Hz. apply in_app_or in Hz. apply in_or_app.
        destruct Hz as [Hz | [-> | Hz]]; [left; exact Hz | congruence | right; exact Hz].
Qed.

(** ** The counters of the engine *)

Lemma counters_ok_init : 0 <= initial_buckets -> counters_ok LinearHashIndex_init.
Proof.
  intros HN0. unfold counters_ok, stored_records. cbn [LinearHashIndex_init _num_records
    _num_buckets _buckets _num_splits].
  rewrite repeat_length. split; [| lia].
  induction (Z.to_nat initial_buckets) as [| n IH]; simpl; [reflexivity | exact IH].
Qed.

Lemma LinearHashIndex_step_counters (s s' : LinearHashIndex) (op : hash_op) :
  0 < initial_buckets ->
  hash_inv (_level s) (_next_split s) (_buckets s) ->
  counters_ok s ->
  LinearHashIndex_step s op = Some s' ->
  counters_ok s'.
Proof.
  intros HN0 Hinv (Hrec & Hlen & Hsplits & Hpos) Hstep.
  destruct op as [kind r | key | key]; simpl in Hstep.
  - destruct (LinearHashIndex_insert s kind r) as [[s2 b] |] eqn:Hins; [|discriminate].
    injection Hstep as <-.
    pose proof (@LinearHashIndex_insert_records s s2 kind r b HN0 Hinv Hins) as H.
    destruct b; [| destruct H as [-> _]; repeat split; assumption].
    destruct H as (Hperm & Hnr & _ & Hcases).
    apply Permutation_length in Hperm. simpl in Hperm.
    unfold counters_ok.
    destruct Hcases as [(Hns & Hnb & Hl) | (Hns & Hnb & Hl)]; rewrite Hnr, Hnb, Hns, Hl, Hperm; lia.
  - destruct (LinearHashIndex_remove s key) as [[s2 b] |] eqn:Hrem; [|discriminate].
    injection Hstep as <-.
    pose proof (@LinearHashIndex_remove_records s s2 key b Hrem) as H.
    destruct b; [| subst s2; repeat split; assumption].
    destruct H as ((l1 & x & l2 & Hall & _ & Hall') & Hnr & Hns & Hnb & Hl).
    unfold counters_ok. rewrite Hnr, Hnb, Hns, Hl, Hall', Hrec, Hall, !length_app. simpl. lia.
  - destruct (LinearHashIndex_search s key); [|discriminate].
    injection Hstep as <-. repeat split; assumption.
Qed.

Lemma LinearHashIndex_run_counters (ops : list hash_op) :
  0 < initial_buckets ->
  forall s s',
    hash_inv (_level s) (_next_split s) (_buckets s) -> counters_ok s ->
    LinearHashIndex_run s ops = Some s' -> counters_ok s'.
Proof.
  intros HN0. induction ops as [| op ops IH]; intros s s' Hinv Hc Hrun; simpl in Hrun.
  - injection Hrun as <-. exact Hc.
  - destruct (LinearHashIndex_step s op) as [s1 |] eqn:Hstep; [|discriminate].
    apply (IH s1 s'); [| | exact Hrun].
    + apply (@LinearHashIndex_run_inv [op] HN0 s s1 Hinv). simpl. rewrite Hstep. reflexivity.
    + exact (@LinearHashIndex_step_counters s s1 op HN0 Hinv Hc Hstep).
Qed.

Lemma buckets_with_overflow_le (buckets : list HashPage) :
  (fold_right Nat.add 0 (map (fun _ => 1) (filter HashPage_has_overflow buckets))
   <= fold_right Nat.add 0 (map HashPage_count_overflow_pages buckets))%nat /\
  (fold_right Nat.add 0 (map (fun _ => 1) (filter HashPage_has_overflow buckets))
   <= length buckets)%nat.
Proof.
  induction buckets as [| b rest [IH1 IH2]]; simpl; [lia|].
  destruct b as [data [o |]]; simpl; lia.
Qed.

(** X19. The counters that [get_statistics] reports, in every state reached
    from a fresh engine: [num_records] is the number of records stored in
    the chains, [num_buckets] is the number of chains, which is the initial
    number plus [num_splits] and also [2^level * N0 + next_split] with the
    pointer inside the round.  [get_statistics] returns whenever both fit a
    double exactly; the mean occupancy is then a [float], and the number of
    buckets with an overflow page is at most the number of overflow pages
    and at most the number of buckets. *)
Theorem LinearHashIndex_get_statistics_counts (ops : list hash_op) (s : LinearHashIndex) :
  0 < initial_buckets ->
  LinearHashIndex_run LinearHashIndex_init ops = Some s ->
  _num_records s = Z.of_nat (length (stored_records s)) /\
  _num_buckets s = Z.of_nat (length (_buckets s)) /\
  _num_buckets s = initial_buckets + _num_splits s /\
  _num_buckets s = 2 ^ Z.of_nat (_level s) * initial_buckets + _next_split s /\
  0 <= _next_split s < 2 ^ Z.of_nat (_level s) * initial_buckets /\
  (_num_records s <= 2 ^ 53 -> _num_buckets s <= 2 ^ 53 ->
   exists st, LinearHashIndex_get_statistics s = Some st) /\
  (forall st, LinearHashIndex_get_statistics s = Some st ->
     stat_num_buckets st = initial_buckets + stat_num_splits st /\
     stat_hash_num_records st = Z.of_nat (length (stored_records s)) /\
     (stat_buckets_with_overflow st <= stat_overflow_pages st)%nat /\
     Z.of_nat (stat_buckets_with_overflow st) <= stat_num_buckets st /\
     exists f, stat_avg_records_per_bucket st = PyFloat f).
Proof.
  intros HN0 Hrun.
  pose proof (@LinearHashIndex_reachable_inv ops s HN0 Hrun) as Hinv.
  assert (Hc : counters_ok s).
  { apply (@LinearHashIndex_run_counters ops HN0 LinearHashIndex_init s
             (hash_inv_init HN0)); [| exact Hrun].
    apply counters_ok_init. lia. }
  destruct Hc as (Hrec & Hlen & Hsplits & Hpos).
  pose proof (inv_length Hinv) as Hl. pose proof (inv_pointer Hinv) as Hp.
  pose proof (pow2_level_pos (_level s) HN0) as Hm.
  assert (Hnb : 0 < _num_buckets s) by lia.
  split; [exact Hrec|]. split; [exact Hlen|]. split; [exact Hsplits|].
  split; [lia|]. split; [exact Hp|].
  destruct (buckets_with_overflow_le (_buckets s)) as [Ho1 Ho2].
  unfold LinearHashIndex_get_statistics.
  destruct (Z.ltb_spec 0 (_num_buckets s)) as [_ | Hle]; [| lia].
  split.
  - intros Hr Hb. unfold int_truediv.
    destruct (Z.eqb_spec (_num_buckets s) 0) as [H0 | _]; [lia|].
    assert (Habs : (Z.abs (_num_records s) <=? 2 ^ 53) && (Z.abs (_num_buckets s) <=? 2 ^ 53)
                   = true).
    { apply andb_true_iff. split; apply Z.leb_le; lia. }
    rewrite Habs. cbn [option_map]. eexists. reflexivity.
  - intros st Hst.
    destruct (int_truediv (_num_records s) (_num_buckets s)) as [f |]; [| discriminate].
    cbn [option_map] in Hst. injection Hst as <-.
    cbn [stat_num_buckets stat_num_splits stat_hash_num_records stat_buckets_with_overflow
         stat_overflow_pages stat_avg_records_per_bucket].
    split; [exact Hsplits|]. split; [exact Hrec|]. split; [exact Ho1|].
    split; [lia|]. exists f. reflexivity.
Qed.

(** ** Searches in an ordered tree *)

Lemma above_le (lo : option Z) (k x : Z) : above lo k -> k <= x -> above lo x.
Proof. destruct lo; simpl; intros; [lia | exact I]. Qed.

Lemma below_le (hi : option Z) (k x : Z) : below hi k -> x <= k -> below hi x.
Proof. destruct hi; simpl; intros; [lia | exact I]. Qed.

Lemma ordered_payload_bounds_gen (lo hi : option Z) (data : list slot) :
  ordered_payload lo hi data ->
  Forall (fun c => forall lo hi, ordered lo hi c ->
                   forall r, In r (records_of c) -> above lo (rkey r) /\ below hi (rkey r))
         data ->
  forall r, In r (flat_map records_of data) -> above lo (rkey r) /\ below hi (rkey r).
Proof.
  induction 1 as [lo hi c Hc | lo hi c k rest Hlo Hhi Hc Hrest IH]; intros Hall r Hr.
  - inversion Hall as [| c0 l0 Hpc _]; subst. simpl in Hr. rewrite app_nil_r in Hr.
    exact (Hpc lo hi Hc r Hr).
  - inversion Hall as [| c0 l0 Hpc Hall']; subst.
    inversion Hall' as [| k0 l1 _ Hall'']; subst.
    simpl in Hr. apply in_app_or in Hr. destruct Hr as [Hr | Hr].
    + destruct (Hpc lo (Some k) Hc r Hr) as [Ha Hb]. simpl in Hb.
      split; [exact Ha | apply (below_le _ Hhi); lia].
    + destruct (IH Hall'' r Hr) as [Ha Hb]. simpl in Ha.
      split; [apply (above_le _ Hlo); exact Ha | exact Hb].
Qed.

(** The keys below an ordered page are inside its bounds. *)
Lemma ordered_records_bounds (p : slot) :
  forall lo hi, ordered lo hi p ->
  forall r, In r (records_of p) -> above lo (rkey r) /\ below hi (rkey r).
Proof.
  induction p as [k | data | data IH] using slot_ind_nested; intros lo hi Hord r Hr.
  - inversion Hord.
  - inversion Hord; subst. auto.
  - inversion Hord as [| lo0 hi0 data0 Hlen Hpl]; subst.
    exact (ordered_payload_bounds_gen Hpl IH r Hr).
Qed.

Lemma ordered_payload_bounds (lo hi : option Z) (data : list slot) :
  ordered_payload lo hi data ->
  forall r, In r (flat_map records_of data) -> above lo (rkey r) /\ below hi (rkey r).
Proof.
  intros Hpl. apply (ordered_payload_bounds_gen Hpl).
  apply Forall_forall. intros c _ lo' hi'. apply ordered_records_bounds.
Qed.

(** The separator keys of an ordered payload are integers in non-decreasing
    order, one between every two children. *)
Lemma ordered_payload_keys (lo hi : option Z) (data : list slot) :
  ordered_payload lo hi data ->
  exists ks,
    map slot_int (NonLeafPage_get_key_list data) = map Some ks /\
    StronglySorted Z.le ks /\
    Forall (fun k => above lo k /\ below hi k) ks /\
    length data = (length ks * 2 + 1)%nat.
Proof.
  induction 1 as [lo hi c Hc | lo hi c k rest Hlo Hhi Hc Hrest (ks & Hks & Hsorted & Hb & Hlen)].
  - exists []. repeat split; constructor.
  - exists (k :: ks). split; [simpl; rewrite Hks; reflexivity|].
    split; [|split].
    + constructor; [exact Hsorted|].
      eapply Forall_impl; [| exact Hb]. intros k' [Ha _]. exact Ha.
    + constructor; [split; assumption|].
      eapply Forall_impl; [| exact Hb]. intros k' [Ha Hb']. simpl in Ha.
      split; [apply (above_le _ Hlo); exact Ha | exact Hb'].
    + simpl. rewrite Hlen. lia.
Qed.

(** The binary search returns the number of keys that are at most the key
    searched. *)
Lemma bsearch_loop_unique (ks : list Z) (key : Z) (p : nat) :
  StronglySorted Z.le ks ->
  (p <= length ks)%nat ->
  (forall i, (i < p)%nat -> nth i ks 0 <= key) ->
  (forall i, (p <= i < length ks)%nat -> key < nth i ks 0) ->
  bsearch_loop (map Some ks) key 0 (length ks) = Some p.
Proof.
  intros Hsorted Hp Hlo Hhi.
  destruct (@bsearch_loop_spec (map Some ks) key 0%nat (length ks) ks eq_refl
              (@StronglySorted_nth _ Hsorted))
    as (q & Hq & Hr & Hqlo & Hqhi); [lia | intros; lia | intros; lia |].
  rewrite Hq. f_equal.
  destruct (Nat.lt_trichotomy p q) as [Hlt | [Heq | Hgt]]; [| symmetry; exact Heq |].
  - pose proof (Hqlo p Hlt). pose proof (Hhi p). lia.
  - pose proof (Hlo q Hgt). pose proof (Hqhi q). lia.
Qed.

Lemma ordered_payload_binary_search (lo hi : option Z) (data : list slot) (key : Z) :
  ordered_payload lo hi data ->
  exists ks p,
    map slot_int (NonLeafPage_get_key_list data) = map Some ks /\
    NonLeafPage_binary_search data key = Some (p * 2)%nat /\
    (p <= length ks)%nat /\
    (forall i, (i < p)%nat -> nth i ks 0 <= key) /\
    (forall i, (p <= i < length ks)%nat -> key < nth i ks 0) /\
    length data = (length ks * 2 + 1)%nat.
Proof.
  intros Hpl. destruct (ordered_payload_keys Hpl) as (ks & Hks & Hsorted & _ & Hlen).
  destruct (@bsearch_loop_spec (map Some ks) key 0%nat (length ks) ks eq_refl
              (@StronglySorted_nth _ Hsorted))
    as (p & Hp & Hr & Hplo & Hphi); [lia | intros; lia | intros; lia |].
  exists ks, p. split; [exact Hks|].
  split; [| split; [lia | split; [assumption | split; assumption]]].
  unfold NonLeafPage_binary_search. rewrite Hks, length_map, Hp. reflexivity.
Qed.

(** The child that the binary search selects, its bounds, and what may be
    put in its place. *)
Lemma ordered_payload_at (key : Z) (lo hi : option Z) (data : list slot) :
  ordered_payload lo hi data ->
  forall ks p,
    map slot_int (NonLeafPage_get_key_list data) = map Some ks ->
    (p <= length ks)%nat ->
    (forall i, (i < p)%nat -> nth i ks 0 <= key) ->
    (forall i, (p <= i < length ks)%nat -> key < nth i ks 0) ->
    above lo key -> below hi key ->
    exists pre c post lo' hi',
      data = pre ++ c :: post /\ length pre = (p * 2)%nat /\
      ordered lo' hi' c /\ above lo' key /\ below hi' key /\
      (forall r, In r (flat_map records_of pre) -> rkey r < key) /\
      (forall r, In r (flat_map records_of post) -> key < rkey r) /\
      (forall c', ordered lo' hi' c' -> ordered_payload lo hi (pre ++ c' :: post)) /\
      (forall a sep b, above lo' sep -> below hi' sep ->
         ordered lo' (Some sep) a -> ordered (Some sep) hi' b ->
         ordered_payload lo hi (pre ++ a :: Key sep :: b :: post)).
Proof.
  induction 1 as [lo hi c Hc | lo hi c k rest Hlo Hhi Hc Hrest IH];
    intros ks p Hks Hp Hplo Hphi Hkl Hkh.
  - destruct ks; [| discriminate]. simpl in Hp. assert (p = 0%nat) by lia. subst p.
    exists [], c, [], lo, hi.
    split; [reflexivity|]. split; [reflexivity|]. split; [exact Hc|].
    split; [exact Hkl|]. split; [exact Hkh|].
    split; [intros r []|]. split; [intros r []|]. split.
    + intros c' Hc'. constructor. exact Hc'.
    + intros a sep b Ha Hb Hoa Hob. simpl.
      constructor; [exact Ha | exact Hb | exact Hoa | constructor; exact Hob].
  - destruct ks as [| k0 ks]; [discriminate|].
    simpl in Hks. injection Hks as Hk0 Hks. subst k0.
    destruct p as [| p].
    + assert (Hlt : key < k) by (apply (Hphi 0%nat); simpl; lia).
      exists [], c, (Key k :: rest), lo, (Some k).
      split; [reflexivity|]. split; [reflexivity|]. split; [exact Hc|].
      split; [exact Hkl|]. split; [exact Hlt|].
      split; [intros r []|]. split; [|split].
      * intros r Hr. simpl in Hr.
        destruct (ordered_payload_bounds Hrest r Hr) as [Ha _]. simpl in Ha. lia.
      * intros c' Hc'. simpl. constructor; assumption.
      * intros a sep b Ha Hb Hoa Hob. simpl. simpl in Hb.
        constructor; [exact Ha | apply (below_le _ Hhi); lia | exact Hoa|].
        constructor; [simpl; lia | exact Hhi | exact Hob | exact Hrest].
    + assert (Hle : k <= key) by (apply (Hplo 0%nat); lia).
      destruct (IH ks p Hks) as (pre & c0 & post & lo' & hi' & Hdata & Hpre & Hc0 & Hl' & Hh'
                                 & Hbefore & Hafter & Hrepl & Hsplit).
      * simpl in Hp. lia.
      * intros i Hi. apply (Hplo (S i)). lia.
      * intros i Hi. apply (Hphi (S i)). simpl. lia.
      * exact Hle.
      * exact Hkh.
      * exists (c :: Key k :: pre), c0, post, lo', hi'.
        split; [rewrite Hdata; reflexivity|]. split; [simpl; rewrite Hpre; reflexivity|].
        split; [exact Hc0|]. split; [exact Hl'|]. split; [exact Hh'|].
        split; [|split; [exact Hafter|split]].
        -- intros r Hr. simpl in Hr. apply in_app_or in Hr. destruct Hr as [Hr | Hr].
           ++ destruct (ordered_records_bounds Hc r Hr) as [_ Hb]. simpl in Hb. lia.
           ++ apply Hbefore. exact Hr.
        -- intros c' Hc'. simpl. constructor; try assumption. apply Hrepl. exact Hc'.
        -- intros a sep b Ha Hb Hoa Hob. simpl. constructor; try assumption.
           apply Hsplit; assumption.
Qed.

Lemma LeafPage_search_all_less (data : list record) (key : Z) :
  (forall x, In x data -> rkey x < key) -> LeafPage_search data key = [].
Proof.
  intros H. apply LeafPage_search_none. intros Hin.
  apply in_map_iff in Hin. destruct Hin as (x & Hx & Hin). apply H in Hin. lia.
Qed.

(** In an ordered tree a search returns every record with the key. *)
Lemma TreePage_search_ordered (key : Z) (p : slot) :
  forall lo hi, ordered lo hi p -> above lo key -> below hi key ->
  TreePage_search p key = Some (LeafPage_search (records_of p) key).
Proof.
  induction p as [k | data | data IH] using slot_ind_nested; intros lo hi Hord Hkl Hkh.
  - inversion Hord.
  - reflexivity.
  - inversion Hord as [| lo0 hi0 data0 Hlen Hpl]; subst.
    destruct (ordered_payload_binary_search key Hpl)
      as (ks & p & Hks & Hbs & Hp & Hplo & Hphi & _).
    destruct (@ordered_payload_at key lo hi data Hpl ks p Hks Hp Hplo Hphi Hkl Hkh)
      as (pre & c & post & lo' & hi' & -> & Hpre & Hc & Hl' & Hh' & Hbefore & Hafter & _).
    rewrite TreePage_search_NonLeafPage, Hbs, <- Hpre, at_child_middle.
    destruct (Nat.ltb_spec (length pre) (length (pre ++ c :: post))) as [_ | Hge].
    2:{ rewrite length_app in Hge. simpl in Hge. lia. }
    rewrite Forall_forall in IH.
    rewrite (IH c (in_elt c pre post) lo' hi' Hc Hl' Hh').
    rewrite records_of_middle, !LeafPage_search_app.
    rewrite (@LeafPage_search_all_less _ key Hbefore),
      (@LeafPage_search_all_greater _ key Hafter), app_nil_r.
    reflexivity.
Qed.

Lemma ordered_page_ok (p : slot) : forall lo hi, ordered lo hi p -> page_ok p.
Proof.
  induction p as [k | data | data IH] using slot_ind_nested; intros lo hi Hord.
  - inversion Hord.
  - constructor.
  - inversion Hord as [| lo0 hi0 data0 Hlen Hpl]; subst.
    constructor; [exact Hlen|]. clear Hlen Hord.
    revert IH. induction Hpl as [lo hi c Hc | lo hi c k rest Hlo Hhi Hc Hrest IHrest];
      intros IH.
    + inversion IH as [| c0 l0 Hpc _]; subst. constructor. exact (Hpc lo hi Hc).
    + inversion IH as [| c0 l0 Hpc IH']; subst.
      inversion IH' as [| k0 l1 _ IH'']; subst.
      constructor; [exact (Hpc lo (Some k) Hc) | exact (IHrest IH'')].
Qed.

(** X20. On a tree that is ordered as a B-tree is meant to be (leaves with
    non-decreasing keys; internal payloads [child, key, ..., child] whose
    separators bound the keys of the children between them),
    [BTreeIndex.search] returns every stored record with the key, in their
    stored order, and nothing else; a range search over the one-key interval
    returns the same. *)
Theorem BTreeIndex_search_ordered (root : slot) (key : Z) :
  ordered None None root ->
  BTreeIndex_search root key = Some (LeafPage_search (records_of root) key) /\
  BTreeIndex_range_search root key key = BTreeIndex_search root key.
Proof.
  intros Hord.
  assert (Hs : BTreeIndex_search root key = Some (LeafPage_search (records_of root) key))
    by (apply (@TreePage_search_ordered key root None None Hord); exact I).
  split; [exact Hs|]. rewrite Hs. unfold BTreeIndex_range_search.
  rewrite (BTreeIndex_range_search_helper_ok key key (ordered_page_ok Hord)).
  f_equal. unfold LeafPage_search. apply filter_ext. intros r.
  destruct (Z.eqb_spec (rkey r) key) as [-> | Hne].
  - rewrite Z.leb_refl. reflexivity.
  - destruct (Z.leb_spec key (rkey r)), (Z.leb_spec (rkey r) key); simpl; try reflexivity. lia.
Qed.

(** ** Inserts and removes in a small ordered tree *)

Lemma app_eq_by_length {A : Type} (pre pre0 : list A) (c c0 : A) (post post0 : list A) :
  pre ++ c :: post = pre0 ++ c0 :: post0 -> length pre = length pre0 ->
  pre = pre0 /\ c = c0 /\ post = post0.
Proof.
  revert pre0. induction pre as [| x pre IH]; intros [| y pre0] Heq Hlen; simpl in *;
    try discriminate.
  - injection Heq as -> ->. repeat split.
  - injection Heq as -> Heq. injection Hlen as Hlen.
    destruct (IH pre0 Heq Hlen) as (-> & -> & ->). repeat split.
Qed.

Lemma NoDup_app_disjoint {A : Type} (l1 l2 : list A) (x : A) :
  NoDup (l1 ++ l2) -> In x l1 -> In x l2 -> False.
Proof.
  induction l1 as [| a l1 IH]; simpl; intros Hnd H1 H2; [contradiction|].
  inversion Hnd as [| a' l' Hnot Hnd']; subst. destruct H1 as [-> | H1].
  - apply Hnot. apply in_or_app. right. exact H2.
  - exact (IH Hnd' H1 H2).
Qed.

Lemma NoDup_keys_insert (l1 l2 : list record) (r : record) :
  NoDup (map rkey (l1 ++ l2)) -> ~ In (rkey r) (map rkey (l1 ++ l2)) ->
  NoDup (map rkey (l1 ++ r :: l2)).
Proof.
  intros Hnd Hfresh. rewrite map_app in *. simpl.
  apply NoDup_Add with (a := rkey r) (l := map rkey l1 ++ map rkey l2);
    [apply Add_app | split; assumption].
Qed.

(** The halves of a leaf with distinct, non-decreasing keys, and the
    separator between them. *)
Lemma LeafPage_split_ordered (lo hi : option Z) (data : list record) (a b : slot) (k : Z) :
  ordered lo hi (LeafPage data) ->
  NoDup (map rkey data) ->
  TreePage_split (LeafPage data) = Some (a, b) ->
  separator_key b = Some (Key k) ->
  above lo k /\ below hi k /\ ordered lo (Some k) a /\ ordered (Some k) hi b /\
  is_leaf a /\ is_leaf b.
Proof.
  intros Hord Hnd Hsplit Hsep.
  inversion Hord as [lo0 hi0 data0 Hsorted Hbounds |]; subst.
  cbn [TreePage_split] in Hsplit. unfold LeafPage_split in Hsplit. cbv zeta in Hsplit.
  set (mid := (length data / 2)%nat) in *. clearbody mid.
  injection Hsplit as <- <-.
  apply separator_key_first in Hsep. destruct Hsep as (r0 & rest & Hskip & Hk).
  injection Hk as ->.
  assert (Hdata : data = firstn mid data ++ skipn mid data) by (symmetry; apply firstn_skipn).
  rewrite Hdata in Hsorted, Hnd.
  destruct (Sorted_keys_app_inv _ _ Hsorted) as (Ha & Hb & Hab).
  assert (Hr0 : In r0 (skipn mid data)) by (rewrite Hskip; left; reflexivity).
  assert (Hr0' : In r0 data) by (apply (In_skipn mid); exact Hr0).
  destruct (Hbounds r0 Hr0') as [Hlo0 Hhi0].
  split; [exact Hlo0|]. split; [exact Hhi0|]. split; [|split; [|split; exact I]].
  - constructor; [exact Ha|]. intros x Hx. split.
    + apply Hbounds. apply (In_firstn mid). exact Hx.
    + simpl. pose proof (Hab x r0 Hx Hr0) as Hle.
      destruct (Z.eq_dec (rkey x) (rkey r0)) as [Heq | Hne]; [| lia].
      exfalso. rewrite map_app in Hnd.
      apply (@NoDup_app_disjoint _ _ _ (rkey x) Hnd); [apply in_map; exact Hx|].
      rewrite Heq. apply in_map. exact Hr0.
  - constructor; [exact Hb|]. intros y Hy. split.
    + simpl. rewrite Hskip in Hb, Hy. unfold LeafPage_get_key_list in Hb. simpl in Hb.
      apply Sorted_StronglySorted in Hb; [| intros u v w; apply Z.le_trans].
      inversion Hb as [| a' l' _ Hall]; subst.
      destruct Hy as [<- | Hy]; [lia|].
      rewrite Forall_forall in Hall. apply Hall. apply in_map. exact Hy.
    + apply Hbounds. apply (In_skipn mid). exact Hy.
Qed.

Lemma children_of_middle (pre : list slot) (c : slot) (post : list slot) :
  Nat.even (length pre) = true ->
  children_of (pre ++ c :: post)
  = children_of pre ++ c :: match post with [] => [] | _ :: rest => children_of rest end.
Proof. intros Hev. rewrite (children_of_app pre (c :: post) Hev). reflexivity. Qed.

Lemma children_of_split_middle (pre : list slot) (a b : slot) (k : Z) (post : list slot) :
  Nat.even (length pre) = true ->
  children_of (pre ++ a :: Key k :: b :: post)
  = children_of pre ++ a :: b :: match post with [] => [] | _ :: rest => children_of rest end.
Proof. intros Hev. rewrite (children_of_app pre (a :: Key k :: b :: post) Hev). reflexivity. Qed.

(** An insert of a new key into a small ordered tree with distinct keys
    stores the record and keeps the tree small and ordered. *)
Lemma inserted_ordered (r : record) (p p' : slot) :
  inserted r p p' ->
  forall lo hi,
    ordered lo hi p -> small_tree p ->
    above lo (rkey r) -> below hi (rkey r) ->
    NoDup (map rkey (records_of p)) -> ~ In (rkey r) (map rkey (records_of p)) ->
    ordered lo hi p' /\ small_tree p' /\
    exists l1 l2, records_of p = l1 ++ l2 /\ records_of p' = l1 ++ r :: l2.
Proof.
  induction 1 as [data data' Hins | data Hpos | pre c c' post Hev Hpos Hins IH Hfits
                 | pre c c' a b k post Hev Hpos Hins IH Hover Hsplit Hsep];
    intros lo hi Hord Hsmall Hkl Hkh Hnd Hfresh.
  - inversion Hord as [lo0 hi0 data0 Hsorted Hbounds |]; subst.
    destruct (@LeafPage_insert_spec data r Hsorted) as (pos & Hins' & _ & _ & _ & Hsorted').
    rewrite Hins in Hins'. injection Hins' as ->.
    split; [| split; [exact I|]].
    + constructor; [exact Hsorted'|]. intros x Hx. unfold py_insert in Hx.
      apply in_app_or in Hx. destruct Hx as [Hx | [<- | Hx]].
      * apply Hbounds. apply (In_firstn pos). exact Hx.
      * split; assumption.
      * apply Hbounds. apply (In_skipn pos). exact Hx.
    + exists (firstn pos data), (skipn pos data).
      split; [symmetry; apply firstn_skipn | reflexivity].
  - exfalso. inversion Hord as [| lo0 hi0 data0 Hlen Hpl]; subst.
    destruct (ordered_payload_binary_search (rkey r) Hpl)
      as (ks & p & _ & Hbs & Hp & _ & _ & Hlen').
    rewrite Hpos in Hbs. injection Hbs as Hbs. lia.
  - inversion Hord as [| lo0 hi0 data0 Hlen Hpl]; subst.
    destruct (ordered_payload_binary_search (rkey r) Hpl)
      as (ks & p & Hks & Hbs & Hp & Hplo & Hphi & Hlen').
    rewrite Hpos in Hbs. injection Hbs as Hbs.
    destruct (@ordered_payload_at (rkey r) lo hi _ Hpl ks p Hks Hp Hplo Hphi Hkl Hkh)
      as (pre0 & c0 & post0 & lo' & hi' & Heq & Hpre0 & Hc & Hl' & Hh' & _ & _ & Hrepl & _).
    destruct (@app_eq_by_length _ pre pre0 c c0 post post0 Heq) as (<- & <- & <-); [lia|].
    cbn [small_tree] in Hsmall. rewrite (@children_of_middle pre c post Hev) in Hsmall.
    apply Forall_app in Hsmall. destruct Hsmall as [Hs1 Hs2].
    inversion Hs2 as [| c1 l1 Hleafc Hs3]; subst.
    rewrite records_of_middle, !map_app in Hnd, Hfresh.
    assert (Hndc : NoDup (map rkey (records_of c))).
    { apply NoDup_app_remove_l in Hnd. apply NoDup_app_remove_r in Hnd. exact Hnd. }
    assert (Hfreshc : ~ In (rkey r) (map rkey (records_of c))).
    { intros Hin. apply Hfresh. apply in_or_app. right. apply in_or_app. left. exact Hin. }
    assert (Hsmallc : small_tree c) by (destruct c; simpl in *; tauto).
    destruct (IH lo' hi' Hc Hsmallc Hl' Hh' Hndc Hfreshc) as (Hc' & _ & l1' & l2' & Hr1 & Hr2).
    assert (Hleafc' : is_leaf c').
    { destruct c; try contradiction. inversion Hins; subst. exact I. }
    split; [| split].
    + constructor; [rewrite length_app in *; simpl in *; exact Hlen | apply Hrepl; exact Hc'].
    + cbn [small_tree]. rewrite (@children_of_middle pre c' post Hev).
      apply Forall_app. split; [exact Hs1 | constructor; assumption].
    + exists (flat_map records_of pre ++ l1'), (l2' ++ flat_map records_of post).
      rewrite !records_of_middle, Hr1, Hr2, <- !app_assoc. split; reflexivity.
  - inversion Hord as [| lo0 hi0 data0 Hlen Hpl]; subst.
    destruct (ordered_payload_binary_search (rkey r) Hpl)
      as (ks & p & Hks & Hbs & Hp & Hplo & Hphi & Hlen').
    rewrite Hpos in Hbs. injection Hbs as Hbs.
    destruct (@ordered_payload_at (rkey r) lo hi _ Hpl ks p Hks Hp Hplo Hphi Hkl Hkh)
      as (pre0 & c0 & post0 & lo' & hi' & Heq & Hpre0 & Hc & Hl' & Hh' & _ & _ & _ & Hrepl).
    destruct (@app_eq_by_length _ pre pre0 c c0 post post0 Heq) as (<- & <- & <-); [lia|].
    cbn [small_tree] in Hsmall. rewrite (@children_of_middle pre c post Hev) in Hsmall.
    apply Forall_app in Hsmall. destruct Hsmall as [Hs1 Hs2].
    inversion Hs2 as [| c1 l1 Hleafc Hs3]; subst.
    rewrite records_of_middle, !map_app in Hnd, Hfresh.
    assert (Hndc : NoDup (map rkey (records_of c))).
    { apply NoDup_app_remove_l in Hnd. apply NoDup_app_remove_r in Hnd. exact Hnd. }
    assert (Hfreshc : ~ In (rkey r) (map rkey (records_of c))).
    { intros Hin. apply Hfresh. apply in_or_app. right. apply in_or_app. left. exact Hin. }
    assert (Hsmallc : small_tree c) by (destruct c; simpl in *; tauto).
    destruct (IH lo' hi' Hc Hsmallc Hl' Hh' Hndc Hfreshc) as (Hc' & _ & l1' & l2' & Hr1 & Hr2).
    destruct c as [| datac |]; try contradiction.
    inversion Hins as [d d' Hleaf | | |]; subst.
    assert (Hnd' : NoDup (map rkey d')).
    { simpl in Hr1, Hr2. subst datac d'. apply NoDup_keys_insert; assumption. }
    destruct (LeafPage_split_ordered Hc' Hnd' Hsplit Hsep)
      as (Hka & Hkb & Hoa & Hob & Hla & Hlb).
    split; [| split].
    + constructor; [rewrite length_app; simpl; lia|].
      apply Hrepl; assumption.
    + cbn [small_tree]. rewrite (@children_of_split_middle pre a b k post Hev).
      apply Forall_app. split; [exact Hs1|]. constructor; [exact Hla|].
      constructor; [exact Hlb | exact Hs3].
    + exists (flat_map records_of pre ++ l1'), (l2' ++ flat_map records_of post).
      rewrite (@records_of_split_middle pre a b (LeafPage d') k post
                 (TreePage_split_records _ Hsplit)).
      rewrite !records_of_middle, Hr1, Hr2, <- !app_assoc. split; reflexivity.
Qed.

Lemma removed_ordered (key : Z) (p p' : slot) (b : bool) :
  removed key p p' b ->
  forall lo hi,
    ordered lo hi p -> above lo key -> below hi key ->
    ordered lo hi p' /\ (small_tree p -> small_tree p').
Proof.
  induction 1 as [data data' b Hrem | data Hpos | pre c c' post b Hev Hpos Hrem IH];
    intros lo hi Hord Hkl Hkh.
  - split; [| intros _; exact I].
    inversion Hord as [lo0 hi0 data0 Hsorted Hbounds |]; subst.
    destruct (LeafPage_remove_first data key)
      as [[_ H] | (l1 & x & l2 & Hdata & _ & _ & H)];
      rewrite H in Hrem; injection Hrem as <- <-; [exact Hord|].
    subst data. constructor; [apply (Sorted_keys_remove _ _ _ Hsorted)|].
    intros y Hy. apply Hbounds. apply in_app_or in Hy. apply in_or_app.
    destruct Hy as [Hy | Hy]; [left | right; right]; exact Hy.
  - split; [exact Hord | intros H; exact H].
  - inversion Hord as [| lo0 hi0 data0 Hlen Hpl]; subst.
    destruct (ordered_payload_binary_search key Hpl)
      as (ks & p & Hks & Hbs & Hp & Hplo & Hphi & Hlen').
    rewrite Hpos in Hbs. injection Hbs as Hbs.
    destruct (@ordered_payload_at key lo hi _ Hpl ks p Hks Hp Hplo Hphi Hkl Hkh)
      as (pre0 & c0 & post0 & lo' & hi' & Heq & Hpre0 & Hc & Hl' & Hh' & _ & _ & Hrepl & _).
    destruct (@app_eq_by_length _ pre pre0 c c0 post post0 Heq) as (<- & <- & <-); [lia|].
    destruct (IH lo' hi' Hc Hl' Hh') as [Hc' _].
    split.
    + constructor; [rewrite length_app in *; simpl in *; exact Hlen | apply Hrepl; exact Hc'].
    + cbn [small_tree]. rewrite (@children_of_middle pre c post Hev),
        (@children_of_middle pre c' post Hev), !Forall_app.
      intros [Hs1 Hs2]. split; [exact Hs1|].
      inversion Hs2 as [| c1 l1 Hleafc Hs3]; subst. constructor; [| exact Hs3].
      destruct c; try contradiction. inversion Hrem; subst. exact I.
Qed.

Lemma ordered_root_ok (root : slot) : ordered None None root -> root_ok root.
Proof.
  intros Hord. split; [exact (ordered_page_ok Hord)|].
  destruct root as [k | data | data]; try exact I.
  inversion Hord as [| lo0 hi0 data0 Hlen Hpl]; subst.
  destruct (ordered_payload_keys Hpl) as (ks & _ & _ & _ & Hlen'). lia.
Qed.

Lemma max_height_leaves (l : list slot) :
  l <> [] -> Forall is_leaf l -> max_height (map BTreeIndex_get_height l) = Some 1%nat.
Proof.
  induction l as [| c l IH]; intros Hne Hall; [contradiction|].
  inversion Hall as [| c0 l0 Hc Hall']; subst.
  destruct c as [| data |]; try contradiction.
  change (max_height (map BTreeIndex_get_height (LeafPage data :: l)))
    with (option_map (Nat.max 1) (max_height (map BTreeIndex_get_height l))).
  destruct l as [| c' l]; [reflexivity|].
  rewrite IH; [reflexivity | discriminate | exact Hall'].
Qed.

Lemma small_tree_height (data : list slot) :
  data <> [] -> small_tree (NonLeafPage data) ->
  BTreeIndex_get_height (NonLeafPage data) = Some 2%nat.
Proof.
  intros Hne Hsmall. rewrite BTreeIndex_get_height_NonLeafPage.
  rewrite max_height_leaves; [reflexivity | | exact Hsmall].
  destruct data; [contradiction | discriminate].
Qed.

(** The driver's insert of a new key into a small ordered tree: the tree
    stays small and ordered with the record stored, unless an internal root
    is split, which takes the height to 3. *)
Lemma BTreeIndex_insert_small (r : record) (root : slot) :
  0 <= size ->
  ordered None None root -> small_tree root ->
  NoDup (map rkey (records_of root)) -> ~ In (rkey r) (map rkey (records_of root)) ->
  exists root',
    BTreeIndex_insert root r = Some root' /\ root_ok root' /\
    ((ordered None None root' /\ small_tree root' /\
      exists l1 l2, records_of root = l1 ++ l2 /\ records_of root' = l1 ++ r :: l2) \/
     BTreeIndex_get_height root' = Some 3%nat).
Proof.
  intros Hsize Hord Hsmall Hnd Hfresh.
  pose proof (ordered_root_ok Hord) as Hroot.
  destruct (BTreeIndex_insert_ok r Hsize Hroot)
    as (root1 & root' & h & Hins & Hdrv & Hh & Hok' & Hsplit & Hkeep).
  destruct (TreePage_insert_shape r Hsize (proj1 Hroot)) as (root1' & Hins' & Hshape).
  rewrite Hins in Hins'. injection Hins' as <-.
  destruct (TreePage_insert_ok r Hsize (proj1 Hroot)) as (root1' & Hins' & _ & _ & Hh1).
  rewrite Hins in Hins'. injection Hins' as <-.
  destruct (@inserted_ordered r root root1 Hshape None None Hord Hsmall I I Hnd Hfresh)
    as (Hord1 & Hsmall1 & l1 & l2 & Hr & Hr1).
  exists root'. split; [exact Hdrv|]. split; [exact Hok'|].
  destruct (Z_gt_le_dec (used_space root1) size) as [Hgt | Hle].
  - destruct (Hsplit Hgt) as (old & new & sep & Hsp & Hsep & -> & Hh').
    destruct root1 as [k | d1 | d1].
    + inversion Hord1.
    + left.
      assert (Hnd1 : NoDup (map rkey d1)).
      { simpl in Hr1. subst d1. rewrite Hr in Hnd, Hfresh. apply NoDup_keys_insert; assumption. }
      destruct (LeafPage_split_ordered Hord1 Hnd1 Hsp Hsep)
        as (_ & _ & Hoa & Hob & Hla & Hlb).
      split; [| split].
      * constructor; [simpl; lia|].
        constructor; [exact I | exact I | exact Hoa | constructor; exact Hob].
      * simpl. constructor; [exact Hla | constructor; [exact Hlb | constructor]].
      * exists l1, l2. split; [exact Hr|].
        rewrite records_of_NonLeafPage. simpl. rewrite !app_nil_r.
        rewrite (TreePage_split_records _ Hsp). exact Hr1.
    + right. rewrite Hh'. f_equal. f_equal.
      assert (Hne : d1 <> []).
      { inversion Hord1 as [| lo0 hi0 data0 Hlen Hpl]; subst.
        inversion Hpl; discriminate. }
      rewrite (small_tree_height Hne Hsmall1), Hh in Hh1. injection Hh1 as ->. reflexivity.
  - destruct (Hkeep Hle) as [-> _]. left.
    split; [exact Hord1|]. split; [exact Hsmall1|]. exists l1, l2. split; assumption.
Qed.

Lemma Permutation_filter_keys (f : record -> bool) (l l' : list record) :
  Permutation l l' -> Permutation (filter f l) (filter f l').
Proof.
  induction 1 as [| x l l' Hp IH | x y l | l l' l'' Hp1 IH1 Hp2 IH2]; simpl.
  - constructor.
  - destruct (f x); [constructor |]; exact IH.
  - destruct (f x), (f y); try apply Permutation_refl. apply perm_swap.
  - eapply Permutation_trans; eassumption.
Qed.

Lemma filter_other_keys (l : list record) (key : Z) :
  ~ In key (map rkey l) -> filter (fun x => negb (rkey x =? key)) l = l.
Proof.
  induction l as [| r l IH]; simpl; intros Hnot; [reflexivity|].
  destruct (Z.eqb_spec (rkey r) key) as [Heq | Hne]; simpl.
  - exfalso. apply Hnot. left. exact Heq.
  - rewrite IH; [reflexivity|]. intros H. apply Hnot. right. exact H.
Qed.

Lemma filter_other_keys_middle (l1 l2 : list record) (x : record) :
  NoDup (map rkey (l1 ++ x :: l2)) ->
  filter (fun y => negb (rkey y =? rkey x)) (l1 ++ x :: l2) = l1 ++ l2.
Proof.
  intros Hnd. rewrite map_app in Hnd. simpl in Hnd.
  pose proof (NoDup_remove_2 _ _ _ Hnd) as Hnot.
  rewrite filter_app. simpl. rewrite Z.eqb_refl. simpl.
  rewrite !filter_other_keys; [reflexivity | |];
    intros H; apply Hnot; apply in_or_app; [right | left]; exact H.
Qed.

Lemma LeafPage_search_nil_keys (l : list record) (key : Z) :
  LeafPage_search l key = [] -> ~ In key (map rkey l).
Proof.
  induction l as [| r l IH]; simpl; intros Hs; [intros []|].
  destruct (Z.eqb_spec (rkey r) key) as [Heq | Hne]; [discriminate|].
  intros [H | H]; [contradiction | exact (IH Hs H)].
Qed.

Lemma LeafPage_search_NoDup (l : list record) (key : Z) :
  NoDup (map rkey l) -> (length (LeafPage_search l key) <= 1)%nat.
Proof.
  induction l as [| r l IH]; simpl; intros Hnd; [lia|].
  inversion Hnd as [| k ks Hnot Hnd']; subst.
  destruct (Z.eqb_spec (rkey r) key) as [Heq | Hne]; [| exact (IH Hnd')].
  fold (LeafPage_search l key).
  rewrite (@LeafPage_search_none l key); [simpl; lia|]. rewrite <- Heq. exact Hnot.
Qed.

(** Along a script that never inserts a key the dictionary holds, a small
    ordered tree stays small and ordered and stores what the dictionary
    holds, as long as the height stays at most 2. *)
Lemma BTreeIndex_run_small (ops : list tree_op) :
  0 <= size ->
  forall root acc root' h,
    ordered None None root -> small_tree root ->
    NoDup (map rkey (records_of root)) ->
    Permutation (records_of root) acc ->
    distinct_keys acc ops = true ->
    BTreeIndex_run root ops = Some root' ->
    BTreeIndex_get_height root' = Some h -> (h <= 2)%nat ->
    ordered None None root' /\ small_tree root' /\
    NoDup (map rkey (records_of root')) /\
    Permutation (records_of root') (model_run acc ops).
Proof.
  intros Hsize. induction ops as [| op ops IH];
    intros root acc root' h Hord Hsmall Hnd Hperm Hdist Hrun Hh Hle; simpl in Hrun.
  - injection Hrun as <-. repeat split; assumption.
  - destruct op as [r | key | key]; simpl in Hrun, Hdist |- *.
    + apply andb_true_iff in Hdist. destruct Hdist as [Hfresh Hdist].
      assert (Hfresh' : ~ In (rkey r) (map rkey (records_of root))).
      { intros Hin. apply in_map_iff in Hin. destruct Hin as (x & Hx & Hin).
        apply (Permutation_in _ Hperm) in Hin.
        apply negb_true_iff in Hfresh.
        assert (Hex : existsb (fun y => rkey y =? rkey r) acc = true).
        { apply existsb_exists. exists x. split; [exact Hin | apply Z.eqb_eq; exact Hx]. }
        congruence. }
      destruct (BTreeIndex_insert_small r Hsize Hord Hsmall Hnd Hfresh')
        as (root1 & Hins & Hok1 & Hcase).
      rewrite Hins in Hrun.
      destruct Hcase as [(Hord1 & Hsmall1 & l1 & l2 & Hr & Hr1) | Hh1].
      * apply (IH root1 (r :: acc) root' h); try assumption.
        -- rewrite Hr1. rewrite Hr in Hnd, Hfresh'. apply NoDup_keys_insert; assumption.
        -- rewrite Hr1. apply Permutation_sym, Permutation_cons_app, Permutation_sym.
           rewrite <- Hr. exact Hperm.
      * exfalso.
        destruct (BTreeIndex_run_ok ops Hsize Hok1)
          as (root'' & h1 & h' & Hrun' & _ & Hh1' & Hh' & Hmono).
        rewrite Hrun in Hrun'. injection Hrun' as <-.
        rewrite Hh1 in Hh1'. injection Hh1' as <-.
        rewrite Hh in Hh'. injection Hh' as <-. lia.
    + pose proof (ordered_root_ok Hord) as Hroot.
      destruct (BTreeIndex_remove_ok key Hroot) as (root1 & b & Hrem & _ & Hdrv & _).
      destruct (TreePage_remove_shape key (proj1 Hroot)) as (root1' & b' & Hrem' & Hshape).
      rewrite Hrem in Hrem'. injection Hrem' as <- <-.
      rewrite Hdrv in Hrun. simpl in Hrun.
      destruct (@removed_ordered key root root1 b Hshape None None Hord I I) as [Hord1 Hsmall1].
      destruct (removed_spec Hshape) as (found & Hs & _ & Hb & Hrec & _).
      rewrite (@TreePage_search_ordered key root None None Hord I I) in Hs.
      injection Hs as <-.
      apply (IH root1 _ root' h); try assumption; [exact (Hsmall1 Hsmall) | |].
      * destruct b; [| rewrite Hrec; exact Hnd].
        destruct Hrec as (l1 & x & l2 & Hr & _ & Hr1 & _).
        rewrite Hr1. rewrite Hr in Hnd. rewrite map_app in *. simpl in Hnd.
        apply (NoDup_remove_1 _ _ _ Hnd).
      * destruct b.
        -- destruct Hrec as (l1 & x & l2 & Hr & Hx & Hr1 & _).
           rewrite Hr1. rewrite Hr in Hnd, Hperm.
           rewrite <- (filter_other_keys_middle _ _ _ Hnd), Hx.
           apply Permutation_filter_keys. exact Hperm.
        -- rewrite Hrec.
           assert (Hnone : LeafPage_search (records_of root) key = []).
           { destruct (LeafPage_search (records_of root) key); [reflexivity|].
             assert (false = true) by (apply Hb; discriminate). discriminate. }
           rewrite <- (@filter_other_keys (records_of root) key
                         (@LeafPage_search_nil_keys (records_of root) key Hnone)) at 1.
           apply Permutation_filter_keys. exact Hperm.
    + destruct (BTreeIndex_search root key); simpl in Hrun; [| discriminate].
      apply (IH root acc root' h); assumption.
Qed.

(** X21. While the height of the tree is at most 2 (no internal page has
    been split yet) and the script never inserts a key that is present at
    that moment, the B-tree behaves as a dictionary: it is ordered, it
    stores exactly the records inserted and not removed since, and a search
    returns the record with the key, or nothing when there is none. *)
Theorem BTreeIndex_small_tree_dictionary (ops : list tree_op) (root : slot) (h : nat) :
  0 <= size ->
  BTreeIndex_run BTreeIndex_init ops = Some root ->
  distinct_keys [] ops = true ->
  BTreeIndex_get_height root = Some h -> (h <= 2)%nat ->
  ordered None None root /\
  Permutation (records_of root) (model_run [] ops) /\
  (forall key,
     BTreeIndex_search root key = Some (LeafPage_search (model_run [] ops) key)).
Proof.
  intros Hsize Hrun Hdist Hh Hle.
  assert (Hinit : ordered None None BTreeIndex_init).
  { constructor; [constructor | intros r []]. }
  destruct (@BTreeIndex_run_small ops Hsize BTreeIndex_init [] root h Hinit I
              (NoDup_nil _) (Permutation_refl _) Hdist Hrun Hh Hle)
    as (Hord & _ & Hnd & Hperm).
  split; [exact Hord|]. split; [exact Hperm|].
  intros key. unfold BTreeIndex_search.
  rewrite (@TreePage_search_ordered key root None None Hord I I). f_equal.
  assert (Hnd' : NoDup (map rkey (model_run [] ops))).
  { eapply Permutation_NoDup; [apply Permutation_map; exact Hperm | exact Hnd]. }
  apply short_lists_eq.
  - apply LeafPage_search_NoDup. exact Hnd.
  - apply LeafPage_search_NoDup. exact Hnd'.
  - intros x. unfold LeafPage_search. rewrite !filter_In. split; intros [Hx Hk];
      (split; [| exact Hk]).
    + apply (Permutation_in _ Hperm). exact Hx.
    + apply (Permutation_in _ (Permutation_sym Hperm)). exact Hx.
Qed.

(** ** The hash engine as a dictionary *)

Lemma existsb_keys (acc : list record) (key : Z) :
  existsb (fun x => rkey x =? key) acc = true <-> In key (map rkey acc).
Proof.
  rewrite existsb_exists, in_map_iff. split; intros (x & H1 & H2).
  - exists x. split; [apply Z.eqb_eq; exact H2 | exact H1].
  - exists x. split; [exact H2 | apply Z.eqb_eq; exact H1].
Qed.

Lemma LinearHashIndex_run_model (ops : list hash_op) :
  0 < initial_buckets ->
  forall s acc s',
    hash_inv (_level s) (_next_split s) (_buckets s) ->
    Permutation (stored_records s) acc ->
    LinearHashIndex_run s ops = Some s' ->
    hash_inv (_level s') (_next_split s') (_buckets s') /\
    Permutation (stored_records s') (hash_model_run acc ops).
Proof.
  intros HN0. induction ops as [| op ops IH]; intros s acc s' Hinv Hperm Hrun; simpl in Hrun.
  - injection Hrun as <-. split; assumption.
  - destruct (LinearHashIndex_step s op) as [s1 |] eqn:Hstep; [|discriminate].
    assert (Hkeys : forall key, In key (map rkey acc) <-> In key (map rkey (stored_records s))).
    { intros key. split; apply Permutation_in, Permutation_map;
        [apply Permutation_sym |]; exact Hperm. }
    destruct op as [kind r | key | key]; simpl in Hstep |- *.
    + destruct (LinearHashIndex_insert s kind r) as [[s2 b] |] eqn:Hins; [|discriminate].
      injection Hstep as <-.
      pose proof (@LinearHashIndex_insert_inv s s2 kind r b HN0 Hinv Hins) as Hinv2.
      pose proof (@LinearHashIndex_insert_records s s2 kind r b HN0 Hinv Hins) as Hrec.
      destruct (@LinearHashIndex_search_members s (rkey r) HN0 Hinv) as (found & Hs & _ & Hmem).
      apply (IH s2 _ s' Hinv2); [| exact Hrun].
      destruct b.
      * destruct Hrec as (Hp & _ & Hbefore & _).
        rewrite Hbefore in Hs. injection Hs as <-.
        destruct (existsb (fun x => rkey x =? rkey r) acc) eqn:Hex.
        -- exfalso. apply existsb_keys, Hkeys, in_map_iff in Hex.
           destruct Hex as (x & Hx & Hin). apply (proj2 (Hmem x)). split; assumption.
        -- eapply Permutation_trans; [exact Hp|]. constructor. exact Hperm.
      * destruct Hrec as [-> (r0 & Hfound)].
        rewrite Hfound in Hs. injection Hs as <-.
        destruct (proj1 (Hmem r0) (or_introl eq_refl)) as [Hin Hk].
        assert (Hex : existsb (fun x => rkey x =? rkey r) acc = true).
        { apply existsb_keys, Hkeys. rewrite <- Hk. apply in_map. exact Hin. }
        rewrite Hex. exact Hperm.
    + destruct (LinearHashIndex_remove s key) as [[s2 b] |] eqn:Hrem; [|discriminate].
      injection Hstep as <-.
      pose proof (@LinearHashIndex_remove_inv s s2 key b HN0 Hinv Hrem) as Hinv2.
      pose proof (@LinearHashIndex_remove_records s s2 key b Hrem) as Hrec.
      apply (IH s2 _ s' Hinv2); [| exact Hrun].
      pose proof (@hash_inv_NoDup s Hinv) as Hnd.
      destruct b.
      * destruct Hrec as ((l1 & x & l2 & Hall & Hx & Hall') & _).
        rewrite Hall', <- Hx. rewrite Hall in Hnd, Hperm.
        rewrite <- (filter_other_keys_middle _ _ _ Hnd).
        apply Permutation_filter_keys. exact Hperm.
      * subst s2.
        destruct (@LinearHashIndex_remove_bucket s key HN0 Hinv) as (s3 & found & Hs & Hrem').
        rewrite Hrem in Hrem'. injection Hrem' as _ Hb.
        destruct (@LinearHashIndex_search_members s key HN0 Hinv) as (found0 & Hs0 & _ & Hmem).
        rewrite Hs in Hs0. injection Hs0 as <-.
        destruct found as [| y l]; [| discriminate].
        assert (Hnot : ~ In key (map rkey (stored_records s))).
        { intros Hin. apply in_map_iff in Hin. destruct Hin as (x & Hx & Hin).
          apply (proj2 (Hmem x)). split; assumption. }
        rewrite <- (@filter_other_keys (stored_records s) key Hnot) at 1.
        apply Permutation_filter_keys. exact Hperm.
    + destruct (LinearHashIndex_search s key); [|discriminate].
      injection Hstep as <-. apply (IH s acc s' Hinv Hperm Hrun).
Qed.

(** X22. The hash engine is a dictionary with unique keys, splits included:
    after any script of inserts, removes and searches on a fresh engine that
    runs to its end, the chains store exactly the records that were inserted
    under a key not present at that moment and not removed since, and a
    search returns the record with the key, or nothing when there is
    none. *)
Theorem LinearHashIndex_dictionary (ops : list hash_op) (s : LinearHashIndex) :
  0 < initial_buckets ->
  LinearHashIndex_run LinearHashIndex_init ops = Some s ->
  Permutation (stored_records s) (hash_model_run [] ops) /\
  (forall key,
     LinearHashIndex_search s key = Some (LeafPage_search (hash_model_run [] ops) key)).
Proof.
  intros HN0 Hrun.
  assert (Hinit : Permutation (stored_records LinearHashIndex_init) []).
  { unfold stored_records. cbn [LinearHashIndex_init _buckets].
    induction (Z.to_nat initial_buckets) as [| n IH]; simpl; [constructor | exact IH]. }
  destruct (@LinearHashIndex_run_model ops HN0 LinearHashIndex_init [] s
              (hash_inv_init HN0) Hinit Hrun) as [Hinv Hperm].
  split; [exact Hperm|]. intros key.
  destruct (@LinearHashIndex_search_members s key HN0 Hinv) as (found & Hs & Hlen & Hmem).
  rewrite Hs. f_equal.
  assert (Hnd : NoDup (map rkey (hash_model_run [] ops))).
  { eapply Permutation_NoDup; [apply Permutation_map; exact Hperm|].
    apply hash_inv_NoDup. exact Hinv. }
  apply short_lists_eq; [exact Hlen | apply LeafPage_search_NoDup; exact Hnd|].
  intros x. rewrite Hmem. unfold LeafPage_search. rewrite filter_In, Z.eqb_eq.
  split; intros [Hx Hk]; (split; [| exact Hk]).
  - apply (Permutation_in _ Hperm). exact Hx.
  - apply (Permutation_in _ (Permutation_sym Hperm)). exact Hx.
Qed.

(** An insert into an ordered page puts the record among the records below
    it: the descent never ends past the payload. *)
Lemma inserted_ordered_records (r : record) (p p' : slot) :
  inserted r p p' ->
  forall lo hi,
    ordered lo hi p -> above lo (rkey r) -> below hi (rkey r) ->
    exists l1 l2, records_of p = l1 ++ l2 /\ records_of p' = l1 ++ r :: l2.
Proof.
  induction 1 as [data data' Hins | data Hpos | pre c c' post Hev Hpos Hins IH Hfits
                 | pre c c' a b k post Hev Hpos Hins IH Hover Hsplit Hsep];
    intros lo hi Hord Hkl Hkh.
  - unfold LeafPage_insert in Hins.
    destruct (TreePage_binary_search data (rkey r)) as [pos |]; [| discriminate].
    injection Hins as <-. exists (firstn pos data), (skipn pos data).
    split; [symmetry; apply firstn_skipn | reflexivity].
  - exfalso. inversion Hord as [| lo0 hi0 data0 Hlen Hpl]; subst.
    destruct (ordered_payload_binary_search (rkey r) Hpl)
      as (ks & p & _ & Hbs & Hp & _ & _ & Hlen').
    rewrite Hpos in Hbs. injection Hbs as Hbs. lia.
  - inversion Hord as [| lo0 hi0 data0 Hlen Hpl]; subst.
    destruct (ordered_payload_binary_search (rkey r) Hpl)
      as (ks & p & Hks & Hbs & Hp & Hplo & Hphi & Hlen').
    rewrite Hpos in Hbs. injection Hbs as Hbs.
    destruct (@ordered_payload_at (rkey r) lo hi _ Hpl ks p Hks Hp Hplo Hphi Hkl Hkh)
      as (pre0 & c0 & post0 & lo' & hi' & Heq & Hpre0 & Hc & Hl' & Hh' & _).
    destruct (@app_eq_by_length _ pre pre0 c c0 post post0 Heq) as (<- & <- & <-); [lia|].
    destruct (IH lo' hi' Hc Hl' Hh') as (l1 & l2 & Hr1 & Hr2).
    exists (flat_map records_of pre ++ l1), (l2 ++ flat_map records_of post).
    rewrite !records_of_middle, Hr1, Hr2, <- !app_assoc. split; reflexivity.
  - inversion Hord as [| lo0 hi0 data0 Hlen Hpl]; subst.
    destruct (ordered_payload_binary_search (rkey r) Hpl)
      as (ks & p & Hks & Hbs & Hp & Hplo & Hphi & Hlen').
    rewrite Hpos in Hbs. injection Hbs as Hbs.
    destruct (@ordered_payload_at (rkey r) lo hi _ Hpl ks p Hks Hp Hplo Hphi Hkl Hkh)
      as (pre0 & c0 & post0 & lo' & hi' & Heq & Hpre0 & Hc & Hl' & Hh' & _).
    destruct (@app_eq_by_length _ pre pre0 c c0 post post0 Heq) as (<- & <- & <-); [lia|].
    destruct (IH lo' hi' Hc Hl' Hh') as (l1 & l2 & Hr1 & Hr2).
    exists (flat_map records_of pre ++ l1), (l2 ++ flat_map records_of post).
    rewrite (@records_of_split_middle pre a b c' k post (TreePage_split_records _ Hsplit)).
    rewrite !records_of_middle, Hr1, Hr2, <- !app_assoc. split; reflexivity.
Qed.

(** X23. [BTreeIndex.insert] into an ordered tree always stores the record:
    it returns, the records below the new root are the old ones with the new
    record put in, and a range search over the record's key returns it.
    (The new tree itself need not be ordered any more when an internal page
    was split on the way.) *)
Theorem BTreeIndex_insert_ordered_stores (root : slot) (r : record) :
  0 <= size ->
  ordered None None root ->
  exists root' found,
    BTreeIndex_insert root r = Some root' /\
    (exists l1 l2, records_of root = l1 ++ l2 /\ records_of root' = l1 ++ r :: l2) /\
    BTreeIndex_range_search root' (rkey r) (rkey r) = Some found /\
    In r found.
Proof.
  intros Hsize Hord.
  pose proof (ordered_root_ok Hord) as Hroot.
  destruct (BTreeIndex_insert_ok r Hsize Hroot)
    as (root1 & root' & h & Hins & Hdrv & _ & Hok' & Hsplit & Hkeep).
  destruct (TreePage_insert_shape r Hsize (proj1 Hroot)) as (root1' & Hins' & Hshape).
  rewrite Hins in Hins'. injection Hins' as <-.
  destruct (@inserted_ordered_records r root root1 Hshape None None Hord I I)
    as (l1 & l2 & Hr & Hr1).
  assert (Hsame : records_of root' = records_of root1).
  { destruct (Z_gt_le_dec (used_space root1) size) as [Hgt | Hle].
    - destruct (Hsplit Hgt) as (old & new & sep & Hsp & _ & -> & _).
      rewrite records_of_NonLeafPage. simpl. rewrite !app_nil_r.
      apply TreePage_split_records. exact Hsp.
    - destruct (Hkeep Hle) as [-> _]. reflexivity. }
  exists root'. eexists. split; [exact Hdrv|].
  split; [exists l1, l2; split; [exact Hr | rewrite Hsame; exact Hr1]|].
  unfold BTreeIndex_range_search.
  split; [apply (BTreeIndex_range_search_helper_ok (rkey r) (rkey r) (proj1 Hok'))|].
  apply filter_In. split.
  - rewrite Hsame, Hr1. apply in_or_app. right. left. reflexivity.
  - rewrite Z.leb_refl. reflexivity.
Qed.

Lemma HashPage_clear_new (p : HashPage) : HashPage_clear p = HashPage_new.
Proof. reflexivity. Qed.

(** ** When the operations of the hash index raise *)




Lemma py_index_empty (i : Z) : py_index 0 i = None.
Proof.
  unfold py_index. destruct (Z.leb_spec 0 i) as [Hle | Hlt].
  - destruct (Z.ltb_spec i (Z.of_nat 0)); [lia | reflexivity].
  - destruct (Z.leb_spec (- Z.of_nat 0) i); [lia | reflexivity].
Qed.

(** X25. An engine constructed with [initial_buckets <= 0] has no bucket,
    and every insert, remove and search on it raises ([ZeroDivisionError]
    for 0, [IndexError] below 0): no script of operations runs on it. *)
Theorem LinearHashIndex_no_buckets (kind : pyseq) (r : record) (key : Z) :
  initial_buckets <= 0 ->
  _buckets LinearHashIndex_init = [] /\
  LinearHashIndex_insert LinearHashIndex_init kind r = None /\
  LinearHashIndex_remove LinearHashIndex_init key = None /\
  LinearHashIndex_search LinearHashIndex_init key = None /\
  (forall op ops, LinearHashIndex_run LinearHashIndex_init (op :: ops) = None).
Proof.
  intros HN0.
  assert (Hb : _buckets LinearHashIndex_init = []).
  { cbn [LinearHashIndex_init _buckets].
    replace (Z.to_nat initial_buckets) with 0%nat by lia. reflexivity. }
  assert (Hins : forall kind r, LinearHashIndex_insert LinearHashIndex_init kind r = None).
  { intros kind0 r0. unfold LinearHashIndex_insert. rewrite Hb.
    destruct (_get_bucket_index LinearHashIndex_init (rkey r0)); [| reflexivity].
    cbn [length]. rewrite py_index_empty. reflexivity. }
  assert (Hrem : forall key, LinearHashIndex_remove LinearHashIndex_init key = None).
  { intros key0. unfold LinearHashIndex_remove. rewrite Hb.
    destruct (_get_bucket_index LinearHashIndex_init key0); [| reflexivity].
    cbn [length]. rewrite py_index_empty. reflexivity. }
  assert (Hsearch : forall key, LinearHashIndex_search LinearHashIndex_init key = None).
  { intros key0. unfold LinearHashIndex_search. rewrite Hb.
    destruct (_get_bucket_index LinearHashIndex_init key0); [| reflexivity].
    unfold py_getitem. cbn [length]. rewrite py_index_empty. reflexivity. }
  split; [exact Hb|]. split; [apply Hins|]. split; [apply Hrem|]. split; [apply Hsearch|].
  intros op ops. cbn [LinearHashIndex_run].
  destruct op as [kind0 r0 | key0 | key0]; cbn [LinearHashIndex_step];
    rewrite ?Hins, ?Hrem, ?Hsearch; reflexivity.
Qed.

End Index.

(** * Concrete runs

    The sizes of CPython 3.11 on a 64-bit platform: an [int] takes 24 bytes
    and 4 more for every 30 bits of its magnitude, a tuple 24 bytes and 8
    for every element, an instance of a page class 24 bytes. *)

Definition cpython_int_sizeof (n : Z) : Z := 24 + 4 * (Z.log2 (Z.abs n) / 30 + 1).
Definition cpython_tuple_sizeof (r : record) : Z := 24 + 8 * Z.of_nat (S (length (rvals r))).
Definition cpython_page_sizeof : Z := 24.

(** ** A B-tree with pages of 256 bytes *)

Definition btree_insert : slot -> record -> option slot :=
  BTreeIndex_insert cpython_int_sizeof cpython_tuple_sizeof cpython_page_sizeof 256.

Definition btree_run : slot -> list tree_op -> option slot :=
  BTreeIndex_run cpython_int_sizeof cpython_tuple_sizeof cpython_page_sizeof 256.

(** The records [(10, 0), (20, 0), ..., (10 * n, 0)]. *)
Definition tens (n : nat) : list record :=
  map (fun i => mkRecord (10 * Z.of_nat i) [0]) (seq 1 n).

(** The tree after the first 18 of them: a root with five leaves. *)
Definition tree18 : slot :=
  Eval vm_compute in
    match btree_run BTreeIndex_init (map TreeInsert (tens 18)) with
    | Some root => root
    | None => BTreeIndex_init
    end.

(** The tree after 19: the root has been split. *)
Definition tree19 : slot :=
  Eval vm_compute in
    match btree_insert tree18 (mkRecord 190 [0]) with
    | Some root => root
    | None => BTreeIndex_init
    end.

(** C1, where the code fails.  After the inserts of [(10, 0)] to [(190,
    0)], [insert((75, 0))] returns [True] and [search(75)] finds nothing:
    the record went to the page the root split left with a key as its last
    slot, which has no child for it.  [search(70)] finds nothing either,
    though [(70, 0)] is stored.  And of seven records with the key 5,
    inserted into a fresh tree, [search(5)] returns the last four. *)
Theorem BTreeIndex_insert_then_search_misses :
  (exists root root',
     btree_run BTreeIndex_init (map TreeInsert (tens 19)) = Some root /\
     btree_insert root (mkRecord 75 [0]) = Some root' /\
     BTreeIndex_search root' 75 = Some [] /\
     ~ In (mkRecord 75 [0]) (records_of root') /\
     In (mkRecord 70 [0]) (records_of root) /\
     BTreeIndex_search root 70 = Some []) /\
  (exists root,
     btree_run BTreeIndex_init
       (map (fun v => TreeInsert (mkRecord 5 [v])) [1; 2; 3; 4; 5; 6; 7]) = Some root /\
     BTreeIndex_search root 5
     = Some [mkRecord 5 [4]; mkRecord 5 [5]; mkRecord 5 [6]; mkRecord 5 [7]]).
Proof.
  split.
  - do 2 eexists.
    split; [vm_compute; reflexivity|].
    split; [vm_compute; reflexivity|].
    split; [vm_compute; reflexivity|].
    split; [vm_compute; intuition discriminate|].
    split; [vm_compute; tauto | vm_compute; reflexivity].
  - eexists. split; vm_compute; reflexivity.
Qed.

(** Two records with one key, in a leaf that is not split, are both found,
    in the order of their insertion. *)
Example BTreeIndex_two_duplicates :
  exists root,
    btree_run BTreeIndex_init [TreeInsert (mkRecord 5 [1]); TreeInsert (mkRecord 5 [2])]
    = Some root /\
    BTreeIndex_search root 5 = Some [mkRecord 5 [1]; mkRecord 5 [2]].
Proof. eexists. split; vm_compute; reflexivity. Qed.

(** The root split of the 19th insert, slot by slot: the page that was the
    root keeps four slots and ends with the key 70. *)
Example NonLeafPage_split_of_the_root :
  exists data1 leaf0 leaf1,
    TreePage_insert cpython_int_sizeof cpython_tuple_sizeof cpython_page_sizeof 256
      tree18 (mkRecord 190 [0]) = Some (NonLeafPage data1) /\
    length data1 = 11%nat /\
    fst (NonLeafPage_split data1) = [leaf0; Key 40; leaf1; Key 70].
Proof.
  do 3 eexists. split; [vm_compute; reflexivity|]. split; vm_compute; reflexivity.
Qed.

(** C10 as stated fails: the insert of [(190, 0)] shortens the payload of
    an existing internal page.  The page that is the root before the insert,
    with 9 slots, is [old_root] after it, the first child of the new root,
    with the 4 slots its [split] left it. *)
Lemma BTreeIndex_insert_shortens_internal_page :
  exists data data1 retained new sep,
    btree_run BTreeIndex_init (map TreeInsert (tens 18)) = Some (NonLeafPage data) /\
    TreePage_insert cpython_int_sizeof cpython_tuple_sizeof cpython_page_sizeof 256
      (NonLeafPage data) (mkRecord 190 [0]) = Some (NonLeafPage data1) /\
    NonLeafPage_split data1 = (retained, new) /\
    btree_insert (NonLeafPage data) (mkRecord 190 [0])
    = Some (NonLeafPage [NonLeafPage retained; Key sep; NonLeafPage new]) /\
    length data = 9%nat /\ length retained = 4%nat.
Proof.
  do 5 eexists.
  split; [vm_compute; reflexivity|].
  split; [vm_compute; reflexivity|].
  split; [vm_compute; reflexivity|].
  split; [vm_compute; reflexivity|].
  split; vm_compute; reflexivity.
Qed.

(** ** The B-tree theorems on these trees *)

Lemma LeafPage_insert_sorted_witness :
  Sorted Z.le (LeafPage_get_key_list [mkRecord 2 [0]; mkRecord 5 [1]; mkRecord 5 [2]; mkRecord 9 [3]]) /\
  exists p,
    LeafPage_insert [mkRecord 2 [0]; mkRecord 5 [1]; mkRecord 5 [2]; mkRecord 9 [3]]
      (mkRecord 5 [4])
    = Some (firstn p [mkRecord 2 [0]; mkRecord 5 [1]; mkRecord 5 [2]; mkRecord 9 [3]]
            ++ mkRecord 5 [4]
            :: skipn p [mkRecord 2 [0]; mkRecord 5 [1]; mkRecord 5 [2]; mkRecord 9 [3]]).
Proof.
  assert (H : Sorted Z.le
                (LeafPage_get_key_list
                   [mkRecord 2 [0]; mkRecord 5 [1]; mkRecord 5 [2]; mkRecord 9 [3]])).
  { simpl. repeat constructor; lia. }
  split; [exact H|].
  destruct (@LeafPage_insert_sorted
              [mkRecord 2 [0]; mkRecord 5 [1]; mkRecord 5 [2]; mkRecord 9 [3]]
              (mkRecord 5 [4]) H) as (p & _ & _ & _ & _ & Hins & _).
  exists p. exact Hins.
Defined.

Lemma BTreeIndex_root_split_height_witness :
  0 <= 256 /\
  btree_run BTreeIndex_init (map TreeInsert (tens 18)) = Some tree18 /\
  exists root' h,
    btree_insert tree18 (mkRecord 190 [0]) = Some root' /\
    BTreeIndex_get_height tree18 = Some h.
Proof.
  assert (H0 : 0 <= 256) by lia.
  assert (Hrun : btree_run BTreeIndex_init (map TreeInsert (tens 18)) = Some tree18)
    by (vm_compute; reflexivity).
  split; [exact H0|]. split; [exact Hrun|].
  destruct (@BTreeIndex_root_split_height cpython_int_sizeof cpython_tuple_sizeof
              cpython_page_sizeof 256 (map TreeInsert (tens 18)) tree18
              (mkRecord 190 [0]) H0 Hrun) as (root1 & root' & h & _ & Hins & Hh & _).
  exists root', h. split; [exact Hins | exact Hh].
Defined.

Lemma BTreeIndex_height_never_decreases_witness :
  0 <= 256 /\
  btree_run BTreeIndex_init (map TreeInsert (tens 19)) = Some tree19 /\
  forall key, exists root1 b,
    TreePage_remove tree19 key = Some (root1, b) /\
    skeleton root1 = skeleton tree19 /\
    root_collapses root1 = false /\
    BTreeIndex_remove tree19 key = Some (root1, b).
Proof.
  assert (H0 : 0 <= 256) by lia.
  assert (Hrun : btree_run BTreeIndex_init (map TreeInsert (tens 19)) = Some tree19)
    by (vm_compute; reflexivity).
  split; [exact H0|]. split; [exact Hrun|].
  exact (proj1 (proj2 (@BTreeIndex_height_never_decreases cpython_int_sizeof
                         cpython_tuple_sizeof cpython_page_sizeof 256
                         (map TreeInsert (tens 19)) tree19 H0 Hrun))).
Defined.

(** ** A hash engine with pages of 512 bytes and 4 initial buckets *)

(** The default utilization, the [float] nearest to 0.8. *)
Definition utilization_default : float := 0x1.999999999999ap-1%float.

Definition hash_insert : LinearHashIndex -> pyseq -> record -> option (LinearHashIndex * bool) :=
  LinearHashIndex_insert cpython_int_sizeof cpython_tuple_sizeof 512 4 utilization_default.

Definition hash_run : LinearHashIndex -> list hash_op -> option LinearHashIndex :=
  LinearHashIndex_run cpython_int_sizeof cpython_tuple_sizeof 512 4 utilization_default.

(** The records [(0, 0), (1, 0), ..., (n - 1, 0)], as the CSV loader hands
    them over. *)
Definition counting (n : nat) : list hash_op :=
  map (fun i => HashInsert PyList (mkRecord (Z.of_nat i) [0])) (seq 0 n).

(** The engine after the first 19 of them, one record short of its first
    split. *)
Definition engine19 : LinearHashIndex :=
  Eval vm_compute in
    match hash_run (LinearHashIndex_init 4) (counting 19) with
    | Some s => s
    | None => LinearHashIndex_init 4
    end.

(** The engine after 20: bucket 0 has been split. *)
Definition engine20 : LinearHashIndex :=
  Eval vm_compute in
    match hash_insert engine19 PyList (mkRecord 19 [0]) with
    | Some (s, _) => s
    | None => LinearHashIndex_init 4
    end.

(** The engine after [insert([7, 1])]. *)
Definition engine7 : LinearHashIndex :=
  Eval vm_compute in
    match hash_insert (LinearHashIndex_init 4) PyList (mkRecord 7 [1]) with
    | Some (s, _) => s
    | None => LinearHashIndex_init 4
    end.

(** The script [+,1 +,17 +,33 -,17 ?,1 ?,17]: the three keys share bucket 1,
    17 is removed, two records are left. *)
Example LinearHashIndex_round_trip :
  exists s,
    hash_run (LinearHashIndex_init 4)
      [HashInsert PyList (mkRecord 1 []); HashInsert PyList (mkRecord 17 []);
       HashInsert PyList (mkRecord 33 []); HashRemove 17; HashSearch 1; HashSearch 17]
    = Some s /\
    LinearHashIndex_search 4 s 1 = Some [mkRecord 1 []] /\
    LinearHashIndex_search 4 s 17 = Some [] /\
    _num_records s = 2.
Proof. eexists. split; [vm_compute; reflexivity|]. repeat split; vm_compute; reflexivity. Qed.

(** ** The hash theorems on these engines *)

Lemma hash_range_and_rehash_witness :
  0 < 4 /\
  exists old,
    _hash 4 (-7) 1 = Some old /\ 0 <= old < 2 ^ Z.of_nat 1 * 4 /\
    (_hash 4 (-7) (1 + 1) = Some old \/ _hash 4 (-7) (1 + 1) = Some (old + 2 ^ Z.of_nat 1 * 4)).
Proof.
  assert (H : 0 < 4) by lia.
  split; [exact H|].
  destruct (@hash_range_and_rehash 4 (-7) 1%nat H) as (old & Hold & _ & Hrange & Hnext).
  exists old. split; [exact Hold|]. split; [exact Hrange | exact Hnext].
Defined.

(** The scenario of the duplicate: [insert([7, 1])] is accepted,
    [insert([7, 2])] is rejected and changes nothing, [search(7)] returns
    [(7, 1)] and one record is counted. *)
Lemma LinearHashIndex_insert_duplicate_witness :
  hash_insert (LinearHashIndex_init 4) PyList (mkRecord 7 [1]) = Some (engine7, true) /\
  hash_insert engine7 PyList (mkRecord 7 [2]) = Some (engine7, false) /\
  LinearHashIndex_search 4 engine7 7 = Some [mkRecord 7 [1]] /\
  _num_records engine7 = 1.
Proof.
  split; [vm_compute; reflexivity|].
  split; [|split; vm_compute; reflexivity].
  apply (@LinearHashIndex_insert_duplicate cpython_int_sizeof cpython_tuple_sizeof 512 4
           utilization_default engine7 PyList (mkRecord 7 [2]) 3
           (mkHashPage [mkRecord 7 [1]] None)).
  - vm_compute. reflexivity.
  - vm_compute. reflexivity.
  - simpl. left. reflexivity.
Defined.

(** The first split: the 20th record makes the load factor reach 0.8. *)
Lemma LinearHashIndex_insert_split_rule_witness :
  hash_insert engine19 PyList (mkRecord 19 [0]) = Some (engine20, true) /\
  _num_splits engine19 = 0 /\ _num_splits engine20 = 1 /\
  forall key s2 removed,
    LinearHashIndex_remove 4 engine19 key = Some (s2, removed) ->
    _num_splits s2 = _num_splits engine19 /\
    length (_buckets s2) = length (_buckets engine19) /\
    _level s2 = _level engine19 /\ _next_split s2 = _next_split engine19.
Proof.
  assert (H : hash_insert engine19 PyList (mkRecord 19 [0]) = Some (engine20, true))
    by (vm_compute; reflexivity).
  split; [exact H|]. split; [reflexivity|]. split; [reflexivity|].
  exact (proj2 (@LinearHashIndex_insert_split_rule cpython_int_sizeof cpython_tuple_sizeof
                  512 4 utilization_default engine19 engine20 PyList (mkRecord 19 [0])
                  true H)).
Defined.

Lemma LinearHashIndex_addressing_consistent_witness :
  0 < 4 /\
  hash_run (LinearHashIndex_init 4) (counting 20) = Some engine20 /\
  _get_bucket_index 4 engine20 12 = Some (Z.of_nat 4) /\
  LinearHashIndex_search 4 engine20 12 = Some [mkRecord 12 [0]].
Proof.
  assert (H0 : 0 < 4) by lia.
  assert (Hrun : hash_run (LinearHashIndex_init 4) (counting 20) = Some engine20)
    by (vm_compute; reflexivity).
  split; [exact H0|]. split; [exact Hrun|].
  assert (Hnth : nth_error (_buckets engine20) 4
                 = Some (mkHashPage [mkRecord 4 [0]; mkRecord 12 [0]] None))
    by reflexivity.
  assert (Hin : In (mkRecord 12 [0])
                  (HashPage_get_all_records (mkHashPage [mkRecord 4 [0]; mkRecord 12 [0]] None)))
    by (simpl; right; left; reflexivity).
  destruct (@LinearHashIndex_addressing_consistent cpython_int_sizeof cpython_tuple_sizeof
              512 4 utilization_default (counting 20) engine20 4%nat
              (mkHashPage [mkRecord 4 [0]; mkRecord 12 [0]] None) (mkRecord 12 [0])
              H0 Hrun Hnth Hin) as (Hidx & Hsearch & _).
  split; [exact Hidx | exact Hsearch].
Defined.

(** The split of bucket 0 of [engine19], with one more record counted. *)
Lemma split_preserves_records_witness :
  py_index (length (_buckets engine19)) (_next_split engine19) = Some 0%nat /\
  (forall s',
     _split cpython_int_sizeof cpython_tuple_sizeof 512 4 engine19 = Some s' ->
     Permutation (stored_records engine19) (stored_records s')) /\
  exists s', _split cpython_int_sizeof cpython_tuple_sizeof 512 4 engine19 = Some s'.
Proof.
  assert (Hidx : py_index (length (_buckets engine19)) (_next_split engine19) = Some 0%nat)
    by reflexivity.
  assert (Hold : nth_error (_buckets engine19) 0
                 = Some (mkHashPage [mkRecord 0 [0]; mkRecord 4 [0]; mkRecord 8 [0];
                                     mkRecord 12 [0]; mkRecord 16 [0]] None))
    by reflexivity.
  assert (Hnd : NoDup (map rkey (HashPage_get_all_records
                                   (mkHashPage [mkRecord 0 [0]; mkRecord 4 [0]; mkRecord 8 [0];
                                                mkRecord 12 [0]; mkRecord 16 [0]] None)))).
  { simpl. repeat (constructor; [simpl; intuition discriminate|]). constructor. }
  destruct (proj2 (proj2 (@split_preserves_records cpython_int_sizeof cpython_tuple_sizeof
                            512 4)) engine19 0%nat _ Hidx Hold Hnd) as [Hperm Htotal].
  split; [exact Hidx|]. split; [exact Hperm|].
  apply Htotal.
  - discriminate.
  - simpl. intros r Hr.
    repeat (destruct Hr as [<- | Hr]; [vm_compute; discriminate|]). destruct Hr.
Defined.

(** ** The split rule in the words of the spec *)

(** [num_records / num_buckets >= U * C], every operation in binary64. *)
Definition spec_need_split (U C : float) (num_records num_buckets : Z) : option bool :=
  option_map (fun avg => PrimFloat.leb (PrimFloat.mul U C) avg)
    (int_truediv num_records num_buckets).

(** The rational number a finite [float] stands for. *)
Definition float_to_Q (f : float) : option Q :=
  match Prim2SF f with
  | S754_zero _ => Some 0%Q
  | S754_finite sign m e =>
      let v := if 0 <=? e then inject_Z (Zpos m * 2 ^ e)
               else Qmake (Zpos m) (Z.to_pos (2 ^ (- e))) in
      Some (if sign then Qopp v else v)
  | _ => None
  end.

(** [num_records / num_buckets >= U * C] over the rationals, on the numbers
    that [U] and [C] stand for. *)
Definition spec_need_split_exact (U C : float) (num_records num_buckets : Z) : option bool :=
  match float_to_Q U, float_to_Q C with
  | Some u, Some c =>
      Some (Qle_bool (u * c) (Qmake num_records (Z.to_pos num_buckets)))
  | _, _ => None
  end.

(** The [float] that the literal [0.5833333333333334] denotes, the one
    nearest to 7/12. *)
Definition utilization_7_12 : float := 0x1.2aaaaaaaaaaabp-1%float.

(** C3 as stated fails.  With pages of 512 bytes, 4 initial buckets and
    [utilization=0.5833333333333334], the insert of the 32nd record, which
    makes 32 records in 9 buckets, splits a bucket: the load factor
    [(32 / 9) / C] rounds to [U].  Yet [32 / 9 >= U * C] is false: in
    binary64, over the rationals on the numbers the floats [U] and [C] stand
    for, and over the rationals with the decimal [0.5833333333333334] and
    [C = 512 / 84]. *)
Lemma LinearHashIndex_split_rule_not_the_product :
  exists s s' C,
    LinearHashIndex_run cpython_int_sizeof cpython_tuple_sizeof 512 4 utilization_7_12
      (LinearHashIndex_init 4) (counting 31) = Some s /\
    LinearHashIndex_insert cpython_int_sizeof cpython_tuple_sizeof 512 4 utilization_7_12
      s PyList (mkRecord 31 [0]) = Some (s', true) /\
    _num_splits s' = _num_splits s + 1 /\
    _num_records s + 1 = 32 /\ _num_buckets s = 9 /\
    max_records_per_bucket cpython_int_sizeof 512 = Some C /\
    spec_need_split utilization_7_12 C 32 9 = Some false /\
    spec_need_split_exact utilization_7_12 C 32 9 = Some false /\
    Qle_bool ((5833333333333334 # 10000000000000000) * (512 # 84)) (32 # 9) = false.
Proof.
  do 3 eexists.
  split; [vm_compute; reflexivity|].
  split; [vm_compute; reflexivity|].
  split; [vm_compute; reflexivity|].
  split; [vm_compute; reflexivity|].
  split; [vm_compute; reflexivity|].
  split; [vm_compute; reflexivity|].
  split; [vm_compute; reflexivity|].
  split; vm_compute; reflexivity.
Qed.

(** ** More B-tree theorems on these trees *)

(** The tree after the inserts of 10, 20, ..., 70: the first leaf split. *)
Definition tree7 : slot :=
  Eval vm_compute in
    match btree_run BTreeIndex_init (map TreeInsert (tens 7)) with
    | Some root => root
    | None => BTreeIndex_init
    end.

(** A script with a remove and a search among the inserts. *)
Definition script7 : list tree_op :=
  map TreeInsert (tens 7) ++ [TreeRemove 30; TreeSearch 40; TreeInsert (mkRecord 35 [1])].

Definition tree7' : slot :=
  Eval vm_compute in
    match btree_run BTreeIndex_init script7 with
    | Some root => root
    | None => BTreeIndex_init
    end.

Lemma ordered_tree7 : ordered None None tree7.
Proof.
  unfold tree7. constructor; [simpl; lia|].
  constructor; try exact I.
  - constructor; [simpl; repeat constructor; lia|].
    intros r Hr. simpl in Hr. split; [exact I|]. simpl.
    repeat (destruct Hr as [<- | Hr]; [simpl; lia|]). destruct Hr.
  - constructor. constructor; [simpl; repeat constructor; lia|].
    intros r Hr. simpl in Hr. split; [| exact I]. simpl.
    repeat (destruct Hr as [<- | Hr]; [simpl; lia|]). destruct Hr.
Qed.

Lemma LeafPage_insert_then_search_witness :
  Sorted Z.le (LeafPage_get_key_list [mkRecord 2 [0]; mkRecord 5 [1]; mkRecord 5 [2]; mkRecord 9 [3]]) /\
  exists data',
    LeafPage_insert [mkRecord 2 [0]; mkRecord 5 [1]; mkRecord 5 [2]; mkRecord 9 [3]]
      (mkRecord 5 [4]) = Some data' /\
    LeafPage_search data' 5 = [mkRecord 5 [1]; mkRecord 5 [2]; mkRecord 5 [4]].
Proof.
  assert (H : Sorted Z.le
                (LeafPage_get_key_list
                   [mkRecord 2 [0]; mkRecord 5 [1]; mkRecord 5 [2]; mkRecord 9 [3]])).
  { simpl. repeat constructor; lia. }
  split; [exact H|].
  destruct (@LeafPage_insert_then_search
              [mkRecord 2 [0]; mkRecord 5 [1]; mkRecord 5 [2]; mkRecord 9 [3]]
              (mkRecord 5 [4]) H) as (data' & Hins & Hsearch & _).
  exists data'. split; [exact Hins | exact Hsearch].
Defined.

Lemma LeafPage_split_sorted_witness :
  Sorted Z.le (LeafPage_get_key_list [mkRecord 2 [0]; mkRecord 5 [1]; mkRecord 5 [2]; mkRecord 9 [3]]) /\
  [mkRecord 2 [0]; mkRecord 5 [1]; mkRecord 5 [2]; mkRecord 9 [3]] <> [] /\
  exists r0 rest,
    snd (LeafPage_split [mkRecord 2 [0]; mkRecord 5 [1]; mkRecord 5 [2]; mkRecord 9 [3]])
    = r0 :: rest /\
    forall x,
      In x (fst (LeafPage_split [mkRecord 2 [0]; mkRecord 5 [1]; mkRecord 5 [2]; mkRecord 9 [3]])) ->
      rkey x <= rkey r0.
Proof.
  assert (H : Sorted Z.le
                (LeafPage_get_key_list
                   [mkRecord 2 [0]; mkRecord 5 [1]; mkRecord 5 [2]; mkRecord 9 [3]])).
  { simpl. repeat constructor; lia. }
  assert (Hne : [mkRecord 2 [0]; mkRecord 5 [1]; mkRecord 5 [2]; mkRecord 9 [3]] <> [])
    by discriminate.
  split; [exact H|]. split; [exact Hne|].
  destruct (@LeafPage_split_sorted
              [mkRecord 2 [0]; mkRecord 5 [1]; mkRecord 5 [2]; mkRecord 9 [3]] H Hne)
    as (r0 & rest & Hsnd & _ & _ & _ & Hle & _).
  exists r0, rest. split; [exact Hsnd | exact Hle].
Defined.

Lemma BTreeIndex_search_sound_witness :
  0 <= 256 /\
  btree_run BTreeIndex_init (map TreeInsert (tens 18)) = Some tree18 /\
  exists found,
    BTreeIndex_search tree18 40 = Some found /\
    forall r, In r found -> rkey r = 40 /\ In r (records_of tree18).
Proof.
  assert (H0 : 0 <= 256) by lia.
  assert (Hrun : btree_run BTreeIndex_init (map TreeInsert (tens 18)) = Some tree18)
    by (vm_compute; reflexivity).
  split; [exact H0|]. split; [exact Hrun|].
  destruct (@BTreeIndex_search_sound cpython_int_sizeof cpython_tuple_sizeof
              cpython_page_sizeof 256 (map TreeInsert (tens 18)) tree18 40 H0 Hrun)
    as (found & Hfound & _ & Hall).
  exists found. split; [exact Hfound | exact Hall].
Defined.


Lemma BTreeIndex_remove_records_witness :
  0 <= 256 /\
  btree_run BTreeIndex_init (map TreeInsert (tens 18)) = Some tree18 /\
  exists root' b found,
    BTreeIndex_remove tree18 40 = Some (root', b) /\
    BTreeIndex_search tree18 40 = Some found /\
    (b = true <-> found <> []) /\
    BTreeIndex_search root' 40 = Some (tl found).
Proof.
  assert (H0 : 0 <= 256) by lia.
  assert (Hrun : btree_run BTreeIndex_init (map TreeInsert (tens 18)) = Some tree18)
    by (vm_compute; reflexivity).
  split; [exact H0|]. split; [exact Hrun|].
  destruct (@BTreeIndex_remove_records cpython_int_sizeof cpython_tuple_sizeof
              cpython_page_sizeof 256 (map TreeInsert (tens 18)) tree18 40 H0 Hrun)
    as (root' & b & found & Hrem & Hs & Hb & _ & Hs' & _).
  exists root', b, found. repeat split; try assumption; apply Hb.
Defined.

(** The range search reaches the record of key 70, which the point search
    of [tree19] misses. *)
Lemma BTreeIndex_range_search_complete_witness :
  0 <= 256 /\
  btree_run BTreeIndex_init (map TreeInsert (tens 19)) = Some tree19 /\
  BTreeIndex_range_search tree19 60 80
  = Some (filter (fun r => (60 <=? rkey r) && (rkey r <=? 80)) (records_of tree19)).
Proof.
  assert (H0 : 0 <= 256) by lia.
  assert (Hrun : btree_run BTreeIndex_init (map TreeInsert (tens 19)) = Some tree19)
    by (vm_compute; reflexivity).
  split; [exact H0|]. split; [exact Hrun|].
  exact (proj1 (@BTreeIndex_range_search_complete cpython_int_sizeof cpython_tuple_sizeof
                  cpython_page_sizeof 256 (map TreeInsert (tens 19)) tree19 60 80 H0 Hrun)).
Defined.

Lemma BTreeIndex_get_statistics_counts_witness :
  0 <= 256 /\
  btree_run BTreeIndex_init (map TreeInsert (tens 18)) = Some tree18 /\
  exists st,
    BTreeIndex_get_statistics tree18 = Some st /\
    stat_num_records st = length (records_of tree18) /\
    stat_num_leaf_nodes st = length (leaves_of tree18).
Proof.
  assert (H0 : 0 <= 256) by lia.
  assert (Hrun : btree_run BTreeIndex_init (map TreeInsert (tens 18)) = Some tree18)
    by (vm_compute; reflexivity).
  split; [exact H0|]. split; [exact Hrun|].
  destruct (@BTreeIndex_get_statistics_counts cpython_int_sizeof cpython_tuple_sizeof
              cpython_page_sizeof 256 (map TreeInsert (tens 18)) tree18 H0 Hrun)
    as (st & Hst & Hrec & Hleaf & _).
  exists st. split; [exact Hst|]. split; [exact Hrec | exact Hleaf].
Defined.

Lemma BTreeIndex_get_statistics_steps_witness :
  0 <= 256 /\
  btree_run BTreeIndex_init (map TreeInsert (tens 18)) = Some tree18 /\
  exists st,
    BTreeIndex_get_statistics tree18 = Some st /\
    forall key, exists root' b st',
      BTreeIndex_remove tree18 key = Some (root', b) /\
      BTreeIndex_get_statistics root' = Some st' /\
      stat_num_nodes st' = stat_num_nodes st.
Proof.
  assert (H0 : 0 <= 256) by lia.
  assert (Hrun : btree_run BTreeIndex_init (map TreeInsert (tens 18)) = Some tree18)
    by (vm_compute; reflexivity).
  split; [exact H0|]. split; [exact Hrun|].
  destruct (@BTreeIndex_get_statistics_steps cpython_int_sizeof cpython_tuple_sizeof
              cpython_page_sizeof 256 (map TreeInsert (tens 18)) tree18 H0 Hrun)
    as (st & Hst & _ & Hrem).
  exists st. split; [exact Hst|]. intros key.
  destruct (Hrem key) as (root' & b & st' & H1 & H2 & _ & H3 & _).
  exists root', b, st'. split; [exact H1|]. split; [exact H2 | exact H3].
Defined.

Lemma BTreeIndex_leaves_sorted_witness :
  0 <= 256 /\
  btree_run BTreeIndex_init (map TreeInsert (tens 19)) = Some tree19 /\
  In [mkRecord 70 [0]; mkRecord 80 [0]; mkRecord 90 [0]] (leaves_of tree19) /\
  Sorted Z.le (LeafPage_get_key_list [mkRecord 70 [0]; mkRecord 80 [0]; mkRecord 90 [0]]).
Proof.
  assert (H0 : 0 <= 256) by lia.
  assert (Hrun : btree_run BTreeIndex_init (map TreeInsert (tens 19)) = Some tree19)
    by (vm_compute; reflexivity).
  assert (Hin : In [mkRecord 70 [0]; mkRecord 80 [0]; mkRecord 90 [0]] (leaves_of tree19))
    by (simpl; right; right; left; reflexivity).
  split; [exact H0|]. split; [exact Hrun|]. split; [exact Hin|].
  exact (@BTreeIndex_leaves_sorted cpython_int_sizeof cpython_tuple_sizeof
           cpython_page_sizeof 256 (map TreeInsert (tens 19)) tree19
           [mkRecord 70 [0]; mkRecord 80 [0]; mkRecord 90 [0]] H0 Hrun Hin).
Defined.

(** The middle child of three: its neighbours hold one record and none, the
    left one is chosen. *)
Lemma NonLeafPage_borrow_sibling_spec_witness :
  alternating page_ok
    [LeafPage [mkRecord 1 []]; Key 3; LeafPage [mkRecord 3 []]; Key 5; LeafPage []] /\
  exists res,
    NonLeafPage_borrow_sibling
      [LeafPage [mkRecord 1 []]; Key 3; LeafPage [mkRecord 3 []]; Key 5; LeafPage []] 2
    = Some res /\
    NonLeafPage_join_child
      [LeafPage [mkRecord 1 []]; Key 3; LeafPage [mkRecord 3 []]; Key 5; LeafPage []] 2
      (LeafPage [mkRecord 3 []])
    = Some (LeafPage [mkRecord 3 []]).
Proof.
  assert (Halt : alternating page_ok
                   [LeafPage [mkRecord 1 []]; Key 3; LeafPage [mkRecord 3 []]; Key 5;
                    LeafPage []])
    by (repeat constructor).
  split; [exact Halt|].
  destruct (@NonLeafPage_borrow_sibling_spec
              [LeafPage [mkRecord 1 []]; Key 3; LeafPage [mkRecord 3 []]; Key 5; LeafPage []]
              2%nat (LeafPage [mkRecord 3 []]) Halt eq_refl)
    as (res & Hres & Hjoin & _); [simpl; lia|].
  exists res. split; [exact Hres | exact Hjoin].
Defined.

Lemma BTreeIndex_search_ordered_witness :
  ordered None None tree7 /\
  BTreeIndex_search tree7 40 = Some (LeafPage_search (records_of tree7) 40) /\
  BTreeIndex_range_search tree7 40 40 = BTreeIndex_search tree7 40.
Proof.
  split; [exact ordered_tree7|].
  exact (@BTreeIndex_search_ordered tree7 40 ordered_tree7).
Defined.

Lemma BTreeIndex_small_tree_dictionary_witness :
  0 <= 256 /\
  btree_run BTreeIndex_init script7 = Some tree7' /\
  distinct_keys [] script7 = true /\
  BTreeIndex_get_height tree7' = Some 2%nat /\
  ordered None None tree7' /\
  forall key, BTreeIndex_search tree7' key = Some (LeafPage_search (model_run [] script7) key).
Proof.
  assert (H0 : 0 <= 256) by lia.
  assert (Hrun : btree_run BTreeIndex_init script7 = Some tree7') by (vm_compute; reflexivity).
  assert (Hdist : distinct_keys [] script7 = true) by (vm_compute; reflexivity).
  assert (Hh : BTreeIndex_get_height tree7' = Some 2%nat) by reflexivity.
  assert (Hle : (2 <= 2)%nat) by lia.
  split; [exact H0|]. split; [exact Hrun|]. split; [exact Hdist|]. split; [exact Hh|].
  destruct (@BTreeIndex_small_tree_dictionary cpython_int_sizeof cpython_tuple_sizeof
              cpython_page_sizeof 256 script7 tree7' 2%nat H0 Hrun Hdist Hh Hle)
    as (Hord & _ & Hsearch).
  split; [exact Hord | exact Hsearch].
Defined.

Lemma BTreeIndex_insert_ordered_stores_witness :
  0 <= 256 /\
  ordered None None tree7 /\
  exists root' found,
    btree_insert tree7 (mkRecord 35 [1]) = Some root' /\
    BTreeIndex_range_search root' 35 35 = Some found /\
    In (mkRecord 35 [1]) found.
Proof.
  assert (H0 : 0 <= 256) by lia.
  split; [exact H0|]. split; [exact ordered_tree7|].
  destruct (@BTreeIndex_insert_ordered_stores cpython_int_sizeof cpython_tuple_sizeof
              cpython_page_sizeof 256 tree7 (mkRecord 35 [1]) H0 ordered_tree7)
    as (root' & found & Hins & _ & Hrange & Hin).
  exists root', found. split; [exact Hins|]. split; [exact Hrange | exact Hin].
Defined.

(** ** More hash theorems on these engines *)

Lemma HashPage_insert_then_search_witness :
  HashPage_insert cpython_int_sizeof cpython_tuple_sizeof 512 HashPage_new PyList
    (mkRecord 7 [1])
  = Some (mkHashPage [mkRecord 7 [1]] None, true) /\
  HashPage_search (mkHashPage [mkRecord 7 [1]] None) 7 = [mkRecord 7 [1]] /\
  forall key, key <> 7 ->
    HashPage_search (mkHashPage [mkRecord 7 [1]] None) key = HashPage_search HashPage_new key.
Proof.
  assert (H : HashPage_insert cpython_int_sizeof cpython_tuple_sizeof 512 HashPage_new PyList
                (mkRecord 7 [1])
              = Some (mkHashPage [mkRecord 7 [1]] None, true))
    by (vm_compute; reflexivity).
  split; [exact H|].
  destruct (@HashPage_insert_then_search cpython_int_sizeof cpython_tuple_sizeof 512
              HashPage_new (mkHashPage [mkRecord 7 [1]] None) PyList (mkRecord 7 [1]) true H)
    as (_ & _ & Hfound & Hother & _).
  split; [exact (Hfound eq_refl) | exact Hother].
Defined.


Lemma LinearHashIndex_insert_then_search_witness :
  0 < 4 /\
  hash_run (LinearHashIndex_init 4) (counting 19) = Some engine19 /\
  hash_insert engine19 PyList (mkRecord 19 [0]) = Some (engine20, true) /\
  LinearHashIndex_search 4 engine20 19 = Some [mkRecord 19 [0]] /\
  forall key, key <> 19 ->
    LinearHashIndex_search 4 engine20 key = LinearHashIndex_search 4 engine19 key.
Proof.
  assert (H0 : 0 < 4) by lia.
  assert (Hrun : hash_run (LinearHashIndex_init 4) (counting 19) = Some engine19)
    by (vm_compute; reflexivity).
  assert (Hins : hash_insert engine19 PyList (mkRecord 19 [0]) = Some (engine20, true))
    by (vm_compute; reflexivity).
  split; [exact H0|]. split; [exact Hrun|]. split; [exact Hins|].
  destruct (@LinearHashIndex_insert_then_search cpython_int_sizeof cpython_tuple_sizeof
              512 4 utilization_default (counting 19) engine19 engine20 PyList
              (mkRecord 19 [0]) true H0 Hrun Hins) as ((_ & Hfound & _) & Hother).
  split; [exact Hfound | exact Hother].
Defined.

Lemma LinearHashIndex_remove_then_search_witness :
  0 < 4 /\
  hash_run (LinearHashIndex_init 4) (counting 20) = Some engine20 /\
  exists s' removed found,
    LinearHashIndex_remove 4 engine20 12 = Some (s', removed) /\
    LinearHashIndex_search 4 engine20 12 = Some found /\
    (removed = true <-> found <> []) /\
    LinearHashIndex_search 4 s' 12 = Some [].
Proof.
  assert (H0 : 0 < 4) by lia.
  assert (Hrun : hash_run (LinearHashIndex_init 4) (counting 20) = Some engine20)
    by (vm_compute; reflexivity).
  split; [exact H0|]. split; [exact Hrun|].
  destruct (@LinearHashIndex_remove_then_search cpython_int_sizeof cpython_tuple_sizeof
              512 4 utilization_default (counting 20) engine20 12 H0 Hrun)
    as (s' & removed & found & Hrem & Hs & Hb & _ & Hs' & _).
  exists s', removed, found.
  split; [exact Hrem|]. split; [exact Hs|]. split; [exact Hb | exact Hs'].
Defined.

Lemma LinearHashIndex_search_exact_witness :
  0 < 4 /\
  hash_run (LinearHashIndex_init 4) (counting 20) = Some engine20 /\
  NoDup (map rkey (stored_records engine20)) /\
  exists found,
    LinearHashIndex_search 4 engine20 99 = Some found /\
    (found = [] <-> ~ In 99 (map rkey (stored_records engine20))).
Proof.
  assert (H0 : 0 < 4) by lia.
  assert (Hrun : hash_run (LinearHashIndex_init 4) (counting 20) = Some engine20)
    by (vm_compute; reflexivity).
  split; [exact H0|]. split; [exact Hrun|].
  destruct (@LinearHashIndex_search_exact cpython_int_sizeof cpython_tuple_sizeof
              512 4 utilization_default (counting 20) engine20 99 H0 Hrun)
    as (Hnd & found & Hs & _ & _ & Hnil).
  split; [exact Hnd|]. exists found. split; [exact Hs | exact Hnil].
Defined.

Lemma LinearHashIndex_get_statistics_counts_witness :
  0 < 4 /\
  hash_run (LinearHashIndex_init 4) (counting 20) = Some engine20 /\
  _num_records engine20 = Z.of_nat (length (stored_records engine20)) /\
  _num_buckets engine20 = 4 + _num_splits engine20 /\
  exists st, LinearHashIndex_get_statistics engine20 = Some st.
Proof.
  assert (H0 : 0 < 4) by lia.
  assert (Hrun : hash_run (LinearHashIndex_init 4) (counting 20) = Some engine20)
    by (vm_compute; reflexivity).
  split; [exact H0|]. split; [exact Hrun|].
  destruct (@LinearHashIndex_get_statistics_counts cpython_int_sizeof cpython_tuple_sizeof
              512 4 utilization_default (counting 20) engine20 H0 Hrun)
    as (Hrec & _ & Hsplits & _ & _ & Hst & _).
  split; [exact Hrec|]. split; [exact Hsplits|].
  apply Hst; vm_compute; discriminate.
Defined.

Lemma LinearHashIndex_dictionary_witness :
  0 < 4 /\
  hash_run (LinearHashIndex_init 4) (counting 20) = Some engine20 /\
  Permutation (stored_records engine20) (hash_model_run [] (counting 20)) /\
  forall key,
    LinearHashIndex_search 4 engine20 key
    = Some (LeafPage_search (hash_model_run [] (counting 20)) key).
Proof.
  assert (H0 : 0 < 4) by lia.
  assert (Hrun : hash_run (LinearHashIndex_init 4) (counting 20) = Some engine20)
    by (vm_compute; reflexivity).
  split; [exact H0|]. split; [exact Hrun|].
  exact (@LinearHashIndex_dictionary cpython_int_sizeof cpython_tuple_sizeof
           512 4 utilization_default (counting 20) engine20 H0 Hrun).
Defined.


Lemma LinearHashIndex_no_buckets_witness :
  0 <= 0 /\
  LinearHashIndex_insert cpython_int_sizeof cpython_tuple_sizeof 512 0 utilization_default
    (LinearHashIndex_init 0) PyList (mkRecord 7 [1]) = None /\
  LinearHashIndex_search 0 (LinearHashIndex_init 0) 7 = None.
Proof.
  assert (H0 : 0 <= 0) by lia.
  split; [exact H0|].
  destruct (@LinearHashIndex_no_buckets cpython_int_sizeof cpython_tuple_sizeof 512 0
              utilization_default PyList (mkRecord 7 [1]) 7 H0)
    as (_ & Hins & _ & Hsearch & _).
  split; [exact Hins | exact Hsearch].
Defined.
